(** * Circular reference graph: builder, cycle detector and filter engine

    A shallow embedding of the JavaScript modules [data-loader.js],
    [graph-builder.js], [cycle-detector.js] and [filters.js], followed by the
    properties of the specification that were checked against them.

    Conventions of the embedding.
    - A JavaScript string is the list of its UTF-16 code units, each a
      number. The character classes of the regular expressions are those
      of ECMAScript for patterns without the [u] flag: [\d], [\w] and [\b]
      are the ASCII ones, [\s] is the Unicode white space, which is also
      what [trim] removes.
    - [toLowerCase] is the case conversion of the host, which follows the
      Unicode character database. It is a field of [Host] and no table of
      it is written down here: a property holds for every host, and where
      one depends on how the conversion works, what it needs is a stated
      hypothesis.
    - A field that the code only ever reads through truthiness
      ([x || default], [if (x)]) is a [string] whose empty value stands for
      both the missing and the empty field; a field that may be absent and is
      dereferenced is an [option].
    - A [Map] whose iteration order is observed is an insertion-ordered
      association list ([OMap]); a [Map] or [Set] that is only queried is a
      [gmap] or [gset].
    - An exception is the value [None]. *)

From Stdlib Require Import ZArith NArith List DecimalNat.
From Stdlib.Strings Require Import Byte.
From stdpp Require Import base list gmap.

Local Open Scope list_scope.

(** ** JavaScript strings *)

Module Js.

Definition string := list N.

Definition between (lo hi c : N) : bool := ((lo <=? c) && (c <=? hi))%N.

(** *** Literals

    The text between the quotes is UTF-8; [decode] gives its UTF-16 code
    units. *)

Inductive Literal := LNil | LCons (unit : N) (rest : Literal).

(** The code units of the code point [cp]. *)
Definition unitsOf (cp : N) (rest : Literal) : Literal :=
  if (cp <? 65536)%N then LCons cp rest
  else LCons (55296 + (cp - 65536) / 1024)%N
         (LCons (56320 + (cp - 65536) mod 1024)%N rest).

Definition tail6 (b : N) : option N :=
  if between 128 191 b then Some (b - 128)%N else None.

Fixpoint decodeFrom (l : list N) : option Literal :=
  match l with
  | [] => Some LNil
  | b :: r =>
      if (b <? 128)%N then LCons b <$> decodeFrom r
      else if between 194 223 b then
        match r with
        | c :: r1 =>
            x ← tail6 c;
            unitsOf ((b - 192) * 64 + x)%N <$> decodeFrom r1
        | _ => None
        end
      else if between 224 239 b then
        match r with
        | c :: d :: r2 =>
            x ← tail6 c; y ← tail6 d;
            unitsOf ((b - 224) * 4096 + x * 64 + y)%N <$> decodeFrom r2
        | _ => None
        end
      else if between 240 244 b then
        match r with
        | c :: d :: e :: r3 =>
            x ← tail6 c; y ← tail6 d; z ← tail6 e;
            unitsOf ((b - 240) * 262144 + x * 4096 + y * 64 + z)%N
              <$> decodeFrom r3
        | _ => None
        end
      else None
  end.

Definition decode (l : list Byte.byte) : option Literal :=
  decodeFrom (map Byte.to_N l).

(** Only a text of ASCII characters is shown between quotes. *)
Fixpoint encode (s : Literal) : option (list Byte.byte) :=
  match s with
  | LNil => Some []
  | LCons u r =>
      if (u <? 128)%N then
        match Byte.of_N u, encode r with
        | Some b, Some l => Some (b :: l)
        | _, _ => None
        end
      else None
  end.

(** *** Character classes *)

(** [\d] *)
Definition isDigit (c : N) : bool := between 48 57 c.

(** [[A-Z]] *)
Definition isUpper (c : N) : bool := between 65 90 c.

(** [\w] is [[A-Za-z0-9_]] *)
Definition isWord (c : N) : bool :=
  isDigit c || isUpper c || between 97 122 c || (c =? 95)%N.

(** [\s], and what [trim] removes: the white space and the line
    terminators of ECMAScript. These are tab, line feed, vertical tab, form
    feed, carriage return, space, U+00A0, U+1680, U+2000 to U+200A, U+2028,
    U+2029, U+202F, U+205F, U+3000 and U+FEFF. *)
Definition isSpace (c : N) : bool :=
  between 9 13 c || (c =? 32)%N || (c =? 160)%N || (c =? 5760)%N
  || between 8192 8202 c || (c =? 8232)%N || (c =? 8233)%N || (c =? 8239)%N
  || (c =? 8287)%N || (c =? 12288)%N || (c =? 65279)%N.

(** *** Operations *)

(** [a === b] *)
Fixpoint eqb (a b : string) : bool :=
  match a, b with
  | [], [] => true
  | x :: a', y :: b' => (x =? y)%N && eqb a' b'
  | _, _ => false
  end.

Fixpoint trimStart (s : string) : string :=
  match s with
  | [] => []
  | c :: r => if isSpace c then trimStart r else s
  end.

Fixpoint trimEnd (s : string) : string :=
  match s with
  | [] => []
  | c :: r =>
      match trimEnd r with
      | [] => if isSpace c then [] else [c]
      | r' => c :: r'
      end
  end.

(** [s.trim()] *)
Definition trim (s : string) : string := trimEnd (trimStart s).

(** [hay.startsWith(needle)] *)
Fixpoint startsWith (hay needle : string) : bool :=
  match needle, hay with
  | [], _ => true
  | x :: needle', y :: hay' => (x =? y)%N && startsWith hay' needle'
  | _ :: _, [] => false
  end.

(** [hay.includes(needle)] *)
Fixpoint includes (hay needle : string) : bool :=
  startsWith hay needle ||
  match hay with
  | [] => false
  | _ :: rest => includes rest needle
  end.

(** Truthiness of a string: it is not empty. *)
Definition truthy (s : string) : bool :=
  match s with [] => false | _ => true end.

(** [a || b] on strings *)
Definition or (a b : string) : string := if truthy a then a else b.

Fixpoint digits (d : Decimal.uint) : string :=
  match d with
  | Decimal.Nil => []
  | Decimal.D0 r => 48%N :: digits r
  | Decimal.D1 r => 49%N :: digits r
  | Decimal.D2 r => 50%N :: digits r
  | Decimal.D3 r => 51%N :: digits r
  | Decimal.D4 r => 52%N :: digits r
  | Decimal.D5 r => 53%N :: digits r
  | Decimal.D6 r => 54%N :: digits r
  | Decimal.D7 r => 55%N :: digits r
  | Decimal.D8 r => 56%N :: digits r
  | Decimal.D9 r => 57%N :: digits r
  end.

(** Template conversion of a non-negative integer, as in [`${n}`]. *)
Definition ofNat (n : nat) : string := digits (Nat.to_uint n).

(** *** The host

    What the program takes from the engine it runs on: the case conversion
    [String.prototype.toLowerCase], and the two renderings of
    [Math.random()] the code uses, as functions of the number of the
    draw. *)
Record Host := {
  toLowerCase : string -> string;
  decimal : nat -> string;   (* [`${Math.random()}`] *)
  base36 : nat -> string     (* [Math.random().toString(36).substr(2, 9)] *)
}.

End Js.

Declare Scope js_scope.
Delimit Scope js_scope with js.
#[warnings="-via-type-mismatch"]
String Notation list Js.decode Js.encode
  (via Js.Literal mapping [[nil] => Js.LNil, [cons] => Js.LCons]) : js_scope.
Local Open Scope js_scope.

(** ** data-loader.js *)

Module DataLoader.
Import Js.

(** State of the scan for [/\b0+(\d)/g]: either ordinary text, remembering
    whether the previous character is a word character, or inside a run of
    zeros that started at a word boundary and of which nothing has been
    copied to the output yet. *)
Inductive zstate := ZText (prevWord : bool) | ZRun.

Definition isZero (c : N) : bool := (c =? 48)%N.

(** [s.replace(/\b0+(\d)/g, '$1')]: a run of zeros at a word boundary that
    is followed by a digit is dropped; when no digit follows, the last zero
    of the run plays the part of the digit and a single zero is kept. *)
Fixpoint stripZerosFrom (st : zstate) (l : string) : string :=
  match l with
  | [] => match st with ZRun => "0" | ZText _ => [] end
  | c :: r =>
      match st with
      | ZText pw =>
          if negb pw && isZero c then stripZerosFrom ZRun r
          else c :: stripZerosFrom (ZText (isWord c)) r
      | ZRun =>
          if isZero c then stripZerosFrom ZRun r
          else if isDigit c then c :: stripZerosFrom (ZText true) r
          else 48%N :: c :: stripZerosFrom (ZText (isWord c)) r
      end
  end.

Definition stripZeros (l : string) : string := stripZerosFrom (ZText false) l.

(** The characters that [n], [o] and [\.] match under the flag [i]. *)
Definition isN (c : N) : bool := (c =? 110)%N || (c =? 78)%N.
Definition isO (c : N) : bool := (c =? 111)%N || (c =? 79)%N.
Definition isDot (c : N) : bool := (c =? 46)%N.

(** Does the text start with a match of [/no\./i]? *)
Definition startsNoDot (l : string) : bool :=
  match l with
  | n :: o :: d :: _ => isN n && isO o && isDot d
  | _ => false
  end.

(** [s.replace(/no\.\s*/gi, 'no ')]; [skip] holds while the white space
    after a match is being consumed. *)
Fixpoint standardizeNoFrom (skip : bool) (l : string) : string :=
  match l with
  | [] => []
  | c :: r =>
      if skip && isSpace c then standardizeNoFrom true r
      else
        match r with
        | o :: d :: r2 =>
            if isN c && isO o && isDot d
            then "no " ++ standardizeNoFrom true r2
            else c :: standardizeNoFrom false r
        | _ => c :: standardizeNoFrom false r
        end
  end.

Definition standardizeNo (l : string) : string := standardizeNoFrom false l.

(** [s.replace(/\s+/g, ' ')]; [inWs] holds inside a run of white space. *)
Fixpoint collapseFrom (inWs : bool) (l : string) : string :=
  match l with
  | [] => []
  | c :: r =>
      if isSpace c
      then (if inWs then collapseFrom true r else 32%N :: collapseFrom true r)
      else c :: collapseFrom false r
  end.

Definition collapse (l : string) : string := collapseFrom false l.

(** [normalizeTitle(title)] *)
Definition normalizeTitle (host : Host) (title : string) : string :=
  if truthy title
  then trim (collapse (standardizeNo (stripZeros (toLowerCase host title))))
  else "".

Definition digitValue (c : N) : Z := Z.of_N c - 48.

(** First match of [/(\d{4})/] read as a decimal number. *)
Fixpoint firstFourDigits (l : string) : option Z :=
  match l with
  | [] => None
  | a :: r =>
      match r with
      | b :: c :: d :: _ =>
          if isDigit a && isDigit b && isDigit c && isDigit d
          then Some (digitValue a * 1000 + digitValue b * 100
                     + digitValue c * 10 + digitValue d)%Z
          else firstFourDigits r
      | _ => None
      end
  end.

(** [extractYearFromDate(dateString)] *)
Definition extractYearFromDate (dateString : string) : option Z :=
  if truthy dateString then firstFourDigits dateString else None.

(** [[A-Z&]] *)
Definition isDeptChar (c : N) : bool := isUpper c || (c =? 38)%N.

(** The match of [/^([A-Z&]+)\s/]: the longest prefix of department
    characters, when it is not empty and white space follows it. *)
Fixpoint deptPrefix (l : string) : option string :=
  match l with
  | [] => None
  | c :: r =>
      if isDeptChar c then
        match deptPrefix r with
        | Some p => Some (c :: p)
        | None =>
            match r with
            | w :: _ => if isSpace w then Some [c] else None
            | [] => None
            end
        end
      else None
  end.

(** [extractDepartmentFromId(circularId)] *)
Definition extractDepartmentFromId (circularId : string) : string :=
  match deptPrefix circularId with
  | Some dept =>
      if includes dept "AC" && includes dept "MFD" then "AC&MFD"
      else if eqb dept "ACMFD" then "AC&MFD"
      else dept
  | None => "Other"
  end.

(** [generateNodeId(id, url, title)]; the result tells whether a random
    number was drawn. *)
Definition generateNodeId (host : Host) (draws : nat) (id url title : string)
  : string * nat :=
  if truthy id then (id, draws)
  else if truthy url then ("url_" ++ url, draws)
  else if truthy title then ("title_" ++ title, draws)
  else ("node_" ++ base36 host draws, S draws).

End DataLoader.

(** ** Insertion-ordered maps: a JavaScript [Map] with string keys whose
    iteration order is observed *)

Module OMap.
Section Ops.
Context {V : Type}.

Fixpoint get (m : list (Js.string * V)) (k : Js.string) : option V :=
  match m with
  | [] => None
  | (k', v) :: r => if Js.eqb k' k then Some v else get r k
  end.

Definition has (m : list (Js.string * V)) (k : Js.string) : bool :=
  match get m k with Some _ => true | None => false end.

(** [m.set(k, v)]: an existing key keeps its position. *)
Fixpoint set (m : list (Js.string * V)) (k : Js.string) (v : V)
  : list (Js.string * V) :=
  match m with
  | [] => [(k, v)]
  | (k', v') :: r =>
      if Js.eqb k' k then (k', v) :: r else (k', v') :: set r k v
  end.

Definition keys (m : list (Js.string * V)) : list Js.string := map fst m.
Definition values (m : list (Js.string * V)) : list V := map snd m.
End Ops.
End OMap.
(** ** graph-builder.js *)

Module GraphBuilder.
Import Js DataLoader.

(** *** The JSON sources *)

(** A content block is passed through unread. *)
Inductive ContentBlock := Block (json : string).

(** An entry of a [references] array: [{ type, title, url, content }];
    [ref_nested] is [content.references] when it is present and an array.
    Entries that are [null] are skipped by the code and left out here. *)
#[local] Unset Elimination Schemes.
Inductive Ref := MkRef {
  ref_type : string;
  ref_title : string;
  ref_url : string;
  ref_nested : option (list Ref)
}.
#[local] Set Elimination Schemes.

Record Circular := {
  c_ID : string;
  c_title : string;
  c_date : string;
  c_url : string;
  c_content : list ContentBlock;
  c_references : option (list Ref)
}.

Record YearData := {
  circulars : list (option Circular);
  circular_letters : list (option Circular)
}.

(** A main file; [years] holds the entries of the object [years] in the
    order of [Object.entries]. *)
Record MainFile := {
  department : string;
  years : option (list (string * YearData))
}.

(** [content] of a cache entry: [{ content, references }] *)
Record CachedContent := {
  cc_content : list ContentBlock;
  cc_references : option (list Ref)
}.

(** What [loadDataFiles] returns; [cache] holds the entries of the cache
    object in the order of [Object.entries]. *)
Record LoadedData := {
  mainFiles : list MainFile;
  cache : option (list (string * option CachedContent))
}.

(** *** Nodes and edges *)

Inductive Kind := circular | pdf | web.

Definition Kind_eqb (a b : Kind) : bool :=
  match a, b with
  | circular, circular | pdf, pdf | web, web => true
  | _, _ => false
  end.

Record Node := {
  n_id : string;
  n_label : string;
  n_title : string;
  n_date : option string;
  n_year : option Z;
  n_department : string;
  n_url : string;
  n_content : option (list ContentBlock);
  n_type : Kind;
  n_refCount : nat;
  n_fromCache : bool
}.

Record Edge := {
  e_source : string;
  e_target : string;
  e_refType : Kind;
  e_refTitle : string;
  e_refUrl : string
}.

(** An edge of the validated set carries an id. *)
Record ValidEdge := {
  v_source : string;
  v_target : string;
  v_refType : Kind;
  v_refTitle : string;
  v_refUrl : string;
  v_id : string
}.

(** The arrays [nodes] and [edges] of [buildGraph], the module-level map
    [nodeIdToNormalizedId] and the number of random draws made so far. *)
Record Acc := {
  nodes : list Node;
  edges : list Edge;
  nodeIdToNormalizedId : gmap string string;
  draws : nat
}.

Definition pushNode (n : Node) (a : Acc) : Acc :=
  {| nodes := nodes a ++ [n]; edges := edges a;
     nodeIdToNormalizedId := nodeIdToNormalizedId a; draws := draws a |}.

Definition pushEdge (e : Edge) (a : Acc) : Acc :=
  {| nodes := nodes a; edges := edges a ++ [e];
     nodeIdToNormalizedId := nodeIdToNormalizedId a; draws := draws a |}.

Definition register (normalizedId nodeId : string) (a : Acc) : Acc :=
  {| nodes := nodes a; edges := edges a;
     nodeIdToNormalizedId := <[normalizedId := nodeId]> (nodeIdToNormalizedId a);
     draws := draws a |}.

Definition setDraws (d : nat) (a : Acc) : Acc :=
  {| nodes := nodes a; edges := edges a;
     nodeIdToNormalizedId := nodeIdToNormalizedId a; draws := d |}.

Definition DEPARTMENT_COLORS : list (string * string) :=
  [("ACD", "#66cc99"); ("AC&MFD", "#ffcc66"); ("ACMFD", "#ffcc66");
   ("BPRD", "#6699ff"); ("BSD", "#cc99ff"); ("BSRVD", "#ff99cc");
   ("BPD", "#99ccff"); ("Other", "#cccccc")].

(** The value of [DEPARTMENT_COLORS[department]]: a colour of the table or,
    for the name of a property that every object inherits from
    [Object.prototype], that property, which is not a string. *)
Inductive Colour := Hex (code : string) | Inherited (property : string).

Definition objectPrototype : list string :=
  ["constructor"; "__defineGetter__"; "__defineSetter__"; "hasOwnProperty";
   "__lookupGetter__"; "__lookupSetter__"; "isPrototypeOf";
   "propertyIsEnumerable"; "toString"; "valueOf"; "__proto__";
   "toLocaleString"].

(** [DEPARTMENT_COLORS[department] || DEPARTMENT_COLORS['Other']]; an
    inherited property is truthy. *)
Definition getDepartmentColor (department : string) : Colour :=
  match OMap.get DEPARTMENT_COLORS department with
  | Some c => Hex c
  | None =>
      if existsb (eqb department) objectPrototype then Inherited department
      else Hex "#cccccc"
  end.

Section Extraction.
Variable host : Host.

(** The id of a pdf or web node: [ref.url || `pdf_${ref.title || Math.random()}`] *)
Definition attachmentId (pre : string) (r : Ref) (a : Acc) : string * Acc :=
  if truthy (ref_url r) then (ref_url r, a)
  else if truthy (ref_title r) then (pre ++ ref_title r, a)
  else (pre ++ decimal host (draws a), setDraws (S (draws a)) a).

Definition attachmentNode (k : Kind) (dflt id dept : string) (r : Ref) : Node :=
  {| n_id := id; n_label := or (ref_title r) dflt; n_title := or (ref_title r) dflt;
     n_date := None; n_year := None; n_department := dept;
     n_url := ref_url r; n_content := None; n_type := k;
     n_refCount := 0; n_fromCache := false |}.

(** One turn of the loop of [extractReferences], at depth [depth]. The
    call on the nested references happens at depth [depth + 1] and
    returns at once when that exceeds 10. *)
Fixpoint extractReference (depth : nat) (sourceId dept : string)
    (r : Ref) (a : Acc) {struct r} : Acc :=
  let nested (src : string) (a : Acc) : Acc :=
    match ref_nested r with
    | Some refs =>
        if Nat.ltb 10 (S depth) then a
        else
          (fix loop (l : list Ref) (a : Acc) : Acc :=
             match l with
             | [] => a
             | x :: l' => loop l' (extractReference (S depth) src dept x a)
             end) refs a
    | None => a
    end in
  if eqb (ref_type r) "circular" then
    let targetId := normalizeTitle host (ref_title r) in
    let a1 :=
      if truthy targetId
      then pushEdge {| e_source := sourceId; e_target := targetId;
                       e_refType := circular; e_refTitle := ref_title r;
                       e_refUrl := ref_url r |} a
      else a in
    nested sourceId a1
  else if eqb (ref_type r) "pdf" then
    let '(pdfId, a0) := attachmentId "pdf_" r a in
    let a1 := pushNode (attachmentNode pdf "PDF Document" pdfId dept r) a0 in
    let a2 := pushEdge {| e_source := sourceId; e_target := pdfId;
                          e_refType := pdf;
                          e_refTitle := or (ref_title r) "PDF Document";
                          e_refUrl := ref_url r |} a1 in
    nested pdfId a2
  else if eqb (ref_type r) "web" then
    let '(webId, a0) := attachmentId "web_" r a in
    let a1 := pushNode (attachmentNode web "Web Link" webId dept r) a0 in
    pushEdge {| e_source := sourceId; e_target := webId;
                e_refType := web;
                e_refTitle := or (ref_title r) "Web Link";
                e_refUrl := ref_url r |} a1
  else a.

(** [extractReferences(references, sourceId, department, nodes, edges, depth)] *)
Definition extractReferences (references : option (list Ref))
    (sourceId dept : string) (depth : nat) (a : Acc) : Acc :=
  match references with
  | Some refs =>
      if Nat.ltb 10 depth then a
      else fold_left (fun a r => extractReference depth sourceId dept r a) refs a
  | None => a
  end.

(** [processCircular(circular, department, nodes, edges)] *)
Definition processCircular (c : option Circular) (dept : string) (a : Acc) : Acc :=
  match c with
  | None => a
  | Some c =>
      let '(nodeId, d) :=
        generateNodeId host (draws a) (c_ID c) (c_url c) (c_title c) in
      let node :=
        {| n_id := nodeId; n_label := nodeId; n_title := or (c_title c) nodeId;
           n_date := Some (c_date c); n_year := extractYearFromDate (c_date c);
           n_department := dept; n_url := c_url c;
           n_content := Some (c_content c); n_type := circular;
           n_refCount := 0; n_fromCache := false |} in
      let a1 := pushNode node (setDraws d a) in
      let a2 := register (normalizeTitle host nodeId) nodeId a1 in
      extractReferences (c_references c) nodeId dept 0 a2
  end.

Definition processYear (dept : string) (a : Acc) (y : string * YearData) : Acc :=
  let a1 := fold_left (fun a c => processCircular c dept a) (circulars (snd y)) a in
  fold_left (fun a c => processCircular c dept a) (circular_letters (snd y)) a1.

(** [extractCircularsFromMainFile(fileData, nodes, edges)] *)
Definition extractCircularsFromMainFile (a : Acc) (fileData : MainFile) : Acc :=
  match years fileData with
  | None => a
  | Some ys => fold_left (processYear (or (department fileData) "Other")) ys a
  end.

Definition processCacheEntry (a : Acc) (entry : string * option CachedContent) : Acc :=
  let '(circularId, circularData) := entry in
  let dept := extractDepartmentFromId circularId in
  let node :=
    {| n_id := circularId; n_label := circularId; n_title := circularId;
       n_date := Some ""; n_year := None; n_department := dept; n_url := "";
       n_content := Some (match circularData with
                          | Some cc => cc_content cc
                          | None => []
                          end);
       n_type := circular; n_refCount := 0; n_fromCache := true |} in
  let a1 := pushNode node a in
  let a2 := register (normalizeTitle host circularId) circularId a1 in
  match circularData with
  | Some cc => extractReferences (cc_references cc) circularId dept 0 a2
  | None => a2
  end.

(** [extractCircularsFromCache(cacheData, nodes, edges)] *)
Definition extractCircularsFromCache
    (cacheData : list (string * option CachedContent)) (a : Acc) : Acc :=
  fold_left processCacheEntry cacheData a.
End Extraction.

(** *** Deduplication *)

Definition truthyDate (d : option string) : bool :=
  match d with Some s => truthy s | None => false end.

(** Truthiness of a year: it is present and not zero. *)
Definition truthyYear (y : option Z) : bool :=
  match y with Some v => negb (v =? 0)%Z | None => false end.

Definition withTitle (t : string) (n : Node) : Node :=
  {| n_id := n_id n; n_label := n_label n; n_title := t; n_date := n_date n;
     n_year := n_year n; n_department := n_department n; n_url := n_url n;
     n_content := n_content n; n_type := n_type n; n_refCount := n_refCount n;
     n_fromCache := n_fromCache n |}.

Definition withDate (d : option string) (n : Node) : Node :=
  {| n_id := n_id n; n_label := n_label n; n_title := n_title n; n_date := d;
     n_year := n_year n; n_department := n_department n; n_url := n_url n;
     n_content := n_content n; n_type := n_type n; n_refCount := n_refCount n;
     n_fromCache := n_fromCache n |}.

Definition withYear (y : option Z) (n : Node) : Node :=
  {| n_id := n_id n; n_label := n_label n; n_title := n_title n; n_date := n_date n;
     n_year := y; n_department := n_department n; n_url := n_url n;
     n_content := n_content n; n_type := n_type n; n_refCount := n_refCount n;
     n_fromCache := n_fromCache n |}.

Definition withUrl (u : string) (n : Node) : Node :=
  {| n_id := n_id n; n_label := n_label n; n_title := n_title n; n_date := n_date n;
     n_year := n_year n; n_department := n_department n; n_url := u;
     n_content := n_content n; n_type := n_type n; n_refCount := n_refCount n;
     n_fromCache := n_fromCache n |}.

Definition withContent (c : option (list ContentBlock)) (n : Node) : Node :=
  {| n_id := n_id n; n_label := n_label n; n_title := n_title n; n_date := n_date n;
     n_year := n_year n; n_department := n_department n; n_url := n_url n;
     n_content := c; n_type := n_type n; n_refCount := n_refCount n;
     n_fromCache := n_fromCache n |}.

Definition withFromCache (b : bool) (n : Node) : Node :=
  {| n_id := n_id n; n_label := n_label n; n_title := n_title n; n_date := n_date n;
     n_year := n_year n; n_department := n_department n; n_url := n_url n;
     n_content := n_content n; n_type := n_type n; n_refCount := n_refCount n;
     n_fromCache := b |}.

Definition withRefCount (k : nat) (n : Node) : Node :=
  {| n_id := n_id n; n_label := n_label n; n_title := n_title n; n_date := n_date n;
     n_year := n_year n; n_department := n_department n; n_url := n_url n;
     n_content := n_content n; n_type := n_type n; n_refCount := k;
     n_fromCache := n_fromCache n |}.

(** The content step of the merge. [existingNode.content.length] is
    evaluated only when the incoming node has a non-empty content; it
    throws a [TypeError] when the existing node has no content field. *)
Definition mergeContent (existing node : Node) : option Node :=
  match n_content node with
  | Some (_ :: _) =>
      match n_content existing with
      | None => None
      | Some [] => Some (withContent (n_content node) existing)
      | Some (_ :: _) => Some existing
      end
  | _ => Some existing
  end.

(** The body of the branch [if (existingNode)] of [deduplicateNodes]: the
    node already in the map after the incoming [node] has been merged into
    it. *)
Definition mergeInto (existing node : Node) : option Node :=
  if negb (n_fromCache node) || n_fromCache existing then
    let e1 := if truthy (n_title node) && negb (truthy (n_title existing))
              then withTitle (n_title node) existing else existing in
    let e2 := if truthyDate (n_date node) && negb (truthyDate (n_date e1))
              then withDate (n_date node) e1 else e1 in
    let e3 := if truthyYear (n_year node) && negb (truthyYear (n_year e2))
              then withYear (n_year node) e2 else e2 in
    let e4 := if truthy (n_url node) && negb (truthy (n_url e3))
              then withUrl (n_url node) e3 else e3 in
    match mergeContent e4 node with
    | Some e5 =>
        Some (if negb (n_fromCache e5) then withFromCache (n_fromCache node) e5 else e5)
    | None => None
    end
  else Some existing.

Definition dedupStep (nodeMap : option (list (string * Node))) (node : Node)
  : option (list (string * Node)) :=
  match nodeMap with
  | None => None
  | Some m =>
      match OMap.get m (n_id node) with
      | Some existing =>
          match mergeInto existing node with
          | Some merged => Some (OMap.set m (n_id node) merged)
          | None => None
          end
      | None => Some (OMap.set m (n_id node) node)
      end
  end.

(** [deduplicateNodes(nodes)] *)
Definition deduplicateNodes (nodes : list Node) : option (list (string * Node)) :=
  fold_left dedupStep nodes (Some []).

(** *** Validation *)

(** The target of an edge after the look-up in the normalized-title table. *)
Definition resolveTarget (nodeMap : list (string * Node))
    (table : gmap string string) (target : string) : string :=
  if negb (OMap.has nodeMap target) then
    match table !! target with
    | Some nodeId => nodeId
    | None => target
    end
  else target.

Definition edgeId (source targetId : string) (index : nat) : string :=
  "edge_" ++ source ++ "_" ++ targetId ++ "_" ++ ofNat index.

(** The result of [validateEdges]: the returned array, the local counter
    [orphanedCount] and what was written with [console.warn]. *)
Record Validation := {
  validEdges : list ValidEdge;
  orphanedCount : nat;
  warnings : list string
}.

Definition validateStep (nodeMap : list (string * Node))
    (table : gmap string string) (st : list ValidEdge * nat) (edge : Edge)
  : list ValidEdge * nat :=
  let '(valid, orphaned) := st in
  let targetId := resolveTarget nodeMap table (e_target edge) in
  if OMap.has nodeMap (e_source edge) && OMap.has nodeMap targetId then
    (valid ++ [{| v_source := e_source edge; v_target := targetId;
                  v_refType := e_refType edge; v_refTitle := e_refTitle edge;
                  v_refUrl := e_refUrl edge;
                  v_id := edgeId (e_source edge) targetId (length valid) |}],
     orphaned)
  else (valid, S orphaned).

(** [validateEdges(edges, nodeMap)] *)
Definition validateEdges (edges : list Edge) (nodeMap : list (string * Node))
    (table : gmap string string) : Validation :=
  let '(valid, orphaned) := fold_left (validateStep nodeMap table) edges ([], 0) in
  {| validEdges := valid;
     orphanedCount := orphaned;
     warnings := if Nat.ltb 0 orphaned
                 then [ofNat orphaned ++ " orphaned references (target not found)"]
                 else [] |}.

(** *** Reference counts *)

Definition countStep (nodeMap : list (string * Node)) (edge : ValidEdge)
  : list (string * Node) :=
  match OMap.get nodeMap (v_target edge) with
  | Some targetNode =>
      OMap.set nodeMap (v_target edge)
        (withRefCount (n_refCount targetNode + 1) targetNode)
  | None => nodeMap
  end.

(** [calculateReferenceCounts(nodeMap, edges)] *)
Definition calculateReferenceCounts (nodeMap : list (string * Node))
    (edges : list ValidEdge) : list (string * Node) :=
  fold_left countStep edges nodeMap.

(** *** The graph handed to the viewer *)

Record CyNode := {
  id : string;
  label : string;
  title : string;
  date : option string;
  year : option Z;
  dept : string;
  departmentColor : Colour;
  url : string;
  content : option (list ContentBlock);
  type : Kind;
  refCount : nat;
  fromCache : bool;
  inCycle : bool;
  cycleIds : list nat
}.

Record CyEdge := {
  edge_id : string;
  source : string;
  target : string;
  refType : Kind;
  refTitle : string;
  refUrl : string;
  isCycleEdge : bool;
  edge_cycleIds : list nat
}.

Record Stats := {
  totalNodes : nat;
  totalEdges : nat;
  circularNodes : nat;
  pdfNodes : nat;
  webNodes : nat
}.

Record Graph := {
  g_nodes : list CyNode;
  g_edges : list CyEdge;
  g_nodeMap : list (string * Node);
  g_stats : Stats
}.

Definition cyNode (node : Node) : CyNode :=
  {| id := n_id node; label := n_label node; title := n_title node;
     date := n_date node; year := n_year node; dept := n_department node;
     departmentColor := getDepartmentColor (n_department node);
     url := n_url node; content := n_content node; type := n_type node;
     refCount := n_refCount node; fromCache := n_fromCache node;
     inCycle := false; cycleIds := [] |}.

Definition cyEdge (edge : ValidEdge) : CyEdge :=
  {| edge_id := v_id edge; source := v_source edge; target := v_target edge;
     refType := v_refType edge; refTitle := v_refTitle edge;
     refUrl := v_refUrl edge; isCycleEdge := false; edge_cycleIds := [] |}.

Definition countKind (k : Kind) (l : list CyNode) : nat :=
  length (filter (fun n => Kind_eqb (type n) k = true) l).

(** The extraction phase of [buildGraph]: the map is cleared, the main
    files are read in order, then the cache. *)
Definition extractAll (host : Host) (loadedData : LoadedData) : Acc :=
  let a0 := {| nodes := []; edges := []; nodeIdToNormalizedId := ∅; draws := 0 |} in
  let a1 := fold_left (extractCircularsFromMainFile host) (mainFiles loadedData) a0 in
  match cache loadedData with
  | Some c => extractCircularsFromCache host c a1
  | None => a1
  end.

(** [buildGraph(loadedData)] *)
Definition buildGraph (host : Host) (loadedData : LoadedData) : option Graph :=
  let a := extractAll host loadedData in
  match deduplicateNodes (nodes a) with
  | None => None
  | Some nodeMap =>
      let v := validateEdges (edges a) nodeMap (nodeIdToNormalizedId a) in
      let nodeMap' := calculateReferenceCounts nodeMap (validEdges v) in
      let cyNodes := map cyNode (OMap.values nodeMap') in
      let cyEdges := map cyEdge (validEdges v) in
      Some {| g_nodes := cyNodes; g_edges := cyEdges; g_nodeMap := nodeMap';
              g_stats := {| totalNodes := length cyNodes;
                            totalEdges := length cyEdges;
                            circularNodes := countKind circular cyNodes;
                            pdfNodes := countKind pdf cyNodes;
                            webNodes := countKind web cyNodes |} |}
  end.
End GraphBuilder.

(** ** cycle-detector.js *)

Module CycleDetector.
Import Js GraphBuilder.

(** An entry [{ target, edgeId }] of an adjacency list. *)
Record Neighbor := { nb_target : string; nb_edgeId : string }.

Definition addNode (adjList : gmap string (list Neighbor)) (node : CyNode)
  : gmap string (list Neighbor) :=
  <[id node := []]> adjList.

Definition addEdge (adjList : gmap string (list Neighbor)) (edge : CyEdge)
  : gmap string (list Neighbor) :=
  if Kind_eqb (refType edge) circular then
    match adjList !! source edge with
    | Some l =>
        <[source edge := l ++ [{| nb_target := target edge;
                                  nb_edgeId := edge_id edge |}]]> adjList
    | None => adjList
    end
  else adjList.

(** [buildAdjacencyList(graphData)] *)
Definition buildAdjacencyList (nodes : list CyNode) (edges : list CyEdge)
  : gmap string (list Neighbor) :=
  fold_left addEdge edges (fold_left addNode nodes ∅).

Record Cycle := {
  cycle_nodes : list string;
  cycle_edges : list string;
  cycle_length : nat
}.

(** The variables that [dfs] closes over. *)
Record Search := {
  visited : gset string;
  recursionStack : gset string;
  cycles : list Cycle;
  nodesInCycles : gset string;
  edgesInCycles : gset string
}.

(** [path.indexOf(x)] *)
Fixpoint indexOf (path : list string) (x : string) : option nat :=
  match path with
  | [] => None
  | y :: r => if eqb y x then Some 0 else S <$> indexOf r x
  end.

Definition enter (nodeId : string) (st : Search) : Search :=
  {| visited := {[nodeId]} ∪ visited st;
     recursionStack := {[nodeId]} ∪ recursionStack st;
     cycles := cycles st; nodesInCycles := nodesInCycles st;
     edgesInCycles := edgesInCycles st |}.

Definition leave (nodeId : string) (st : Search) : Search :=
  {| visited := visited st;
     recursionStack := recursionStack st ∖ {[nodeId]};
     cycles := cycles st; nodesInCycles := nodesInCycles st;
     edgesInCycles := edgesInCycles st |}.

(** The branch taken when the neighbour is on the recursion stack. *)
Definition closeCycle (path edgePath : list string) (nb : Neighbor) (st : Search)
  : Search :=
  match indexOf path (nb_target nb) with
  | Some cycleStartIndex =>
      let cycle := drop cycleStartIndex path in
      let cycleEdges := drop cycleStartIndex edgePath ++ [nb_edgeId nb] in
      {| visited := visited st; recursionStack := recursionStack st;
         cycles := cycles st ++ [{| cycle_nodes := cycle; cycle_edges := cycleEdges;
                                    cycle_length := length cycle |}];
         nodesInCycles := list_to_set cycle ∪ nodesInCycles st;
         edgesInCycles := list_to_set cycleEdges ∪ edgesInCycles st |}
  | None => st
  end.

(** The loop [for (const neighbor of neighbors)] of [dfs]; [path] already
    ends with the current node and [descend] is the recursive call. *)
Fixpoint visitNeighbors
    (descend : string -> list string -> list string -> Search -> option Search)
    (path edgePath : list string) (neighbors : list Neighbor) (st : Search)
  : option Search :=
  match neighbors with
  | [] => Some st
  | nb :: rest =>
      if bool_decide (nb_target nb ∈ recursionStack st) then
        visitNeighbors descend path edgePath rest (closeCycle path edgePath nb st)
      else if bool_decide (nb_target nb ∉ visited st) then
        match descend (nb_target nb) path (edgePath ++ [nb_edgeId nb]) st with
        | Some st' => visitNeighbors descend path edgePath rest st'
        | None => None
        end
      else visitNeighbors descend path edgePath rest st
  end.

(** [dfs(nodeId, path, edgePath)]; [path] is the array the caller passed,
    before [nodeId] is pushed on it. The recursion of the source is bounded
    here by [fuel]; [None] means that the bound was reached. *)
Fixpoint dfs (fuel : nat) (adjList : gmap string (list Neighbor))
    (nodeId : string) (path edgePath : list string) (st : Search)
  : option Search :=
  match fuel with
  | 0 => None
  | S fuel' =>
      leave nodeId <$>
        visitNeighbors (dfs fuel' adjList) (path ++ [nodeId]) edgePath
          (default [] (adjList !! nodeId)) (enter nodeId st)
  end.

Definition startFrom (fuel : nat) (adjList : gmap string (list Neighbor))
    (st : option Search) (node : CyNode) : option Search :=
  match st with
  | None => None
  | Some st =>
      if bool_decide (id node ∉ visited st)
      then dfs fuel adjList (id node) [] [] st
      else Some st
  end.

Record CycleStats := {
  totalCycles : nat;
  totalNodesInCycles : nat;
  totalEdgesInCycles : nat
}.

Record CycleInfo := {
  info_cycles : list Cycle;
  cycleCount : nat;
  info_nodesInCycles : gset string;
  info_edgesInCycles : gset string;
  stats : CycleStats
}.

(** Every call of [dfs] visits a node that was not visited before, and a
    visited node is a node of the graph or the target of an edge: the
    recursion is never deeper than this. *)
Definition depthBound (nodes : list CyNode) (edges : list CyEdge) : nat :=
  S (length nodes + length edges).

(** [detectCycles(graphData)] *)
Definition detectCycles (nodes : list CyNode) (edges : list CyEdge)
  : option CycleInfo :=
  let adjList := buildAdjacencyList nodes edges in
  let st0 := {| visited := ∅; recursionStack := ∅; cycles := [];
                nodesInCycles := ∅; edgesInCycles := ∅ |} in
  match fold_left (startFrom (depthBound nodes edges) adjList) nodes (Some st0) with
  | Some st =>
      Some {| info_cycles := cycles st;
              cycleCount := length (cycles st);
              info_nodesInCycles := nodesInCycles st;
              info_edgesInCycles := edgesInCycles st;
              stats := {| totalCycles := length (cycles st);
                          totalNodesInCycles := size (nodesInCycles st);
                          totalEdgesInCycles := size (edgesInCycles st) |} |}
  | None => None
  end.

(** The indices of the cycles that [x] occurs in, by [select]. *)
Fixpoint memberOf (select : Cycle -> list string) (x : string)
    (cs : list Cycle) (i : nat) : list nat :=
  match cs with
  | [] => []
  | c :: r =>
      if bool_decide (x ∈ select c)
      then i :: memberOf select x r (S i)
      else memberOf select x r (S i)
  end.

Definition markNode (info : CycleInfo) (node : CyNode) : CyNode :=
  if bool_decide (id node ∈ info_nodesInCycles info) then
    {| id := id node; label := label node; title := title node;
       date := date node; year := year node; dept := dept node;
       departmentColor := departmentColor node; url := url node;
       content := content node; type := type node; refCount := refCount node;
       fromCache := fromCache node; inCycle := true;
       cycleIds := memberOf cycle_nodes (id node) (info_cycles info) 0 |}
  else node.

Definition markEdge (info : CycleInfo) (edge : CyEdge) : CyEdge :=
  if bool_decide (edge_id edge ∈ info_edgesInCycles info) then
    {| edge_id := edge_id edge; source := source edge; target := target edge;
       refType := refType edge; refTitle := refTitle edge; refUrl := refUrl edge;
       isCycleEdge := true;
       edge_cycleIds := memberOf cycle_edges (edge_id edge) (info_cycles info) 0 |}
  else edge.

(** [applyCycleInfo(graphData, cycleInfo)] *)
Definition applyCycleInfo (nodes : list CyNode) (edges : list CyEdge)
    (info : CycleInfo) : list CyNode * list CyEdge :=
  (map (markNode info) nodes, map (markEdge info) edges).

(** An entry of the result of [getCyclesForNode]. *)
Record NodeCycle := {
  nc_id : nat;
  nc_nodes : list string;
  nc_length : nat
}.

Fixpoint cyclesFrom (nodeId : string) (cs : list Cycle) (i : nat)
  : list NodeCycle :=
  match cs with
  | [] => []
  | c :: r =>
      if bool_decide (nodeId ∈ cycle_nodes c)
      then {| nc_id := i; nc_nodes := cycle_nodes c; nc_length := cycle_length c |}
           :: cyclesFrom nodeId r (S i)
      else cyclesFrom nodeId r (S i)
  end.

(** [getCyclesForNode(nodeId, cycleInfo)] *)
Definition getCyclesForNode (nodeId : string) (info : CycleInfo)
  : list NodeCycle :=
  cyclesFrom nodeId (info_cycles info) 0.

End CycleDetector.

(** ** filters.js

    The handlers are functions on the state of the page. What they write
    into the page besides the classes of the graph (the year display, the
    count of search results, the statistics) is left out. *)

Module Filters.
Import Js GraphBuilder.

(** [activeFilters]; [departments] is a [Set], kept in insertion order
    because [saveFilterState] lists it with [Array.from]. *)
Record FilterState := {
  departments : list string;
  yearMin : Z;
  yearMax : Z;
  searchQuery : string;
  showCyclesOnly : bool;
  showLabels : bool;
  showIsolated : bool
}.

Definition initialFilters : FilterState :=
  {| departments := []; yearMin := 2000; yearMax := 2025; searchQuery := "";
     showCyclesOnly := false; showLabels := false; showIsolated := true |}.

Definition setHas (s : list string) (x : string) : bool :=
  existsb (eqb x) s.
Definition setAdd (s : list string) (x : string) : list string :=
  if setHas s x then s else s ++ [x].
Definition setDelete (s : list string) (x : string) : list string :=
  filter (fun y => y ≠ x) s.

(** *** The graph held by the viewer: every element has its data and the
    classes [hidden] and [dimmed]. *)

Record Classes := { hidden : bool; dimmed : bool }.

Definition addHidden (c : Classes) : Classes :=
  {| hidden := true; dimmed := dimmed c |}.
Definition addDimmed (c : Classes) : Classes :=
  {| hidden := hidden c; dimmed := true |}.
Definition noClass : Classes := {| hidden := false; dimmed := false |}.

Record Cy := {
  cy_nodes : list (CyNode * Classes);
  cy_edges : list (CyEdge * Classes);
  labelled : bool                       (* the style [label] shows the id *)
}.

(** [node.degree()] of the graph library: the number of edge ends at the
    node, a loop counting for two. *)
Definition degree (edges : list (CyEdge * Classes)) (nodeId : string) : nat :=
  length (filter (fun e => source (fst e) = nodeId) edges)
  + length (filter (fun e => target (fst e) = nodeId) edges).

(** [n.hasClass('hidden')] for the node with the given id. *)
Fixpoint nodeHidden (nodes : list (CyNode * Classes)) (nodeId : string) : bool :=
  match nodes with
  | [] => false
  | (n, c) :: r => if eqb (id n) nodeId then hidden c else nodeHidden r nodeId
  end.

(** One pass [cy.nodes().forEach(node => { if (cond) node.addClass(..) })]. *)
Definition forEachNode (f : CyNode -> Classes -> Classes)
    (nodes : list (CyNode * Classes)) : list (CyNode * Classes) :=
  map (fun nc => (fst nc, f (fst nc) (snd nc))) nodes.

Definition byDepartment (f : FilterState) (n : CyNode) (c : Classes) : Classes :=
  if negb (setHas (departments f) (dept n)) then addHidden c else c.

Definition byYear (f : FilterState) (n : CyNode) (c : Classes) : Classes :=
  match year n with
  | Some y =>
      if negb (y =? 0)%Z && ((y <? yearMin f)%Z || (yearMax f <? y)%Z)
      then addHidden c else c
  | None => c
  end.

(** Membership in [matchingNodes]. *)
Definition matches (host : Host) (f : FilterState) (n : CyNode) : bool :=
  includes (toLowerCase host (id n)) (searchQuery f)
  || includes (toLowerCase host (title n)) (searchQuery f).

Definition bySearch (host : Host) (f : FilterState) (n : CyNode) (c : Classes)
  : Classes :=
  if truthy (searchQuery f) then
    if negb (matches host f n) && negb (hidden c) then addDimmed c else c
  else c.

Definition byCycles (f : FilterState) (n : CyNode) (c : Classes) : Classes :=
  if showCyclesOnly f then
    if negb (inCycle n) && negb (hidden c) then addHidden c else c
  else c.

Definition byIsolated (f : FilterState) (edges : list (CyEdge * Classes))
    (n : CyNode) (c : Classes) : Classes :=
  if negb (showIsolated f) then
    if Nat.eqb (degree edges (id n)) 0 && negb (hidden c) then addHidden c else c
  else c.

Definition hideEdge (nodes : list (CyNode * Classes)) (ec : CyEdge * Classes)
  : CyEdge * Classes :=
  if nodeHidden nodes (source (fst ec)) || nodeHidden nodes (target (fst ec))
  then (fst ec, addHidden (snd ec)) else ec.

(** [applyFilters()] on the graph of the viewer. *)
Definition applyFiltersTo (host : Host) (f : FilterState) (cy : Cy) : Cy :=
  let nodes0 := map (fun nc => (fst nc, noClass)) (cy_nodes cy) in
  let edges0 := map (fun ec => (fst ec, noClass)) (cy_edges cy) in
  let nodes1 := forEachNode (byDepartment f) nodes0 in
  let nodes2 := forEachNode (byYear f) nodes1 in
  let nodes3 := forEachNode (bySearch host f) nodes2 in
  let nodes4 := forEachNode (byCycles f) nodes3 in
  let nodes5 := forEachNode (byIsolated f edges0) nodes4 in
  {| cy_nodes := nodes5;
     cy_edges := map (hideEdge nodes5) edges0;
     labelled := showLabels f |}.

(** *** The persisted record *)

#[local] Unset Elimination Schemes.
Inductive Json :=
| JNum (z : Z)
| JStr (s : string)
| JBool (b : bool)
| JArr (items : list Json)
| JObj (fields : list (string * Json)).
#[local] Set Elimination Schemes.

(** The page: the filter state, the viewer's graph when it exists, the
    values of the department check boxes, the bounds of the year sliders,
    and [localStorage], which holds under each key the object that was
    serialised into it. *)
Record Page := {
  activeFilters : FilterState;
  cytoscape : option Cy;
  checkboxes : list string;
  sliderMin : Z;
  sliderMax : Z;
  localStorage : gmap string Json
}.

Definition withFilters (f : FilterState) (p : Page) : Page :=
  {| activeFilters := f; cytoscape := cytoscape p; checkboxes := checkboxes p;
     sliderMin := sliderMin p; sliderMax := sliderMax p;
     localStorage := localStorage p |}.

Definition withStorage (s : gmap string Json) (p : Page) : Page :=
  {| activeFilters := activeFilters p; cytoscape := cytoscape p;
     checkboxes := checkboxes p; sliderMin := sliderMin p;
     sliderMax := sliderMax p; localStorage := s |}.

(** [applyFilters()]: nothing happens without a graph. *)
Definition applyFilters (host : Host) (p : Page) : Page :=
  {| activeFilters := activeFilters p;
     cytoscape := applyFiltersTo host (activeFilters p) <$> cytoscape p;
     checkboxes := checkboxes p; sliderMin := sliderMin p;
     sliderMax := sliderMax p; localStorage := localStorage p |}.

(** The object [state] built by [saveFilterState]. *)
Definition savedRecord (f : FilterState) : Json :=
  JObj [("departments", JArr (map JStr (departments f)));
        ("yearMin", JNum (yearMin f));
        ("yearMax", JNum (yearMax f));
        ("showCyclesOnly", JBool (showCyclesOnly f));
        ("showLabels", JBool (showLabels f));
        ("showIsolated", JBool (showIsolated f))].

(** [saveFilterState()] *)
Definition saveFilterState (p : Page) : Page :=
  withStorage (<["filterState" := savedRecord (activeFilters p)]> (localStorage p)) p.

(** *** The handlers *)

Definition setDepartments (d : list string) (f : FilterState) : FilterState :=
  {| departments := d; yearMin := yearMin f; yearMax := yearMax f;
     searchQuery := searchQuery f; showCyclesOnly := showCyclesOnly f;
     showLabels := showLabels f; showIsolated := showIsolated f |}.

Definition setYears (lo hi : Z) (f : FilterState) : FilterState :=
  {| departments := departments f; yearMin := lo; yearMax := hi;
     searchQuery := searchQuery f; showCyclesOnly := showCyclesOnly f;
     showLabels := showLabels f; showIsolated := showIsolated f |}.

Definition setSearch (q : string) (f : FilterState) : FilterState :=
  {| departments := departments f; yearMin := yearMin f; yearMax := yearMax f;
     searchQuery := q; showCyclesOnly := showCyclesOnly f;
     showLabels := showLabels f; showIsolated := showIsolated f |}.

(** The three options wired to [onDisplayOptionChange]. *)
Inductive DisplayOption := optShowCyclesOnly | optShowLabels | optShowIsolated.

Definition setOption (o : DisplayOption) (checked : bool) (f : FilterState)
  : FilterState :=
  {| departments := departments f; yearMin := yearMin f; yearMax := yearMax f;
     searchQuery := searchQuery f;
     showCyclesOnly :=
       match o with optShowCyclesOnly => checked | _ => showCyclesOnly f end;
     showLabels := match o with optShowLabels => checked | _ => showLabels f end;
     showIsolated :=
       match o with optShowIsolated => checked | _ => showIsolated f end |}.

(** [onDepartmentFilterChange(event)]; the event carries the value of the
    check box and whether it is checked. *)
Definition onDepartmentFilterChange (host : Host) (dept : string)
    (checked : bool) (p : Page) : Page :=
  let f := activeFilters p in
  let d := if checked then setAdd (departments f) dept
           else setDelete (departments f) dept in
  saveFilterState (applyFilters host (withFilters (setDepartments d f) p)).

Inductive Slider := sliderYearMin | sliderYearMax.

(** [onYearFilterChange(event)]; [lo] and [hi] are the values of the two
    sliders when the handler runs, [moved] is [event.target]. *)
Definition onYearFilterChange (host : Host) (moved : Slider) (lo hi : Z)
    (p : Page) : Page :=
  let f := activeFilters p in
  let f' :=
    if (hi <? lo)%Z then
      match moved with
      | sliderYearMin => setYears hi (yearMax f) f
      | sliderYearMax => setYears (yearMin f) lo f
      end
    else setYears lo hi f in
  saveFilterState (applyFilters host (withFilters f' p)).

(** [onSearchInput(event)] *)
Definition onSearchInput (host : Host) (value : string) (p : Page) : Page :=
  applyFilters host
    (withFilters (setSearch (trim (toLowerCase host value)) (activeFilters p)) p).

(** [clearSearch()] *)
Definition clearSearch (host : Host) (p : Page) : Page :=
  applyFilters host (withFilters (setSearch "" (activeFilters p)) p).

(** [onDisplayOptionChange(option, checked)] *)
Definition onDisplayOptionChange (host : Host) (o : DisplayOption)
    (checked : bool) (p : Page) : Page :=
  saveFilterState
    (applyFilters host (withFilters (setOption o checked (activeFilters p)) p)).

(** [resetFilters()] *)
Definition resetFilters (host : Host) (p : Page) : Page :=
  match cytoscape p with
  | None => p
  | Some _ =>
      let f := activeFilters p in
      let f' :=
        {| departments := fold_left setAdd (checkboxes p) (departments f);
           yearMin := sliderMin p; yearMax := sliderMax p; searchQuery := "";
           showCyclesOnly := false; showLabels := false; showIsolated := true |} in
      let p' := applyFilters host (withFilters f' p) in
      withStorage (delete "filterState" (localStorage p')) p'
  end.

(** The changes of the filter state that the controls can make. *)
Inductive Change :=
| DepartmentChange (dept : string) (checked : bool)
| YearChange (moved : Slider) (lo hi : Z)
| SearchInput (value : string)
| ClearSearch
| DisplayChange (o : DisplayOption) (checked : bool)
| ResetFilters.

Definition handle (host : Host) (c : Change) (p : Page) : Page :=
  match c with
  | DepartmentChange d b => onDepartmentFilterChange host d b p
  | YearChange m lo hi => onYearFilterChange host m lo hi p
  | SearchInput v => onSearchInput host v p
  | ClearSearch => clearSearch host p
  | DisplayChange o b => onDisplayOptionChange host o b p
  | ResetFilters => resetFilters host p
  end.

(** The names of the fields of a persisted record. *)
Definition fieldNames (j : Json) : list string :=
  match j with
  | JObj fields => map fst fields
  | _ => []
  end.

(** *** Initialization and restoring *)

(** The loop of [initializeYearFilters]: the least and the greatest year of
    the nodes that have one, starting from 3000 and 1000. *)
Definition yearBounds (nodes : list (CyNode * Classes)) : Z * Z :=
  fold_left
    (fun b nc =>
       match year nc.1 with
       | Some y =>
           if negb (y =? 0)%Z then (Z.min b.1 y, Z.max b.2 y) else b
       | None => b
       end)
    nodes (3000%Z, 1000%Z).

(** [initializeYearFilters()] *)
Definition initializeYearFilters (p : Page) : Page :=
  match cytoscape p with
  | None => p
  | Some cy =>
      let b := yearBounds (cy_nodes cy) in
      let minYear := if (b.1 =? 3000)%Z then 2000%Z else b.1 in
      let maxYear := if (b.2 =? 1000)%Z then 2025%Z else b.2 in
      {| activeFilters := setYears minYear maxYear (activeFilters p);
         cytoscape := cytoscape p; checkboxes := checkboxes p;
         sliderMin := minYear; sliderMax := maxYear;
         localStorage := localStorage p |}
  end.

End Filters.

(** * Example data *)

Module Examples.
Import Js DataLoader GraphBuilder CycleDetector Filters.

(** The case conversion of the characters below U+0100: the letters A to Z
    and U+00C0 to U+00DE, the multiplication sign U+00D7 apart, have their
    lower-case form 32 places on. *)
Definition lowerLatin (c : N) : N :=
  if isUpper c || between 192 214 c || between 216 222 c then (c + 32)%N else c.

(** A host for the examples, whose strings have no letters from U+0100
    on: on such strings its case conversion is that of every engine. *)
Definition host0 : Host :=
  {| toLowerCase := map lowerLatin;
     decimal := fun _ => "0.5"; base36 := fun _ => "k3j2h1g0f" |}.

Definition circularWith (ID title date : string) (refs : list Ref) : Circular :=
  {| c_ID := ID; c_title := title; c_date := date; c_url := "";
     c_content := []; c_references := Some refs |}.

Definition refTo (title : string) : Ref := MkRef "circular" title "" None.

(** One main file of the department BPRD with the given circulars. *)
Definition mainFileOf (cs : list Circular) : LoadedData :=
  {| mainFiles :=
       [{| GraphBuilder.department := "BPRD";
           years := Some [("2010", {| circulars := map Some cs;
                                      circular_letters := [] |})] |}];
     cache := None |}.

(** Two circulars whose ids normalize to the same key, and a third one
    that refers to that key. *)
Definition collisionData : LoadedData :=
  mainFileOf
    [circularWith "Circular No. 01" "First" "May 3, 2010" [];
     circularWith "Circular No. 1" "Second" "May 4, 2010" [];
     circularWith "Circular No. 5" "Third" "June 1, 2010" [refTo "Circular No. 1"]].

Definition collisionNodeMap : list (string * Node) :=
  default [] (deduplicateNodes (nodes (extractAll host0 collisionData))).

(** The same circular as a main file and as the cache describe it. *)
Definition fromMain : Node :=
  {| n_id := "BPRD Circular No. 1"; n_label := "BPRD Circular No. 1";
     n_title := "Prudential Regulations"; n_date := Some "March 05, 2014";
     n_year := Some 2014%Z; n_department := "BPRD";
     n_url := "https://www.sbp.org.pk/bprd/2014/C1.htm";
     n_content := Some []; n_type := circular; n_refCount := 0;
     n_fromCache := false |}.

Definition fromCacheFile : Node :=
  {| n_id := "BPRD Circular No. 1"; n_label := "BPRD Circular No. 1";
     n_title := "BPRD Circular No. 1"; n_date := Some ""; n_year := None;
     n_department := "BPRD"; n_url := "";
     n_content := Some [Block "cached text"]; n_type := circular;
     n_refCount := 0; n_fromCache := true |}.

(** An authoritative record of the same circular with nothing but its id. *)
Definition sparse : Node :=
  {| n_id := "BPRD Circular No. 1"; n_label := "BPRD Circular No. 1";
     n_title := ""; n_date := Some ""; n_year := None; n_department := "BPRD";
     n_url := ""; n_content := Some []; n_type := circular; n_refCount := 0;
     n_fromCache := false |}.

(** Two circulars whose ids differ in the space after "No.", which is a
    space in the first and a no-break space U+00A0 in the second, and a
    third one that refers to the first. *)
Definition spacedData : LoadedData :=
  mainFileOf
    [circularWith "Circular No. 5" "First" "May 3, 2010" [];
     circularWith "Circular No. 5" "Second" "May 4, 2010" [];
     circularWith "Circular No. 9" "Third" "June 1, 2010" [refTo "Circular No. 5"]].

(** Three circulars: A and B refer to each other, A refers to C and C
    refers to B. *)
Definition triangleData : LoadedData :=
  mainFileOf
    [circularWith "A" "First" "May 3, 2010" [refTo "B"; refTo "C"];
     circularWith "B" "Second" "May 4, 2010" [refTo "A"];
     circularWith "C" "Third" "May 5, 2010" [refTo "B"]].

(** A circular dated with the zero date that refers to a dated one. *)
Definition zeroDateData : LoadedData :=
  mainFileOf
    [circularWith "Circular No. 2" "Undated" "0000-00-00" [refTo "Circular No. 3"];
     circularWith "Circular No. 3" "Dated" "May 4, 2010" []].

(** The graph of [zeroDateData] as the viewer holds it. *)
Definition undated : CyNode :=
  {| id := "Circular No. 2"; label := "Circular No. 2"; title := "Undated";
     date := Some "0000-00-00"; year := Some 0%Z; dept := "BPRD";
     departmentColor := Hex "#6699ff"; url := ""; content := Some [];
     type := circular; refCount := 0; fromCache := false; inCycle := false;
     cycleIds := [] |}.

Definition dated : CyNode :=
  {| id := "Circular No. 3"; label := "Circular No. 3"; title := "Dated";
     date := Some "May 4, 2010"; year := Some 2010%Z; dept := "BPRD";
     departmentColor := Hex "#6699ff"; url := ""; content := Some [];
     type := circular; refCount := 1; fromCache := false; inCycle := false;
     cycleIds := [] |}.

Definition link : CyEdge :=
  {| edge_id := "edge_Circular No. 2_Circular No. 3_0";
     source := "Circular No. 2"; target := "Circular No. 3";
     refType := circular; refTitle := "Circular No. 3"; refUrl := "";
     isCycleEdge := false; edge_cycleIds := [] |}.

Definition viewer : Cy :=
  {| cy_nodes := [(undated, noClass); (dated, noClass)];
     cy_edges := [(link, noClass)];
     labelled := false |}.

(** The filter state that allows the departments [depts], shows the years
    2000 to 2025 and searches for [q]. *)
Definition allowing (depts : list string) (q : string) : FilterState :=
  {| departments := depts; yearMin := 2000; yearMax := 2025; searchQuery := q;
     showCyclesOnly := false; showLabels := false; showIsolated := true |}.

Definition page0 : Page :=
  {| activeFilters := allowing ["BPRD"] "";
     cytoscape := Some viewer;
     checkboxes := ["BPRD"]; sliderMin := 2000; sliderMax := 2025;
     localStorage := ∅ |}.

(** A circular that refers to a pdf and to a circular that is nowhere
    among the sources. *)
Definition annexData : LoadedData :=
  mainFileOf
    [circularWith "Circular No. 7" "Seventh" "May 3, 2010"
       [MkRef "pdf" "Annexure" "https://www.sbp.org.pk/a.pdf" None;
        refTo "Circular No. 99"]].

Definition annexEdge : Edge :=
  {| e_source := "Circular No. 7"; e_target := "https://www.sbp.org.pk/a.pdf";
     e_refType := pdf; e_refTitle := "Annexure";
     e_refUrl := "https://www.sbp.org.pk/a.pdf" |}.

Definition lostEdge : Edge :=
  {| e_source := "Circular No. 7"; e_target := "circular no 99";
     e_refType := circular; e_refTitle := "Circular No. 99"; e_refUrl := "" |}.

(** A node and an edge of a graph as the viewer holds it before the cycles
    are marked. *)
Definition plainNode (i : string) : CyNode :=
  {| id := i; label := i; title := i; date := Some ""; year := None;
     dept := "BPRD"; departmentColor := Hex "#6699ff"; url := "";
     content := Some []; type := circular; refCount := 0; fromCache := false;
     inCycle := false; cycleIds := [] |}.

Definition plainEdge (s t : string) (k : nat) : CyEdge :=
  {| edge_id := edgeId s t k; source := s; target := t; refType := circular;
     refTitle := t; refUrl := ""; isCycleEdge := false; edge_cycleIds := [] |}.

(** A and B refer to each other, and B refers to C. *)
Definition ringNodes : list CyNode := [plainNode "A"; plainNode "B"; plainNode "C"].

Definition ringEdges : list CyEdge :=
  [plainEdge "A" "B" 0; plainEdge "B" "A" 1; plainEdge "B" "C" 2].

End Examples.

(** * What the properties are stated with *)

Module Spec.
Import Js DataLoader GraphBuilder CycleDetector Filters.

(** ** Normalized titles *)

(** [softer pw u v]: [v] comes from [u] by turning characters that are not
    word characters into spaces, by dropping such characters after a
    character that is not a word character, and by dropping a tail of
    them; [pw] tells whether a word character precedes. *)
Inductive softer : bool -> string -> string -> Prop :=
| softer_nil pw : softer pw [] []
| softer_keep pw c u v :
    softer (isWord c) u v -> softer pw (c :: u) (c :: v)
| softer_blank pw c u v :
    isWord c = false -> softer false u v -> softer pw (c :: u) (32%N :: v)
| softer_drop c u v :
    isWord c = false -> softer false u v -> softer false (c :: u) v
| softer_tail pw u :
    Forall (fun c => isWord c = false) u -> softer pw u [].

(** No zero at a word boundary is followed by a digit. *)
Fixpoint zeroFree (pw : bool) (u : string) : bool :=
  match u with
  | [] => true
  | c :: r =>
      (if negb pw && isZero c
       then match r with d :: _ => negb (isDigit d) | [] => true end
       else true)
      && zeroFree (isWord c) r
  end.

(** No match of [/no\./i] starts anywhere. *)
Fixpoint noDotFree (u : string) : bool :=
  match u with
  | [] => true
  | _ :: r => negb (startsNoDot u) && noDotFree r
  end.

(** White space is single spaces only, none right after [prevWs]. *)
Fixpoint tidy (prevWs : bool) (u : string) : bool :=
  match u with
  | [] => true
  | c :: r =>
      if isSpace c then (c =? 32)%N && negb prevWs && tidy true r
      else tidy false r
  end.

(** The properties of a normalized title. *)
Record normal (host : Host) (u : string) : Prop := {
  normal_lowered : toLowerCase host u = u;
  normal_zeroFree : zeroFree false u = true;
  normal_noDotFree : noDotFree u = true;
  normal_tidy : tidy false u = true;
  normal_trimmed : trim u = u
}.

(** *** Code points and the case conversion *)

(** The two halves of the code units U+D800 to U+DFFF. *)
Definition isHigh (c : N) : bool := between 55296 56319 c.
Definition isLow (c : N) : bool := between 56320 57343 c.

(** The code points of a string: a high surrogate and the low surrogate
    that follows it stand for one code point from U+10000 on, every other
    code unit for itself. *)
Fixpoint codePoints (s : string) : list N :=
  match s with
  | [] => []
  | c :: r =>
      match r with
      | d :: r' =>
          if isHigh c && isLow d
          then (65536 + (c - 55296) * 1024 + (d - 56320))%N :: codePoints r'
          else c :: codePoints r
      | [] => [c]
      end
  end.

(** Every code point of [s] is one of [stable]. *)
Definition stableText (stable : N -> bool) (s : string) : Prop :=
  Forall (fun p => stable p = true) (codePoints s).

(** What the normalization takes from the case conversion of the host.
    The conversion goes code point by code point: converting once more
    changes nothing, a string is left as it is exactly when each of its
    code points is one that the conversion leaves alone, and among the
    ASCII characters these are all but the capital letters. *)
Definition caseByCodePoint (lower : string -> string) : Prop :=
  exists stable : N -> bool,
    (forall s, lower s = s <-> stableText stable s)
    /\ (forall s, lower (lower s) = lower s)
    /\ (forall c, (c < 128)%N -> stable c = negb (isUpper c)).

Definition startsLow (s : string) : bool :=
  match s with d :: _ => isLow d | [] => false end.

(** [edit ph u v]: [v] comes from [u] by putting ASCII characters other
    than capital letters in the place of code units that are no
    surrogates, and by dropping such code units; where a high surrogate
    may precede ([ph]), none is dropped in front of a low surrogate. *)
Inductive edit : bool -> string -> string -> Prop :=
| edit_nil ph : edit ph [] []
| edit_keep ph c u v : edit (isHigh c) u v -> edit ph (c :: u) (c :: v)
| edit_put ph c d u v :
    isHigh c = false -> isLow c = false ->
    (d < 128)%N -> isUpper d = false ->
    edit false u v -> edit ph (c :: u) (d :: v)
| edit_drop ph c u v :
    isHigh c = false -> isLow c = false ->
    (ph = true -> startsLow v = false) ->
    edit ph u v -> edit ph (c :: u) v.

(** ** The graph builder *)

(** An edge is an orphan when its source is not a node, or when its target
    is neither a node nor a key of the table that leads to a node. *)
Definition orphan (nodeMap : list (string * Node)) (table : gmap string string)
    (e : Edge) : bool :=
  negb (OMap.has nodeMap (e_source e))
  || (negb (OMap.has nodeMap (e_target e))
      && match table !! e_target e with
         | Some nodeId => negb (OMap.has nodeMap nodeId)
         | None => true
         end).

Definition endpointsIn (nodeMap : list (string * Node)) (e : ValidEdge) : Prop :=
  v_source e ∈ OMap.keys nodeMap /\ v_target e ∈ OMap.keys nodeMap.

(** The ids registered in the normalized-title table, in the order of
    their registration: those of the circular nodes. *)
Definition registered (a : Acc) : list string :=
  map n_id (filter (fun n => Kind_eqb (n_type n) circular = true) (nodes a)).

(** The ids among [ids] that normalize to [key]. *)
Definition candidates (host : Host) (key : string) (ids : list string)
  : list string :=
  filter (fun i => normalizeTitle host i = key) ids.

Definition attachment (n : Node) : Prop :=
  Kind_eqb (n_type n) circular = false /\ n_refCount n = 0.

(** [a'] comes from [a] by adding edges and pdf or web nodes only. *)
Definition attachOnly (a a' : Acc) : Prop :=
  nodeIdToNormalizedId a' = nodeIdToNormalizedId a
  /\ exists ns, nodes a' = nodes a ++ ns /\ Forall attachment ns.

Record extracted (host : Host) (a : Acc) : Prop := {
  extracted_table : forall key,
    nodeIdToNormalizedId a !! key = last (candidates host key (registered a));
  extracted_counts : Forall (fun n => n_refCount n = 0) (nodes a)
}.

(** What "empty fields of the kept record are backfilled from the other
    record" asks of one field. *)
Definition backfill {A} (nonEmpty : A -> bool) (kept other : A) : A :=
  if nonEmpty kept then kept else if nonEmpty other then other else kept.

Definition nonEmptyContent (c : option (list ContentBlock)) : bool :=
  match c with Some (_ :: _) => true | _ => false end.

(** The kept record with its empty fields backfilled from the other. *)
Definition backfilled (kept other : Node) : Node :=
  {| n_id := n_id kept; n_label := n_label kept;
     n_title := backfill truthy (n_title kept) (n_title other);
     n_date := backfill truthyDate (n_date kept) (n_date other);
     n_year := backfill truthyYear (n_year kept) (n_year other);
     n_department := n_department kept;
     n_url := backfill truthy (n_url kept) (n_url other);
     n_content := backfill nonEmptyContent (n_content kept) (n_content other);
     n_type := n_type kept; n_refCount := n_refCount kept;
     n_fromCache := n_fromCache kept |}.

(** A map of nodes as [deduplicateNodes] builds it from nodes without
    reference counts. *)
Record deduped (m : list (string * Node)) : Prop := {
  deduped_keys : NoDup (OMap.keys m);
  deduped_nodes : Forall (fun kv => n_id kv.2 = kv.1 /\ n_refCount kv.2 = 0) m
}.

(** The in-degree of [nodeId] in the validated edge set. *)
Definition inDegree (nodeId : string) (edges : list ValidEdge) : nat :=
  length (filter (fun e => v_target e = nodeId) edges).

(** ** Cycles *)

(** The graph has an edge of type [circular] from [s] to [t] with id [i]. *)
Definition circularEdge (edges : list CyEdge) (s t i : string) : Prop :=
  exists e, e ∈ edges /\ refType e = circular /\ source e = s /\ target e = t
            /\ edge_id e = i.

(** The edges [es] lead from [v] through the nodes [vs], one after the
    other. *)
Fixpoint walk (edges : list CyEdge) (v : string) (vs es : list string) : Prop :=
  match vs, es with
  | [], [] => True
  | v' :: vs', e :: es' => circularEdge edges v v' e /\ walk edges v' vs' es'
  | _, _ => False
  end.

(** The node sequence [ns] with the edge sequence [es] is a closed path:
    each edge leads to the next node and the last one back to the first. *)
Definition closedPath (edges : list CyEdge) (ns es : list string) : Prop :=
  match ns with
  | [] => False
  | v :: rest => walk edges v (rest ++ [v]) es
  end.

Definition genuine (edges : list CyEdge) (c : Cycle) : Prop :=
  closedPath edges (cycle_nodes c) (cycle_edges c)
  /\ cycle_length c = length (cycle_nodes c).

Definition sound (edges : list CyEdge) (st : Search) : Prop :=
  Forall (genuine edges) (cycles st).

(** Every entry of an adjacency list is an edge of the graph. *)
Definition adjacent (edges : list CyEdge)
    (adjList : gmap string (list Neighbor)) : Prop :=
  forall s l nb, adjList !! s = Some l -> nb ∈ l ->
    circularEdge edges s (nb_target nb) (nb_edgeId nb).

(** The ids that [dfs] can be called on. *)
Definition universe (nodes : list CyNode) (edges : list CyEdge) : gset string :=
  list_to_set (map id nodes) ∪ list_to_set (map target edges).

(** [descend] returns on every unvisited node of [U] as long as at most
    [n] nodes of [U] are unvisited, and it visits nodes of [U] only. *)
Definition returns (U : gset string) (n : nat)
    (descend : string -> list string -> list string -> Search -> option Search)
  : Prop :=
  forall t path ep st,
    t ∈ U -> t ∉ visited st -> visited st ⊆ U -> size (U ∖ visited st) <= n ->
    exists st', descend t path ep st = Some st'
                /\ visited st ⊆ visited st' /\ visited st' ⊆ U.

(** ** Filters *)

Definition departmentExcluded (f : FilterState) (n : CyNode) : Prop :=
  dept n ∉ departments f.

(** The node has a year and it lies outside [yearMin, yearMax]. *)
Definition yearOutOfRange (f : FilterState) (n : CyNode) : Prop :=
  exists y, year n = Some y /\ (y < yearMin f \/ yearMax f < y)%Z.

(** The same for a year that is not zero. *)
Definition nonZeroYearOutOfRange (f : FilterState) (n : CyNode) : Prop :=
  exists y, year n = Some y /\ y <> 0%Z /\ (y < yearMin f \/ yearMax f < y)%Z.

Definition cyclesOnlyExcluded (f : FilterState) (n : CyNode) : Prop :=
  showCyclesOnly f = true /\ inCycle n = false.

Definition isolatedExcluded (f : FilterState) (edges : list (CyEdge * Classes))
    (n : CyNode) : Prop :=
  showIsolated f = false /\ degree edges (id n) = 0.

(** [hay] contains [needle], letter case apart. *)
Definition containsCI (host : Host) (hay needle : string) : bool :=
  includes (toLowerCase host hay) (toLowerCase host needle).

(** The classes of a node after all the passes of [applyFilters]. *)
Definition classesOf (host : Host) (f : FilterState)
    (edges : list (CyEdge * Classes)) (n : CyNode) : Classes :=
  byIsolated f edges n
    (byCycles f n (bySearch host f n (byYear f n (byDepartment f n noClass)))).

Definition sixFields : list string :=
  ["departments"; "yearMin"; "yearMax"; "showCyclesOnly"; "showLabels";
   "showIsolated"].

Definition lowercaseQuery (host : Host) (p : Page) : Prop :=
  toLowerCase host (searchQuery (activeFilters p))
  = searchQuery (activeFilters p).

(** ** Further notions for the graph builder *)

(** The reference with everything below [k] further levels of nested
    references cut off. *)
Fixpoint pruneRef (k : nat) (r : Ref) {struct k} : Ref :=
  MkRef (ref_type r) (ref_title r) (ref_url r)
    match k with
    | 0 => None
    | S k' => map (pruneRef k') <$> ref_nested r
    end.

(** A string is noted when it is seen for the first time. *)
Definition noteFirst (seen : list string) (x : string) : list string :=
  if bool_decide (x ∈ seen) then seen else seen ++ [x].

(** The elements of a list in the order of their first occurrence. *)
Definition firstOccurrences (l : list string) : list string :=
  fold_left noteFirst l [].

(** No id is shared by a node without a content field and a node with a
    content that is not empty. *)
Definition contentCompatible (nodes : list Node) : Prop :=
  forall n n', n ∈ nodes -> n' ∈ nodes -> n_id n = n_id n' ->
    nonEmptyContent (n_content n) = true -> n_content n' <> None.

(** What extraction guarantees of an edge, for the node ids [ids]: it
    starts at one of them and its target is not empty; the target of a
    reference to a circular is the normalized title of the reference, the
    target of a pdf or web reference is one of the ids. *)
Definition edgeWellFormed (host : Host) (ids : list string) (e : Edge) : Prop :=
  e_source e ∈ ids
  /\ e_target e <> []
  /\ match e_refType e with
     | circular => e_target e = normalizeTitle host (e_refTitle e)
     | pdf | web => e_target e ∈ ids
     end.

(** The edges extracted so far are well formed for the nodes extracted so
    far. *)
Definition wellFormed (host : Host) (a : Acc) : Prop :=
  Forall (edgeWellFormed host (map n_id (nodes a))) (edges a).

(** No node has [target] as its id, and the id of no circular node
    normalizes to [target]. *)
Definition unresolvable (host : Host) (nodes : list Node) (target : string) : Prop :=
  (forall n, n ∈ nodes -> n_id n <> target)
  /\ (forall n, n ∈ nodes -> n_type n = circular ->
        normalizeTitle host (n_id n) <> target).

(** What validation leaves of an edge apart from its target. *)
Definition edgeData (e : Edge) : string * Kind * string * string :=
  (e_source e, e_refType e, e_refTitle e, e_refUrl e).

Definition validEdgeData (e : ValidEdge) : string * Kind * string * string :=
  (v_source e, v_refType e, v_refTitle e, v_refUrl e).

(** ** Further notions for the cycles *)

(** The entries that the circular-type edges leaving [s] put on its
    adjacency list, in the order of the edges. *)
Definition outgoing (edges : list CyEdge) (s : string) : list Neighbor :=
  map (fun e => {| nb_target := target e; nb_edgeId := edge_id e |})
    (filter (fun e => Kind_eqb (refType e) circular = true /\ source e = s) edges).

(** The sets of marked nodes and edges hold what the recorded cycles hold. *)
Definition tallied (st : Search) : Prop :=
  (forall x, x ∈ nodesInCycles st
             <-> exists c, c ∈ cycles st /\ x ∈ cycle_nodes c)
  /\ (forall x, x ∈ edgesInCycles st
                <-> exists c, c ∈ cycles st /\ x ∈ cycle_edges c).

(** No recorded cycle passes through a node twice. *)
Definition simple (st : Search) : Prop :=
  Forall (fun c => NoDup (cycle_nodes c)) (cycles st).

(** The edges that leave a node of the graph. *)
Definition among (nodes : list CyNode) (edges : list CyEdge) : list CyEdge :=
  filter (fun e => source e ∈ map id nodes) edges.

(** [t] is the target of an entry of the adjacency list of [u]. *)
Definition successor (adjList : gmap string (list Neighbor)) (u t : string)
  : Prop :=
  exists nb, nb ∈ default [] (adjList !! u) /\ nb_target nb = t.

(** Every path that follows the adjacency lists from [u] comes to an end. *)
Definition settled (adjList : gmap string (list Neighbor)) (u : string) : Prop :=
  Wf.Acc (fun t u => successor adjList u t) u.

(** The recursion stack holds the nodes of [path], each once, and they are
    visited. *)
Definition onStack (path : list string) (st : Search) : Prop :=
  NoDup path
  /\ (forall x, x ∈ recursionStack st <-> x ∈ path)
  /\ (forall x, x ∈ recursionStack st -> x ∈ visited st).

(** As long as no cycle is recorded, no path from a node that the search
    has left goes on for ever. *)
Definition finished (adjList : gmap string (list Neighbor)) (st : Search)
  : Prop :=
  cycles st = [] ->
  forall u, u ∈ visited st -> u ∉ recursionStack st -> settled adjList u.

(** What a call of [dfs] that starts in [st] and returns [st'] keeps. *)
Definition explored (adjList : gmap string (list Neighbor)) (st st' : Search)
  : Prop :=
  recursionStack st' = recursionStack st
  /\ visited st ⊆ visited st'
  /\ finished adjList st'
  /\ simple st'
  /\ (cycles st' = [] -> cycles st = []).

End Spec.

(** * Properties *)

Import Js DataLoader GraphBuilder CycleDetector Filters Spec Examples.

(** ** Character classes *)

Lemma between_spec lo hi c : between lo hi c = true <-> (lo <= c <= hi)%N.
Proof. unfold between. rewrite andb_true_iff, !N.leb_le. tauto. Qed.

Lemma isDigit_spec c : isDigit c = true <-> (48 <= c <= 57)%N.
Proof. apply between_spec. Qed.

Lemma isUpper_spec c : isUpper c = true <-> (65 <= c <= 90)%N.
Proof. apply between_spec. Qed.

Lemma isWord_spec c :
  isWord c = true
  <-> (48 <= c <= 57 \/ 65 <= c <= 90 \/ 97 <= c <= 122 \/ c = 95)%N.
Proof.
  unfold isWord. rewrite !orb_true_iff, isDigit_spec, isUpper_spec, between_spec,
    N.eqb_eq. tauto.
Qed.

Lemma isSpace_spec c :
  isSpace c = true
  <-> (9 <= c <= 13 \/ c = 32 \/ c = 160 \/ c = 5760 \/ 8192 <= c <= 8202
       \/ c = 8232 \/ c = 8233 \/ c = 8239 \/ c = 8287 \/ c = 12288
       \/ c = 65279)%N.
Proof.
  unfold isSpace. rewrite !orb_true_iff, !between_spec, !N.eqb_eq. tauto.
Qed.

Lemma isZero_spec c : isZero c = true <-> c = 48%N.
Proof. apply N.eqb_eq. Qed.

Lemma isN_spec c : isN c = true <-> (c = 110 \/ c = 78)%N.
Proof. unfold isN. rewrite orb_true_iff, !N.eqb_eq. tauto. Qed.

Lemma isO_spec c : isO c = true <-> (c = 111 \/ c = 79)%N.
Proof. unfold isO. rewrite orb_true_iff, !N.eqb_eq. tauto. Qed.

Lemma isDot_spec c : isDot c = true <-> c = 46%N.
Proof. apply N.eqb_eq. Qed.

Lemma isHigh_spec c : isHigh c = true <-> (55296 <= c <= 56319)%N.
Proof. apply between_spec. Qed.

Lemma isLow_spec c : isLow c = true <-> (56320 <= c <= 57343)%N.
Proof. apply between_spec. Qed.

(** Goals about the classes of a character become linear arithmetic. *)
Ltac classes :=
  repeat match goal with
  | H : _ = false |- _ => apply not_true_iff_false in H
  | |- _ = false => apply not_true_iff_false; intro
  end;
  rewrite ?isDigit_spec, ?isUpper_spec, ?isWord_spec, ?isSpace_spec,
    ?isZero_spec, ?isN_spec, ?isO_spec, ?isDot_spec, ?isHigh_spec,
    ?isLow_spec in *;
  lia.

Lemma isDigit_isWord c : isDigit c = true -> isWord c = true.
Proof. intros. classes. Qed.

Lemma isSpace_not_word c : isSpace c = true -> isWord c = false.
Proof. intros. classes. Qed.

Lemma isN_isWord c : isN c = true -> isWord c = true.
Proof. intros. classes. Qed.

Lemma isO_isWord c : isO c = true -> isWord c = true.
Proof. intros. classes. Qed.

Lemma isDot_not_word c : isDot c = true -> isWord c = false.
Proof. intros. classes. Qed.

Lemma isSpace_solo c : isSpace c = true -> isHigh c = false /\ isLow c = false.
Proof. intros. split; classes. Qed.

Lemma isWord_solo c : isWord c = true -> isHigh c = false /\ isLow c = false.
Proof. intros. split; classes. Qed.

(** ** Title normalization *)

(** *** Removing leading zeros *)

Lemma stripZeros_zeroFree s :
  (forall pw, zeroFree pw (stripZerosFrom (ZText pw) s) = true)
  /\ zeroFree false (stripZerosFrom ZRun s) = true.
Proof.
  induction s as [|c r [IHt IHr]]; [split; [intros []|]; reflexivity|].
  split.
  - intros pw. simpl. destruct (negb pw && isZero c) eqn:E.
    + destruct pw; [discriminate|]. exact IHr.
    + simpl. rewrite E. apply IHt.
  - simpl. destruct (isZero c) eqn:E0; [exact IHr|].
    destruct (isDigit c) eqn:Ed.
    + simpl. rewrite E0. rewrite (isDigit_isWord _ Ed). apply IHt.
    + simpl. rewrite Ed. simpl. apply IHt.
Qed.

Lemma zeroFree_fixed u : forall pw,
  zeroFree pw u = true -> stripZerosFrom (ZText pw) u = u.
Proof.
  induction u as [|c r IH]; intros pw H; [reflexivity|].
  simpl in H. apply andb_true_iff in H as [Hc Hr].
  simpl. destruct (negb pw && isZero c) eqn:E.
  - apply andb_true_iff in E as [_ E0].
    apply isZero_spec in E0. subst c.
    destruct r as [|d r']; [reflexivity|].
    specialize (IH _ Hr). simpl in IH. simpl.
    apply negb_true_iff in Hc.
    destruct (isZero d) eqn:Ed0.
    { apply isZero_spec in Ed0. subst d. discriminate. }
    rewrite Hc. simpl in IH. injection IH as IH. by rewrite IH.
  - f_equal. by apply IH.
Qed.

Lemma softer_zeroFree pw u v :
  softer pw u v -> zeroFree pw u = true -> zeroFree pw v = true.
Proof.
  induction 1 as [pw|pw c u v Hs IH|pw c u v Hc Hs IH|c u v Hc Hs IH|pw u Hu];
    intros Hz; try reflexivity.
  - simpl in *. apply andb_true_iff in Hz as [Hh Hr].
    rewrite (IH Hr), andb_true_r.
    destruct (negb pw && isZero c) eqn:E; [|reflexivity].
    apply andb_true_iff in E as [_ E0]. apply isZero_spec in E0. subst c.
    inversion Hs; subst; try reflexivity; try assumption.
  - simpl in *. apply andb_true_iff in Hz as [_ Hr].
    rewrite Hc in Hr. rewrite andb_false_r. simpl.
    change (isWord 32) with false. by apply IH.
  - simpl in Hz. apply andb_true_iff in Hz as [_ Hr].
    rewrite Hc in Hr. by apply IH.
Qed.

(** *** Induction following the three-character look-ahead *)

Lemma list_ind3 {A} (P : list A -> Prop) :
  P [] ->
  (forall c r, P r -> (forall o d r2, r = o :: d :: r2 -> P r2) -> P (c :: r)) ->
  forall l, P l.
Proof.
  intros Hnil Hcons l.
  assert (H : forall n (l : list A), length l <= n -> P l).
  { induction n as [|n IH]; intros [|c r] Hl; simpl in Hl; try exact Hnil; [lia|].
    apply Hcons; [apply IH; lia|].
    intros o d r2 ->. apply IH. simpl in Hl. lia. }
  by apply (H (length l)).
Qed.

(** *** Standardizing "no." *)

Lemma startsNoDot_head c l : isN c = false -> startsNoDot (c :: l) = false.
Proof. intros H. destruct l as [|o [|d l]]; simpl; by rewrite ?H. Qed.

Lemma startsNoDot_second c o l : isO o = false -> startsNoDot (c :: o :: l) = false.
Proof. intros H. destruct l as [|d l]; simpl; by rewrite ?H, ?andb_false_r. Qed.

Lemma startsNoDot_third c o d l :
  isDot d = false -> startsNoDot (c :: o :: d :: l) = false.
Proof. intros H. simpl. by rewrite H, andb_false_r. Qed.

Lemma standardizeNo_cons c r :
  standardizeNoFrom false (c :: r)
  = if startsNoDot (c :: r)
    then "no " ++ standardizeNoFrom true (drop 2 r)
    else c :: standardizeNoFrom false r.
Proof. destruct r as [|o [|d r2]]; reflexivity. Qed.

Lemma standardizeNo_keeps_clear c r :
  startsNoDot (c :: r) = false ->
  startsNoDot (c :: standardizeNoFrom false r) = false.
Proof.
  intros Hs.
  destruct (isN c) eqn:En; [|by apply startsNoDot_head].
  destruct r as [|o r1]; [reflexivity|].
  rewrite standardizeNo_cons.
  destruct (startsNoDot (o :: r1)); [by apply startsNoDot_second|].
  destruct (isO o) eqn:Eo; [|by apply startsNoDot_second].
  destruct r1 as [|d r2]; [reflexivity|].
  assert (Hd : isDot d = false).
  { simpl in Hs. by rewrite En, Eo in Hs. }
  rewrite standardizeNo_cons.
  destruct (startsNoDot (d :: r2)); by apply startsNoDot_third.
Qed.

Lemma standardizeNo_noDotFree s :
  forall skip, noDotFree (standardizeNoFrom skip s) = true.
Proof.
  induction s as [|c r IHr IH3] using list_ind3; intros skip; [reflexivity|].
  assert (Hfalse : noDotFree (standardizeNoFrom false (c :: r)) = true).
  { rewrite standardizeNo_cons. destruct (startsNoDot (c :: r)) eqn:Es.
    - destruct r as [|o [|d r2]]; try discriminate.
      change (drop 2 (o :: d :: r2)) with r2.
      change ("no " ++ standardizeNoFrom true r2)
        with (110%N :: 111%N :: 32%N :: standardizeNoFrom true r2).
      cbn [noDotFree]. rewrite (IH3 _ _ _ eq_refl true).
      rewrite startsNoDot_third by reflexivity.
      rewrite startsNoDot_second by reflexivity.
      by rewrite startsNoDot_head.
    - cbn [noDotFree]. rewrite IHr, andb_true_r.
      apply negb_true_iff. by apply standardizeNo_keeps_clear. }
  destruct skip; [|exact Hfalse].
  destruct (isSpace c) eqn:Ec.
  - simpl. rewrite Ec. apply IHr.
  - assert (standardizeNoFrom true (c :: r) = standardizeNoFrom false (c :: r)) as ->;
      [|exact Hfalse].
    simpl. by rewrite Ec.
Qed.

Lemma noDotFree_fixed u :
  noDotFree u = true -> standardizeNoFrom false u = u.
Proof.
  induction u as [|c r IH]; intros H; [reflexivity|].
  cbn [noDotFree] in H. apply andb_true_iff in H as [Hs Hr].
  apply negb_true_iff in Hs.
  rewrite standardizeNo_cons, Hs. f_equal. by apply IH.
Qed.

Lemma softer_noDotFree pw u v :
  softer pw u v -> noDotFree u = true -> noDotFree v = true.
Proof.
  induction 1 as [pw|pw c u v Hs IH|pw c u v Hc Hs IH|c u v Hc Hs IH|pw u Hu];
    intros Hz; try reflexivity.
  - cbn [noDotFree] in *. apply andb_true_iff in Hz as [Hh Hr].
    rewrite (IH Hr), andb_true_r. apply negb_true_iff in Hh. apply negb_true_iff.
    destruct (isN c) eqn:En; [|by apply startsNoDot_head].
    rewrite (isN_isWord _ En) in Hs.
    inversion Hs as [| ? o u1 v1 Hs1 | | |]; subst;
      try reflexivity; try (by apply startsNoDot_second).
    destruct (isO o) eqn:Eo; [|by apply startsNoDot_second].
    rewrite (isO_isWord _ Eo) in Hs1.
    inversion Hs1 as [| ? d u2 v2 Hs2 | | |]; subst;
      try reflexivity; try (by apply startsNoDot_third).
    exact Hh.
  - cbn [noDotFree] in *. apply andb_true_iff in Hz as [_ Hr].
    rewrite (IH Hr), startsNoDot_head; reflexivity.
  - cbn [noDotFree] in Hz. apply andb_true_iff in Hz as [_ Hr]. by apply IH.
Qed.

Lemma softer_refl u : forall pw, softer pw u u.
Proof. induction u; intros; constructor; auto. Qed.

(** *** Collapsing white space *)

Lemma collapse_tidy s : forall inWs, tidy inWs (collapseFrom inWs s) = true.
Proof.
  induction s as [|c r IH]; intros inWs; [reflexivity|].
  simpl. destruct (isSpace c) eqn:Ec.
  - destruct inWs; [apply IH|]. simpl. apply IH.
  - simpl. rewrite Ec. apply IH.
Qed.

Lemma tidy_fixed u : forall inWs, tidy inWs u = true -> collapseFrom inWs u = u.
Proof.
  induction u as [|c r IH]; intros inWs H; [reflexivity|].
  simpl in *. destruct (isSpace c) eqn:Ec.
  - apply andb_true_iff in H as [H Hr]. apply andb_true_iff in H as [Hc Hn].
    apply negb_true_iff in Hn. subst inWs.
    apply N.eqb_eq in Hc. subst c. f_equal. by apply IH.
  - f_equal. by apply IH.
Qed.

Lemma collapse_softer s :
  (forall pw, softer pw s (collapseFrom false s))
  /\ softer false s (collapseFrom true s).
Proof.
  induction s as [|c r [IHf IHt]]; [split; intros; constructor|].
  simpl. destruct (isSpace c) eqn:Ec.
  - pose proof (isSpace_not_word _ Ec) as Hw.
    split; [intros pw; by apply softer_blank|by apply softer_drop].
  - split; intros; apply softer_keep, IHf.
Qed.

(** *** Trimming *)

Lemma trimStart_softer s : softer false s (trimStart s).
Proof.
  induction s as [|c r IH]; [constructor|].
  simpl. destruct (isSpace c) eqn:Ec.
  - apply softer_drop; [by apply isSpace_not_word|exact IH].
  - apply softer_refl.
Qed.

Lemma trimEnd_nil s : trimEnd s = [] -> Forall (fun c => isSpace c = true) s.
Proof.
  induction s as [|c r IH]; [constructor|].
  simpl. destruct (trimEnd r) eqn:Er; [|discriminate].
  destruct (isSpace c) eqn:Ec; [|discriminate].
  intros _. constructor; [done|by apply IH].
Qed.

Lemma trimEnd_softer s : forall pw, softer pw s (trimEnd s).
Proof.
  induction s as [|c r IH]; intros pw; [constructor|].
  simpl. destruct (trimEnd r) as [|x r'] eqn:Er.
  - pose proof (trimEnd_nil _ Er) as Hr.
    assert (Hw : Forall (fun c => isWord c = false) r).
    { eapply Forall_impl; [exact Hr|]. apply isSpace_not_word. }
    destruct (isSpace c) eqn:Ec.
    + apply softer_tail. constructor; [by apply isSpace_not_word|exact Hw].
    + apply softer_keep. by apply softer_tail.
  - apply softer_keep. apply IH.
Qed.

Lemma trimEnd_idem s : trimEnd (trimEnd s) = trimEnd s.
Proof.
  induction s as [|c r IH]; [reflexivity|].
  simpl. destruct (trimEnd r) as [|x r'] eqn:Er.
  - destruct (isSpace c) eqn:Ec; [reflexivity|]. simpl. by rewrite Ec.
  - change (trimEnd (c :: x :: r')) with
      (match trimEnd (x :: r') with
       | [] => if isSpace c then [] else [c]
       | t => c :: t
       end).
    by rewrite IH.
Qed.

Lemma trimStart_head s :
  match trimStart s with [] => True | c :: _ => isSpace c = false end.
Proof.
  induction s as [|c r IH]; [done|]. simpl.
  destruct (isSpace c) eqn:Ec; [exact IH|exact Ec].
Qed.

Lemma trimStart_fixed c r : isSpace c = false -> trimStart (c :: r) = c :: r.
Proof. intros H. simpl. by rewrite H. Qed.

Lemma trimEnd_head c r :
  isSpace c = false -> exists t, trimEnd (c :: r) = c :: t.
Proof.
  intros H. simpl. rewrite H. destruct (trimEnd r); eauto.
Qed.

Lemma trim_idem s : trim (trim s) = trim s.
Proof.
  unfold trim. pose proof (trimStart_head s) as Hh.
  destruct (trimStart s) as [|c r]; [reflexivity|].
  destruct (trimEnd_head c r Hh) as [t Ht]. rewrite Ht.
  rewrite trimStart_fixed by done. rewrite <- Ht. apply trimEnd_idem.
Qed.

Lemma trimStart_tidy s : tidy false s = true -> tidy false (trimStart s) = true.
Proof.
  destruct s as [|c r]; [done|]. intros H. cbn [trimStart].
  destruct (isSpace c) eqn:Ec; [|exact H].
  cbn [tidy] in H. rewrite Ec in H. apply andb_true_iff in H as [_ H].
  destruct r as [|d r]; [done|]. cbn [trimStart]. cbn [tidy] in H.
  destruct (isSpace d) eqn:Ed; [by rewrite andb_false_r in H|].
  cbn [tidy]. by rewrite Ed.
Qed.

Lemma trimEnd_tidy s : forall b, tidy b s = true -> tidy b (trimEnd s) = true.
Proof.
  induction s as [|c r IH]; intros b H; [done|].
  simpl in *. destruct (isSpace c) eqn:Ec.
  - apply andb_true_iff in H as [Hc Hr].
    destruct (trimEnd r) as [|x r'] eqn:Er; [done|].
    cbn [tidy]. rewrite Ec, Hc. by apply IH.
  - destruct (trimEnd r) as [|x r'] eqn:Er.
    + simpl. by rewrite Ec.
    + cbn [tidy]. rewrite Ec. by apply IH.
Qed.

(** *** Code points *)

Lemma codePoints_cons c r :
  isHigh c = false -> codePoints (c :: r) = c :: codePoints r.
Proof. intros H. destruct r; simpl; by rewrite ?H. Qed.

Lemma codePoints_lone h r :
  startsLow r = false -> codePoints (h :: r) = h :: codePoints r.
Proof.
  destruct r as [|d r]; simpl; [done|]. intros ->. by rewrite andb_false_r.
Qed.

Lemma list_ind2 {A} (P : list A -> Prop) :
  P [] ->
  (forall c r, P r -> (forall d r', r = d :: r' -> P r') -> P (c :: r)) ->
  forall l, P l.
Proof.
  intros Hnil Hcons l.
  assert (H : forall n (l : list A), length l <= n -> P l).
  { induction n as [|n IH]; intros [|c r] Hl; simpl in Hl; try exact Hnil; [lia|].
    apply Hcons; [apply IH; lia|].
    intros d r' ->. apply IH. simpl in Hl. lia. }
  by apply (H (length l)).
Qed.

Section CaseConversion.
Variable stable : N -> bool.
Hypothesis stable_ascii : forall c, (c < 128)%N -> stable c = negb (isUpper c).

Lemma stableText_cons c r :
  isHigh c = false ->
  stableText stable (c :: r) <-> stable c = true /\ stableText stable r.
Proof.
  intros H. unfold stableText. rewrite codePoints_cons by done.
  by rewrite Forall_cons.
Qed.

Lemma stableText_lone h r :
  startsLow r = false ->
  stableText stable (h :: r) <-> stable h = true /\ stableText stable r.
Proof.
  intros H. unfold stableText. rewrite codePoints_lone by done.
  by rewrite Forall_cons.
Qed.

Lemma stableText_pair h d r :
  isHigh h = true -> isLow d = true ->
  stableText stable (h :: d :: r)
  <-> stable (65536 + (h - 55296) * 1024 + (d - 56320))%N = true
      /\ stableText stable r.
Proof.
  intros Hh Hd. unfold stableText. cbn [codePoints]. rewrite Hh, Hd.
  cbn [andb]. by rewrite Forall_cons.
Qed.

Lemma stable_plain d : (d < 128)%N -> isUpper d = false -> stable d = true.
Proof. intros Hd Hu. by rewrite stable_ascii, Hu. Qed.

Lemma edit_stable ph u v :
  edit ph u v ->
  (stableText stable u -> stableText stable v)
  /\ (ph = true -> forall h, isHigh h = true ->
        stableText stable (h :: u) -> stableText stable (h :: v)).
Proof.
  induction 1 as [ph|ph c u v _ [IH1 IH2]|ph c d u v Hc1 Hc2 Hd1 Hd2 _ [IH1 _]
                  |ph c u v Hc1 Hc2 Hsafe _ [IH1 _]].
  - done.
  - assert (Hkeep : stableText stable (c :: u) -> stableText stable (c :: v)).
    { destruct (isHigh c) eqn:Ec; [by apply IH2|].
      rewrite !stableText_cons by done. intros [? ?]. auto. }
    split; [exact Hkeep|]. intros _ h Hh. destruct (isLow c) eqn:El.
    + rewrite !stableText_pair by done. intros [? ?]. auto.
    + rewrite !(stableText_lone h) by done. intros [? ?]. auto.
  - assert (Hd3 : isHigh d = false) by classes.
    assert (Hd4 : isLow d = false) by classes.
    assert (Hput : stableText stable (c :: u) -> stableText stable (d :: v)).
    { rewrite !stableText_cons by done. intros [_ ?].
      split; [by apply stable_plain|auto]. }
    split; [exact Hput|]. intros _ h Hh.
    rewrite !(stableText_lone h) by done. intros [? ?]. auto.
  - assert (Hdrop : stableText stable (c :: u) -> stableText stable v).
    { rewrite stableText_cons by done. intros [_ ?]. auto. }
    split; [exact Hdrop|]. intros Hph h Hh.
    rewrite (stableText_lone h (c :: u)) by done.
    rewrite (stableText_lone h v) by auto. intros [? ?]. auto.
Qed.

(** A text of stable code points has no ASCII capital letter. *)
Lemma stableText_no_capital s :
  stableText stable s -> Forall (fun c => isUpper c = false) s.
Proof.
  induction s as [|c r IHr IH2] using list_ind2; intros Hs; [constructor|].
  destruct (isHigh c) eqn:Ec.
  - constructor; [classes|]. destruct r as [|d r']; [constructor|].
    destruct (isLow d) eqn:Ed.
    + apply stableText_pair in Hs as [_ Hs]; [|done|done].
      constructor; [classes|]. by apply (IH2 d r').
    + apply stableText_lone in Hs as [_ Hs]; [|done]. by apply IHr.
  - apply stableText_cons in Hs as [Hc Hs]; [|done]. constructor; [|by apply IHr].
    destruct (isUpper c) eqn:Eu; [|done].
    rewrite stable_ascii in Hc by classes. by rewrite Eu in Hc.
Qed.
End CaseConversion.

(** *** Every step of the normalization is an edit *)

Lemma edit_refl u : forall ph, edit ph u u.
Proof. induction u; intros; constructor; auto. Qed.

Lemma stripZeros_run_head s : startsLow (stripZerosFrom ZRun s) = false.
Proof.
  destruct s as [|c r]; [done|]. simpl.
  destruct (isZero c) eqn:E0.
  - clear. induction r as [|c r IH]; [done|]. simpl.
    destruct (isZero c); [exact IH|]. destruct (isDigit c) eqn:Ed; [|done].
    simpl. classes.
  - destruct (isDigit c) eqn:Ed; [|done]. simpl. classes.
Qed.

Lemma stripZeros_edit s :
  (forall pw ph, edit ph s (stripZerosFrom (ZText pw) s))
  /\ (forall ph, edit ph (48%N :: s) (stripZerosFrom ZRun s)).
Proof.
  induction s as [|c r [IHt IHr]].
  - split; intros; simpl; repeat constructor.
  - split.
    + intros pw ph. simpl. destruct (negb pw && isZero c) eqn:E.
      * apply andb_true_iff in E as [_ ->%isZero_spec]. apply IHr.
      * apply edit_keep, IHt.
    + intros ph. simpl. destruct (isZero c) eqn:E0.
      * apply isZero_spec in E0 as ->.
        apply edit_drop; [done|done| |apply IHr].
        intros _. apply stripZeros_run_head.
      * destruct (isDigit c) eqn:Ed.
        -- apply edit_drop; [done|done|intros _; simpl; classes|].
           apply edit_keep, IHt.
        -- do 2 apply edit_keep. apply IHt.
Qed.

Lemma standardizeNo_edit s :
  (forall ph, edit ph s (standardizeNoFrom false s))
  /\ edit false s (standardizeNoFrom true s).
Proof.
  induction s as [|c r IHr IH3] using list_ind3; [split; intros; constructor|].
  destruct IHr as [IHf IHt].
  assert (Hfalse : forall ph, edit ph (c :: r) (standardizeNoFrom false (c :: r))).
  { intros ph. rewrite standardizeNo_cons. destruct (startsNoDot (c :: r)) eqn:Es.
    - destruct r as [|o [|d r2]]; try discriminate.
      simpl in Es. apply andb_true_iff in Es as [Es Hd].
      apply andb_true_iff in Es as [Hn Ho].
      destruct (IH3 _ _ _ eq_refl) as [_ Hr2].
      change (drop 2 (o :: d :: r2)) with r2.
      change ("no " ++ standardizeNoFrom true r2)
        with (110%N :: 111%N :: 32%N :: standardizeNoFrom true r2).
      apply edit_put; [classes|classes|done|done|].
      apply edit_put; [classes|classes|done|done|].
      apply edit_put; [classes|classes|done|done|]. exact Hr2.
    - apply edit_keep, IHf. }
  split; [exact Hfalse|].
  simpl. destruct (isSpace c) eqn:Ec.
  - destruct (isSpace_solo _ Ec). by apply edit_drop.
  - apply (Hfalse false).
Qed.

Lemma collapse_edit s :
  (forall ph, edit ph s (collapseFrom false s))
  /\ edit false s (collapseFrom true s).
Proof.
  induction s as [|c r [IHf IHt]]; [split; intros; constructor|].
  simpl. destruct (isSpace c) eqn:Ec.
  - destruct (isSpace_solo _ Ec). split.
    + intros ph. by apply edit_put.
    + by apply edit_drop.
  - split; intros; apply edit_keep, IHf.
Qed.

Lemma trimStart_edit s : edit false s (trimStart s).
Proof.
  induction s as [|c r IH]; [constructor|].
  simpl. destruct (isSpace c) eqn:Ec.
  - destruct (isSpace_solo _ Ec). by apply edit_drop.
  - apply edit_refl.
Qed.

Lemma spaces_edit s :
  Forall (fun c => isSpace c = true) s -> forall ph, edit ph s [].
Proof.
  induction 1 as [|c r Hc _ IH]; intros ph; [constructor|].
  destruct (isSpace_solo _ Hc). by apply edit_drop.
Qed.

Lemma trimEnd_edit s : forall ph, edit ph s (trimEnd s).
Proof.
  induction s as [|c r IH]; intros ph; [constructor|].
  simpl. destruct (trimEnd r) as [|x r'] eqn:Er.
  - pose proof (trimEnd_nil _ Er) as Hr.
    destruct (isSpace c) eqn:Ec.
    + destruct (isSpace_solo _ Ec).
      apply edit_drop; first [done|by apply spaces_edit].
    + apply edit_keep. by apply spaces_edit.
  - apply edit_keep, IH.
Qed.

(** *** The normal form *)

Lemma standardizeNo_softer s :
  Forall (fun c => isUpper c = false) s ->
  (forall pw, softer pw s (standardizeNoFrom false s))
  /\ softer false s (standardizeNoFrom true s).
Proof.
  induction s as [|c r IHr IH3] using list_ind3; intros Hl;
    [split; intros; constructor|].
  apply Forall_cons in Hl as [Hc Hl].
  destruct (IHr Hl) as [IHf IHt].
  assert (Hfalse : forall pw, softer pw (c :: r) (standardizeNoFrom false (c :: r))).
  { intros pw. rewrite standardizeNo_cons. destruct (startsNoDot (c :: r)) eqn:Es.
    - destruct r as [|o [|d r2]]; try discriminate.
      simpl in Es. apply andb_true_iff in Es as [Es Hd].
      apply andb_true_iff in Es as [Hn Ho].
      apply Forall_cons in Hl as [Hlo Hl]. apply Forall_cons in Hl as [_ Hl].
      assert (c = 110%N) as -> by classes.
      assert (o = 111%N) as -> by classes.
      destruct (IH3 _ _ _ eq_refl Hl) as [_ Hr2].
      change (drop 2 (111%N :: d :: r2)) with r2.
      change ("no " ++ standardizeNoFrom true r2)
        with (110%N :: 111%N :: 32%N :: standardizeNoFrom true r2).
      do 2 apply softer_keep.
      apply softer_blank; [by apply isDot_not_word|exact Hr2].
    - constructor. apply IHf. }
  split; [exact Hfalse|].
  simpl. destruct (isSpace c) eqn:Ec.
  - apply softer_drop; [by apply isSpace_not_word|exact IHt].
  - apply (Hfalse false).
Qed.

(** The normalized title of a non-empty title. *)
Lemma normalizeTitle_unfold host t :
  normalizeTitle host t
  = if truthy t
    then trim (collapse (standardizeNo (stripZeros (toLowerCase host t))))
    else [].
Proof. reflexivity. Qed.

Lemma normalize_normal host t :
  caseByCodePoint (toLowerCase host) ->
  normal host (trim (collapse (standardizeNo (stripZeros (toLowerCase host t))))).
Proof.
  intros (stable & Hfix & Hidem & Hascii).
  unfold trim, stripZeros, standardizeNo, collapse.
  set (a := toLowerCase host t).
  set (b := stripZerosFrom (ZText false) a).
  set (c := standardizeNoFrom false b).
  set (d := collapseFrom false c).
  assert (Ga : stableText stable a) by apply Hfix, Hidem.
  assert (Gb : stableText stable b).
  { by apply (edit_stable stable Hascii false a b (proj1 (stripZeros_edit a) _ _)). }
  assert (Gc : stableText stable c).
  { by apply (edit_stable stable Hascii false b c (proj1 (standardizeNo_edit b) _)). }
  assert (Gd : stableText stable d).
  { by apply (edit_stable stable Hascii false c d (proj1 (collapse_edit c) _)). }
  assert (Sc : softer false b c).
  { apply standardizeNo_softer. by apply (stableText_no_capital stable). }
  assert (Sd : softer false c d) by apply collapse_softer.
  assert (Zb : zeroFree false b = true) by apply stripZeros_zeroFree.
  assert (Nc : noDotFree c = true) by apply standardizeNo_noDotFree.
  assert (Td : tidy false d = true) by apply collapse_tidy.
  pose proof (trimStart_softer d) as S1.
  pose proof (trimEnd_softer (trimStart d) false) as S2.
  split.
  - apply Hfix.
    apply (edit_stable stable Hascii false _ _ (trimEnd_edit (trimStart d) false)).
    by apply (edit_stable stable Hascii false _ _ (trimStart_edit d)).
  - apply (softer_zeroFree _ _ _ S2), (softer_zeroFree _ _ _ S1),
      (softer_zeroFree _ _ _ Sd), (softer_zeroFree _ _ _ Sc), Zb.
  - apply (softer_noDotFree _ _ _ S2), (softer_noDotFree _ _ _ S1),
      (softer_noDotFree _ _ _ Sd), Nc.
  - by apply trimEnd_tidy, trimStart_tidy.
  - apply trim_idem.
Qed.

Lemma normal_fixed host u :
  normal host u ->
  trim (collapse (standardizeNo (stripZeros (toLowerCase host u)))) = u.
Proof.
  intros [Hl Hz Hn Ht Hm]. unfold stripZeros, standardizeNo, collapse.
  rewrite Hl, (zeroFree_fixed _ _ Hz), (noDotFree_fixed _ Hn),
    (tidy_fixed _ _ Ht). exact Hm.
Qed.

(** C10. Title normalization is idempotent: for every string [t],
    normalizing [normalizeTitle t] again gives [normalizeTitle t], so a key
    of the normalized-title table is the same however often it is
    normalized. The case conversion is that of the host, of which the proof
    uses that it goes code point by code point. *)
Theorem normalizeTitle_idempotent (host : Host) (t : string) :
  caseByCodePoint (toLowerCase host) ->
  normalizeTitle host (normalizeTitle host t) = normalizeTitle host t.
Proof.
  intros Hcase. rewrite (normalizeTitle_unfold host t).
  destruct (truthy t); [|reflexivity].
  rewrite normalizeTitle_unfold.
  rewrite (normal_fixed _ _ (normalize_normal host t Hcase)).
  by destruct (trim _).
Qed.

(** The case conversion of the example host goes code point by code
    point. *)
Lemma lowerLatin_spec c :
  (lowerLatin c = c + 32 /\ (65 <= c <= 90 \/ 192 <= c <= 214 \/ 216 <= c <= 222))%N
  \/ (lowerLatin c = c
      /\ ~ (65 <= c <= 90 \/ 192 <= c <= 214 \/ 216 <= c <= 222)%N).
Proof.
  unfold lowerLatin.
  destruct (isUpper c || between 192 214 c || between 216 222 c) eqn:E.
  - left. split; [done|].
    rewrite !orb_true_iff, isUpper_spec, !between_spec in E. tauto.
  - right. split; [done|]. apply not_true_iff_false in E.
    rewrite !orb_true_iff, isUpper_spec, !between_spec in E. tauto.
Qed.

Lemma lowerLatin_idem c : lowerLatin (lowerLatin c) = lowerLatin c.
Proof.
  destruct (lowerLatin_spec c) as [[H1 Hc]|[H1 _]]; [|by rewrite !H1].
  rewrite H1.
  destruct (lowerLatin_spec (c + 32)) as [[_ H]|[H2 _]]; [lia|exact H2].
Qed.

Lemma lowerLatin_fixed s :
  map lowerLatin s = s
  <-> stableText (fun p => (lowerLatin p =? p)%N) s.
Proof.
  induction s as [|c r IHr IH2] using list_ind2; [by split; [constructor|]|].
  assert (Hcons : map lowerLatin (c :: r) = c :: r
                  <-> lowerLatin c = c /\ map lowerLatin r = r).
  { simpl. split; [by intros [= ? ?]|by intros [-> ->]]. }
  assert (Hbig : forall p, (55296 <= p)%N -> lowerLatin p = p).
  { intros p Hp. destruct (lowerLatin_spec p) as [[_ ?]|[? _]]; [lia|done]. }
  destruct (isHigh c) eqn:Ec.
  - assert (Hc : lowerLatin c = c) by (apply Hbig; classes).
    destruct r as [|d r']; [unfold stableText; simpl; rewrite Forall_singleton,
      N.eqb_eq; by rewrite Hc|].
    destruct (isLow d) eqn:Ed.
    + rewrite stableText_pair by done. rewrite N.eqb_eq, <- (IH2 d r' eq_refl).
      assert (Hd : lowerLatin d = d) by (apply Hbig; classes).
      simpl. rewrite Hc, Hd. split.
      * intros [= ->]. split; [apply Hbig; lia|done].
      * by intros [_ ->].
    + rewrite stableText_lone by done. rewrite N.eqb_eq, <- IHr. exact Hcons.
  - rewrite stableText_cons by done. rewrite N.eqb_eq, <- IHr. exact Hcons.
Qed.

Lemma host0_case : caseByCodePoint (toLowerCase host0).
Proof.
  exists (fun p => (lowerLatin p =? p)%N). split; [apply lowerLatin_fixed|]. split.
  - intros s. simpl. rewrite map_map. apply map_ext. apply lowerLatin_idem.
  - intros c Hc. destruct (lowerLatin_spec c) as [[H1 H]|[H1 H]]; rewrite H1.
    + assert (Hu : isUpper c = true) by classes. rewrite Hu. simpl.
      apply N.eqb_neq. lia.
    + assert (Hu : isUpper c = false) by classes. rewrite Hu. simpl.
      apply N.eqb_refl.
Qed.

Lemma normalizeTitle_idempotent_witness :
  caseByCodePoint (toLowerCase host0)
  /\ normalizeTitle host0 (normalizeTitle host0 "Circular No. 05")
     = normalizeTitle host0 "Circular No. 05".
Proof.
  split; [exact host0_case|].
  apply (normalizeTitle_idempotent host0 "Circular No. 05" host0_case).
Defined.

(** ** Equality of strings *)

Lemma eqb_eq a b : eqb a b = true <-> a = b.
Proof.
  revert b. induction a as [|x a IH]; intros [|y b]; simpl; try done.
  rewrite andb_true_iff, N.eqb_eq, IH. split; [by intros [-> ->]|by intros [= -> ->]].
Qed.

Lemma eqb_refl a : eqb a a = true.
Proof. by apply eqb_eq. Qed.

Lemma eqb_neq a b : eqb a b = false <-> a <> b.
Proof. rewrite <- eqb_eq. by destruct (eqb a b). Qed.

(** ** Insertion-ordered maps *)

Section OMapFacts.
Context {V : Type}.
Implicit Types (m : list (string * V)) (k : string) (v : V).

Lemma omap_has_get m k : OMap.has m k = true <-> is_Some (OMap.get m k).
Proof.
  unfold OMap.has. destruct (OMap.get m k); split; try done; eauto.
Qed.

Lemma omap_get_keys m k : is_Some (OMap.get m k) <-> k ∈ OMap.keys m.
Proof.
  induction m as [|[k' v'] r IH]; simpl.
  - split; [intros [? [=]]|by intros ?%elem_of_nil].
  - destruct (eqb k' k) eqn:E.
    + apply eqb_eq in E as ->. split; [left|eauto].
    + apply eqb_neq in E. rewrite IH, elem_of_cons.
      split; [by right|]. by intros [->|?].
Qed.

Lemma omap_has_keys m k : OMap.has m k = true <-> k ∈ OMap.keys m.
Proof. by rewrite omap_has_get, omap_get_keys. Qed.

Lemma omap_get_set_eq m k v : OMap.get (OMap.set m k v) k = Some v.
Proof.
  induction m as [|[k' v'] r IH]; simpl.
  - by rewrite eqb_refl.
  - destruct (eqb k' k) eqn:E; simpl; by rewrite E.
Qed.

Lemma omap_get_set_ne m k k' v :
  k <> k' -> OMap.get (OMap.set m k v) k' = OMap.get m k'.
Proof.
  intros Hne. induction m as [|[k0 v0] r IH]; simpl.
  - apply eqb_neq in Hne. by rewrite Hne.
  - destruct (eqb k0 k) eqn:E; simpl; [|by rewrite IH].
    apply eqb_eq in E as ->.
    apply eqb_neq in Hne. by rewrite Hne.
Qed.

Lemma omap_keys_set_old m k v :
  k ∈ OMap.keys m -> OMap.keys (OMap.set m k v) = OMap.keys m.
Proof.
  induction m as [|[k0 v0] r IH]; simpl; [by intros ?%elem_of_nil|].
  intros Hin. destruct (eqb k0 k) eqn:E; [done|]. simpl. f_equal.
  apply IH. apply eqb_neq in E.
  apply elem_of_cons in Hin as [->|Hin]; done.
Qed.

Lemma omap_keys_set_new m k v :
  k ∉ OMap.keys m -> OMap.keys (OMap.set m k v) = OMap.keys m ++ [k].
Proof.
  induction m as [|[k0 v0] r IH]; simpl; [done|].
  intros Hin. apply not_elem_of_cons in Hin as [Hne Hin].
  destruct (eqb k0 k) eqn:E.
  - apply eqb_eq in E. congruence.
  - simpl. f_equal. by apply IH.
Qed.

Lemma omap_set_fresh m k v :
  OMap.get m k = None -> OMap.set m k v = m ++ [(k, v)].
Proof.
  induction m as [|[k0 v0] r IH]; simpl; [done|].
  destruct (eqb k0 k); [done|]. intros H. f_equal. by apply IH.
Qed.

Lemma omap_get_elem m k v :
  NoDup (OMap.keys m) -> (k, v) ∈ m -> OMap.get m k = Some v.
Proof.
  induction m as [|[k0 v0] r IH]; simpl; [by intros _ ?%elem_of_nil|].
  intros [Hk Hr]%NoDup_cons [Heq|Hin]%elem_of_cons.
  - injection Heq as -> ->. by rewrite eqb_refl.
  - destruct (eqb k0 k) eqn:E; [|by apply IH].
    apply eqb_eq in E as ->. exfalso. apply Hk.
    apply list_elem_of_fmap. by exists (k, v).
Qed.

Lemma omap_set_elem m k v k' v' :
  (k', v') ∈ OMap.set m k v -> (k', v') ∈ m \/ (k' = k /\ v' = v).
Proof.
  induction m as [|[k0 v0] r IH]; simpl.
  - intros [= -> ->]%list_elem_of_singleton. by right.
  - destruct (eqb k0 k) eqn:E.
    + apply eqb_eq in E as ->.
      intros [[= -> ->]|Hin]%elem_of_cons; [by right|left; by right].
    + intros [->|Hin]%elem_of_cons; [left; by left|].
      destruct (IH Hin) as [?|?]; [left; by right|by right].
Qed.

Lemma omap_elem_get m k v : OMap.get m k = Some v -> (k, v) ∈ m.
Proof.
  induction m as [|[k0 v0] r IH]; simpl; [done|].
  destruct (eqb k0 k) eqn:E.
  - apply eqb_eq in E as ->. intros [= ->]. left.
  - intros H. right. by apply IH.
Qed.
End OMapFacts.

(** ** Validation *)

Lemma orphan_step nodeMap table e :
  orphan nodeMap table e
  = negb (OMap.has nodeMap (e_source e)
          && OMap.has nodeMap (resolveTarget nodeMap table (e_target e))).
Proof.
  unfold orphan, resolveTarget.
  destruct (OMap.has nodeMap (e_source e)); simpl; [|done].
  destruct (OMap.has nodeMap (e_target e)) eqn:Et; simpl; [by rewrite Et|].
  destruct (table !! e_target e); [done|]. by rewrite Et.
Qed.

Lemma orphans_cons nodeMap table e es :
  length (filter (fun e => orphan nodeMap table e = true) (e :: es))
  = (if orphan nodeMap table e then 1 else 0)
    + length (filter (fun e => orphan nodeMap table e = true) es).
Proof.
  rewrite filter_cons. by destruct (orphan nodeMap table e).
Qed.

Lemma validate_fold nodeMap table edges : forall valid orphaned,
  Forall (endpointsIn nodeMap) valid ->
  exists valid',
    fold_left (validateStep nodeMap table) edges (valid, orphaned)
    = (valid', orphaned
               + length (filter (fun e => orphan nodeMap table e = true) edges))
    /\ length valid'
       + length (filter (fun e => orphan nodeMap table e = true) edges)
       = length valid + length edges
    /\ Forall (endpointsIn nodeMap) valid'.
Proof.
  induction edges as [|e es IH]; intros valid orphaned Hv.
  - exists valid. simpl. rewrite Nat.add_0_r. split; [done|]. split; [lia|done].
  - rewrite orphans_cons, orphan_step. cbn [fold_left]. unfold validateStep at 2.
    destruct (OMap.has nodeMap (e_source e)
              && OMap.has nodeMap (resolveTarget nodeMap table (e_target e))) eqn:E;
      cbn [negb].
    + edestruct IH as (valid' & H1 & H2 & H3); [|exists valid'; split; [exact H1|]].
      * apply Forall_app. split; [done|]. constructor; [|done].
        apply andb_true_iff in E as [Es Et]. split; simpl; by apply omap_has_keys.
      * split; [|done]. rewrite length_app in H2. simpl in *. lia.
    + destruct (IH valid (S orphaned) Hv) as (valid' & H1 & H2 & H3).
      exists valid'. split; [rewrite H1; f_equal; lia|]. split; [simpl; lia|done].
Qed.

Lemma validateEdges_endpoints edges nodeMap table :
  Forall (endpointsIn nodeMap) (validEdges (validateEdges edges nodeMap table)).
Proof.
  unfold validateEdges.
  destruct (validate_fold nodeMap table edges [] 0 (Forall_nil_2 _))
    as (valid & H1 & _ & H3).
  by rewrite H1.
Qed.

(** C7. Of [N] edges of which [M] have a source or a target that does not
    resolve to a node of the map, even through the normalized-title table,
    [validateEdges] returns exactly [N - M]; both ends of every returned edge
    are nodes of the map; the count of orphans is [M], and it is written as
    a warning and not thrown. *)
Theorem validateEdges_accounting (edges : list Edge)
    (nodeMap : list (string * Node)) (table : gmap string string) :
  let v := validateEdges edges nodeMap table in
  let M := length (filter (fun e => orphan nodeMap table e = true) edges) in
  length (validEdges v) = length edges - M
  /\ orphanedCount v = M
  /\ (forall e, e ∈ validEdges v ->
        v_source e ∈ OMap.keys nodeMap /\ v_target e ∈ OMap.keys nodeMap)
  /\ warnings v = match M with
                  | 0 => []
                  | S _ => [ofNat M ++ " orphaned references (target not found)"]
                  end.
Proof.
  intros v M. subst v. unfold validateEdges.
  destruct (validate_fold nodeMap table edges [] 0 (Forall_nil_2 _))
    as (valid & H1 & H2 & H3).
  rewrite H1. fold M in H2 |- *. simpl in *.
  split; [lia|]. split; [done|]. split.
  - intros e He. by apply (proj1 (Forall_forall _ _) H3).
  - by destruct M.
Qed.

(** ** Extraction *)

Lemma Ref_nested_ind (P : Ref -> Prop) :
  (forall r, (forall refs, ref_nested r = Some refs -> Forall P refs) -> P r) ->
  forall r, P r.
Proof.
  intros H. fix IH 1. intros [ty ti u nested]. apply H. simpl.
  destruct nested as [refs|]; [|discriminate].
  intros ? [= <-]. revert refs. fix IHl 1.
  intros [|x l]; constructor; [apply IH|apply IHl].
Qed.

Lemma extractReference_unfold host depth sourceId dept r a :
  extractReference host depth sourceId dept r a
  = if eqb (ref_type r) "circular" then
      let targetId := normalizeTitle host (ref_title r) in
      extractReferences host (ref_nested r) sourceId dept (S depth)
        (if truthy targetId
         then pushEdge {| e_source := sourceId; e_target := targetId;
                          e_refType := circular; e_refTitle := ref_title r;
                          e_refUrl := ref_url r |} a
         else a)
    else if eqb (ref_type r) "pdf" then
      let '(pdfId, a0) := attachmentId host "pdf_" r a in
      extractReferences host (ref_nested r) pdfId dept (S depth)
        (pushEdge {| e_source := sourceId; e_target := pdfId; e_refType := pdf;
                     e_refTitle := or (ref_title r) "PDF Document";
                     e_refUrl := ref_url r |}
           (pushNode (attachmentNode pdf "PDF Document" pdfId dept r) a0))
    else if eqb (ref_type r) "web" then
      let '(webId, a0) := attachmentId host "web_" r a in
      pushEdge {| e_source := sourceId; e_target := webId; e_refType := web;
                  e_refTitle := or (ref_title r) "Web Link";
                  e_refUrl := ref_url r |}
        (pushNode (attachmentNode web "Web Link" webId dept r) a0)
    else a.
Proof.
  destruct r as [ty ti u [refs|]]; cbn -[eqb normalizeTitle Nat.ltb];
    repeat case_match; reflexivity.
Qed.

Section ExtractionFacts.
Variable host : Host.

Lemma attachOnly_refl a : attachOnly a a.
Proof. split; [done|]. exists []. by rewrite app_nil_r. Qed.

Lemma attachOnly_trans a b c : attachOnly a b -> attachOnly b c -> attachOnly a c.
Proof.
  intros [Ht1 (n1 & Hn1 & Hf1)] [Ht2 (n2 & Hn2 & Hf2)]. split; [congruence|].
  exists (n1 ++ n2). rewrite Hn2, Hn1, app_assoc. split; [done|].
  by apply Forall_app.
Qed.

Lemma attachOnly_pushEdge e a : attachOnly a (pushEdge e a).
Proof. split; [done|]. exists []. simpl. by rewrite app_nil_r. Qed.

Lemma attachOnly_setDraws d a : attachOnly a (setDraws d a).
Proof. split; [done|]. exists []. simpl. by rewrite app_nil_r. Qed.

Lemma attachOnly_pushNode n a : attachment n -> attachOnly a (pushNode n a).
Proof. intros Hn. split; [done|]. exists [n]. split; [done|]. by constructor. Qed.

Lemma attachmentId_attachOnly pre r a : attachOnly a (attachmentId host pre r a).2.
Proof.
  unfold attachmentId. repeat case_match; simpl;
    auto using attachOnly_refl, attachOnly_setDraws.
Qed.

Lemma extractReferences_fold (P : Acc -> Acc -> Prop) refs sourceId dept depth :
  (forall a, P a a) ->
  (forall a b c, P a b -> P b c -> P a c) ->
  Forall (fun r => forall depth src a, P a (extractReference host depth src dept r a)) refs ->
  forall a, P a (extractReferences host (Some refs) sourceId dept depth a).
Proof.
  intros Hrefl Htrans Hall a. unfold extractReferences.
  destruct (Nat.ltb 10 depth); [done|].
  revert a. induction Hall as [|r rs Hr Hrs IH]; intros a; simpl; [done|].
  eapply Htrans; [apply Hr|apply IH].
Qed.

Lemma extractReference_attachOnly r : forall depth src dept a,
  attachOnly a (extractReference host depth src dept r a).
Proof.
  induction r as [r IH] using Ref_nested_ind. intros depth src dept a.
  assert (Hnested : forall s d a, attachOnly a
            (extractReferences host (ref_nested r) s dept d a)).
  { intros s d a'. destruct (ref_nested r) as [refs|] eqn:E;
      [|apply attachOnly_refl].
    apply extractReferences_fold;
      [apply attachOnly_refl|apply attachOnly_trans|].
    eapply Forall_impl; [by apply IH|]. simpl. intros x Hx d' s' a''.
    apply Hx. }
  rewrite extractReference_unfold.
  destruct (eqb (ref_type r) "circular").
  { cbn zeta. eapply attachOnly_trans; [|apply Hnested].
    destruct (truthy _); [apply attachOnly_pushEdge|apply attachOnly_refl]. }
  destruct (eqb (ref_type r) "pdf").
  { pose proof (attachmentId_attachOnly "pdf_" r a) as Hid.
    destruct (attachmentId host "pdf_" r a) as [pdfId a0]. simpl in Hid.
    eapply attachOnly_trans; [|apply Hnested].
    eapply attachOnly_trans; [exact Hid|].
    eapply attachOnly_trans; [|apply attachOnly_pushEdge].
    by apply attachOnly_pushNode. }
  destruct (eqb (ref_type r) "web"); [|apply attachOnly_refl].
  pose proof (attachmentId_attachOnly "web_" r a) as Hid.
  destruct (attachmentId host "web_" r a) as [webId a0]. simpl in Hid.
  eapply attachOnly_trans; [exact Hid|].
  eapply attachOnly_trans; [|apply attachOnly_pushEdge].
  by apply attachOnly_pushNode.
Qed.

Lemma extractReferences_attachOnly refs src dept depth a :
  attachOnly a (extractReferences host refs src dept depth a).
Proof.
  destruct refs as [refs|]; [|apply attachOnly_refl].
  apply extractReferences_fold;
    [apply attachOnly_refl|apply attachOnly_trans|].
  apply Forall_forall. intros r _ d s a'. apply extractReference_attachOnly.
Qed.

Lemma registered_app a ns :
  map n_id (filter (fun n => Kind_eqb (n_type n) circular = true) (nodes a ++ ns))
  = registered a
    ++ map n_id (filter (fun n => Kind_eqb (n_type n) circular = true) ns).
Proof. unfold registered. by rewrite filter_app, map_app. Qed.

Lemma attachments_not_registered ns :
  Forall attachment ns ->
  filter (fun n => Kind_eqb (n_type n) circular = true) ns = [].
Proof.
  induction 1 as [|n ns [Hk _] _ IH]; [done|].
  rewrite filter_cons, decide_False by (by rewrite Hk). exact IH.
Qed.

Lemma attachOnly_registered a a' : attachOnly a a' -> registered a' = registered a.
Proof.
  intros [_ (ns & Hn & Hf)]. unfold registered at 1.
  rewrite Hn, registered_app, attachments_not_registered by done.
  apply app_nil_r.
Qed.

Lemma attachOnly_extracted a a' :
  extracted host a -> attachOnly a a' -> extracted host a'.
Proof.
  intros [Ht Hc] Ha. pose proof (attachOnly_registered _ _ Ha) as Hr.
  destruct Ha as [Htab (ns & Hn & Hf)]. split.
  - intros key. by rewrite Htab, Hr.
  - rewrite Hn. apply Forall_app. split; [done|].
    eapply Forall_impl; [exact Hf|]. by intros n [_ ?].
Qed.

Lemma register_extracted a n :
  extracted host a -> Kind_eqb (n_type n) circular = true -> n_refCount n = 0 ->
  extracted host (register (normalizeTitle host (n_id n)) (n_id n) (pushNode n a)).
Proof.
  intros [Ht Hc] Hk Hz. split.
  - intros key. unfold registered. simpl.
    rewrite filter_app, map_app, filter_cons, decide_True by done.
    simpl. unfold candidates. rewrite filter_app, filter_cons, filter_nil.
    destruct (decide (normalizeTitle host (n_id n) = key)) as [Heq|Hne].
    + rewrite last_snoc, <- Heq. apply lookup_insert_eq.
    + rewrite lookup_insert_ne, app_nil_r by done. apply Ht.
  - simpl. apply Forall_app. split; [done|]. by constructor.
Qed.

Lemma setDraws_extracted d a : extracted host a -> extracted host (setDraws d a).
Proof. by intros [Ht Hc]. Qed.

Lemma processCircular_extracted c dept a :
  extracted host a -> extracted host (processCircular host c dept a).
Proof.
  intros Ha. destruct c as [c|]; [|exact Ha]. unfold processCircular.
  destruct (generateNodeId host (draws a) (c_ID c) (c_url c) (c_title c))
    as [nodeId d].
  eapply attachOnly_extracted; [|apply extractReferences_attachOnly].
  match goal with
  | |- extracted host (register _ _ (pushNode ?n _)) =>
      apply (register_extracted _ n); [by apply setDraws_extracted|done|done]
  end.
Qed.

Lemma fold_extracted {A} (f : Acc -> A -> Acc) l :
  (forall a x, extracted host a -> extracted host (f a x)) ->
  forall a, extracted host a -> extracted host (fold_left f l a).
Proof. intros Hf. induction l as [|x l IH]; intros a Ha; simpl; auto. Qed.

Lemma extractAll_extracted loadedData : extracted host (extractAll host loadedData).
Proof.
  unfold extractAll.
  set (a1 := fold_left _ (mainFiles loadedData) _).
  assert (H1 : extracted host a1).
  { apply fold_extracted.
    - intros a f Ha. unfold extractCircularsFromMainFile.
      destruct (years f) as [ys|]; [|done].
      apply fold_extracted; [|done]. intros a' y Ha'. unfold processYear.
      apply fold_extracted; [intros; by apply processCircular_extracted|].
      apply fold_extracted; [intros; by apply processCircular_extracted|done].
    - split; [intros key; apply lookup_empty|constructor]. }
  destruct (cache loadedData) as [c|]; [|done].
  apply fold_extracted; [|done]. intros a [circularId circularData] Ha.
  unfold processCacheEntry.
  match goal with
  | |- extracted host (match _ with Some cc => extractReferences _ _ _ _ _ ?x | None => _ end) =>
      assert (Hx : extracted host x)
  end.
  { match goal with
    | |- extracted host (register _ _ (pushNode ?n _)) =>
        by apply (register_extracted _ n)
    end. }
  destruct circularData as [cc|]; [|done].
  eapply attachOnly_extracted; [exact Hx|apply extractReferences_attachOnly].
Qed.
End ExtractionFacts.

(** ** Deduplication *)

Lemma mergeContent_same existing node merged :
  mergeContent existing node = Some merged ->
  n_id merged = n_id existing /\ n_refCount merged = n_refCount existing.
Proof.
  unfold mergeContent. intros H.
  repeat case_match; simplify_eq; done.
Qed.

Lemma mergeInto_same existing node merged :
  mergeInto existing node = Some merged ->
  n_id merged = n_id existing /\ n_refCount merged = n_refCount existing.
Proof.
  unfold mergeInto. intros H.
  destruct (negb (n_fromCache node) || n_fromCache existing); [|by simplify_eq].
  destruct (mergeContent _ node) as [e5|] eqn:E5; [|done].
  apply mergeContent_same in E5 as [Hi Hc]. simplify_eq.
  repeat case_match; simpl in *; rewrite ?Hi, ?Hc; done.
Qed.

Lemma dedupStep_deduped m node m' :
  deduped m -> n_refCount node = 0 ->
  dedupStep (Some m) node = Some m' -> deduped m'.
Proof.
  intros [Hk Hn] Hz. unfold dedupStep.
  destruct (OMap.get m (n_id node)) as [existing|] eqn:Eg.
  - destruct (mergeInto existing node) as [merged|] eqn:Em; [|done].
    intros [= <-]. apply mergeInto_same in Em as [Hi Hc].
    assert (Hin : (n_id node, existing) ∈ m) by by apply omap_elem_get.
    assert (Hex : n_id existing = n_id node /\ n_refCount existing = 0).
    { by apply (proj1 (Forall_forall _ _) Hn _ Hin). }
    split.
    + rewrite omap_keys_set_old; [done|]. apply omap_get_keys. by rewrite Eg.
    + apply Forall_forall. intros [k v] [Hold|[-> ->]]%omap_set_elem.
      * by apply (proj1 (Forall_forall _ _) Hn _ Hold).
      * simpl. destruct Hex. split; congruence.
  - intros [= <-]. rewrite omap_set_fresh by done. split.
    + unfold OMap.keys. rewrite map_app. simpl. apply NoDup_app.
      split; [done|]. split; [|apply NoDup_singleton].
      intros k Hin ->%list_elem_of_singleton.
      apply omap_get_keys in Hin as [? ?]. congruence.
    + apply Forall_app. split; [done|]. by constructor.
Qed.

Lemma dedup_fold_none nodes : fold_left dedupStep nodes None = None.
Proof. by induction nodes. Qed.

Lemma deduplicateNodes_deduped nodes m :
  Forall (fun n => n_refCount n = 0) nodes ->
  deduplicateNodes nodes = Some m -> deduped m.
Proof.
  unfold deduplicateNodes. intros Hz.
  assert (H0 : deduped []) by (split; constructor).
  revert H0. generalize (@nil (string * Node)).
  induction Hz as [|n ns Hn Hns IH]; intros m0 H0; cbn [fold_left].
  - by intros [= <-].
  - destruct (dedupStep (Some m0) n) as [m1|] eqn:E1.
    + apply IH. by eapply dedupStep_deduped.
    + by rewrite dedup_fold_none.
Qed.

(** ** Reference counts *)

Lemma countStep_keys m e : OMap.keys (countStep m e) = OMap.keys m.
Proof.
  unfold countStep. destruct (OMap.get m (v_target e)) eqn:E; [|done].
  apply omap_keys_set_old, omap_get_keys. by rewrite E.
Qed.

Lemma countStep_get m e k :
  OMap.get (countStep m e) k
  = (fun n => if decide (v_target e = k)
              then withRefCount (n_refCount n + 1) n else n) <$> OMap.get m k.
Proof.
  unfold countStep. destruct (decide (v_target e = k)) as [<-|Hne].
  - destruct (OMap.get m (v_target e)) eqn:E; [|by rewrite E].
    by rewrite omap_get_set_eq.
  - destruct (OMap.get m (v_target e)) eqn:E.
    + rewrite omap_get_set_ne by done. by destruct (OMap.get m k).
    + by destruct (OMap.get m k).
Qed.

Lemma calculateReferenceCounts_keys edges : forall m,
  OMap.keys (calculateReferenceCounts m edges) = OMap.keys m.
Proof.
  induction edges as [|e es IH]; intros m; [done|].
  unfold calculateReferenceCounts in *. simpl. by rewrite IH, countStep_keys.
Qed.

Lemma calculateReferenceCounts_get edges : forall m k,
  OMap.get (calculateReferenceCounts m edges) k
  = (fun n => withRefCount (n_refCount n + inDegree k edges) n) <$> OMap.get m k.
Proof.
  induction edges as [|e es IH]; intros m k.
  - unfold inDegree. simpl. destruct (OMap.get m k) as [[]|]; simpl; [|done].
    unfold withRefCount. simpl. by rewrite Nat.add_0_r.
  - unfold calculateReferenceCounts in *. simpl. rewrite IH, countStep_get.
    unfold inDegree. rewrite filter_cons.
    destruct (OMap.get m k) as [n|]; [|done]. simpl. f_equal.
    destruct (decide (v_target e = k)); unfold withRefCount; simpl; f_equal; lia.
Qed.

Lemma inDegree_cyEdge k valid :
  length (filter (fun e => target e = k) (map cyEdge valid)) = inDegree k valid.
Proof.
  unfold inDegree. induction valid as [|e es IH]; [done|].
  simpl. rewrite !filter_cons. simpl.
  destruct (decide (v_target e = k)); simpl; by rewrite IH.
Qed.

(** C8. The [refCount] of every node of the built graph is the number of
    edges of the validated edge set whose target is that node. The sources
    carry no such count: every node is created with the count 0. *)
Theorem buildGraph_refCount (host : Host) (loadedData : LoadedData)
    (g : Graph) (n : CyNode) :
  buildGraph host loadedData = Some g ->
  n ∈ g_nodes g ->
  refCount n = length (filter (fun e => target e = id n) (g_edges g)).
Proof.
  unfold buildGraph. set (a := extractAll host loadedData).
  destruct (deduplicateNodes (nodes a)) as [nodeMap|] eqn:Ed; [|done].
  intros [= <-]. simpl.
  set (valid := validEdges (validateEdges _ _ _)).
  intros (node & -> & Hin)%list_elem_of_fmap.
  apply list_elem_of_fmap in Hin as ([k node'] & -> & Hin). simpl.
  pose proof (extracted_counts _ _ (extractAll_extracted host loadedData)) as Hz.
  destruct (deduplicateNodes_deduped _ _ Hz Ed) as [Hk Hn].
  apply omap_get_elem in Hin;
    [|by rewrite calculateReferenceCounts_keys].
  rewrite calculateReferenceCounts_get in Hin.
  destruct (OMap.get nodeMap k) as [node0|] eqn:E0; [|done].
  injection Hin as <-.
  apply omap_elem_get in E0.
  destruct (proj1 (Forall_forall _ _) Hn _ E0) as [Hid Hc]. simpl in *.
  rewrite Hc, Hid. apply eq_sym, inDegree_cyEdge.
Qed.

Lemma calculateReferenceCounts_ids m edges :
  deduped m ->
  map n_id (OMap.values (calculateReferenceCounts m edges)) = OMap.keys m.
Proof.
  intros [Hk Hn]. rewrite <- (calculateReferenceCounts_keys edges m).
  unfold OMap.values, OMap.keys. rewrite map_map. apply map_ext_in.
  intros [k v] Hin%list_elem_of_In. simpl.
  apply omap_get_elem in Hin; [|by rewrite calculateReferenceCounts_keys].
  rewrite calculateReferenceCounts_get in Hin.
  destruct (OMap.get m k) as [node0|] eqn:E0; [|done].
  injection Hin as <-. apply omap_elem_get in E0.
  by destruct (proj1 (Forall_forall _ _) Hn _ E0).
Qed.

Lemma buildGraph_refCount_witness :
  exists g,
    buildGraph host0 zeroDateData = Some g
    /\ dated ∈ g_nodes g
    /\ refCount dated
       = length (filter (fun e => target e = id dated) (g_edges g)).
Proof.
  eexists. split; [vm_compute; reflexivity|].
  split; [right; left|].
  apply (buildGraph_refCount host0 zeroDateData); [vm_compute; reflexivity|].
  right. left.
Defined.

(** No edge of the final graph dangles. *)
Lemma buildGraph_no_dangling host loadedData g e :
  buildGraph host loadedData = Some g ->
  e ∈ g_edges g ->
  source e ∈ map id (g_nodes g) /\ target e ∈ map id (g_nodes g).
Proof.
  unfold buildGraph. set (a := extractAll host loadedData).
  destruct (deduplicateNodes (nodes a)) as [nodeMap|] eqn:Ed; [|done].
  intros [= <-]. simpl. intros (v & -> & Hv)%list_elem_of_fmap.
  pose proof (extracted_counts _ _ (extractAll_extracted host loadedData)) as Hz.
  pose proof (deduplicateNodes_deduped _ _ Hz Ed) as Hd.
  pose proof (proj1 (Forall_forall _ _)
                (validateEdges_endpoints (edges a) nodeMap (nodeIdToNormalizedId a))
                _ Hv) as Hends.
  rewrite map_map.
  change (map (fun x => id (cyNode x))) with (map n_id).
  by rewrite calculateReferenceCounts_ids.
Qed.

(** ** Collisions of normalized titles *)

(** C4 (amended). When several discovered circulars have ids that normalize
    to the same key, the last one registered takes the key: an edge whose
    target is that key, and not itself the id of a node, resolves to the id
    registered last. *)
Theorem collision_last_registration (host : Host) (loadedData : LoadedData)
    (nodeMap : list (string * Node)) (key winner : string) :
  OMap.has nodeMap key = false ->
  last (candidates host key (registered (extractAll host loadedData))) = Some winner ->
  resolveTarget nodeMap (nodeIdToNormalizedId (extractAll host loadedData)) key
  = winner.
Proof.
  intros Hk Hw. unfold resolveTarget. rewrite Hk. simpl.
  by rewrite (extracted_table _ _ (extractAll_extracted host loadedData)), Hw.
Qed.

Lemma collision_last_registration_witness :
  OMap.has collisionNodeMap "circular no 1" = false
  /\ last (candidates host0 "circular no 1"
             (registered (extractAll host0 collisionData)))
     = Some "Circular No. 1"
  /\ resolveTarget collisionNodeMap
       (nodeIdToNormalizedId (extractAll host0 collisionData)) "circular no 1"
     = "Circular No. 1".
Proof.
  split; [vm_compute; reflexivity|]. split; [vm_compute; reflexivity|].
  apply (collision_last_registration host0 collisionData collisionNodeMap);
    vm_compute; reflexivity.
Defined.

(** "Circular No. 01" is registered before "Circular No. 1" under the same
    key, and the reference of "Circular No. 5" resolves to the second. *)
Lemma collision_first_registration_counterexample :
  registered (extractAll host0 collisionData)
  = ["Circular No. 01"; "Circular No. 1"; "Circular No. 5"]
  /\ normalizeTitle host0 "Circular No. 01" = "circular no 1"
  /\ normalizeTitle host0 "Circular No. 1" = "circular no 1"
  /\ edges (extractAll host0 collisionData)
     = [{| e_source := "Circular No. 5"; e_target := "circular no 1";
           e_refType := circular; e_refTitle := "Circular No. 1"; e_refUrl := "" |}]
  /\ (v_target <$> validEdges
        (validateEdges (edges (extractAll host0 collisionData)) collisionNodeMap
           (nodeIdToNormalizedId (extractAll host0 collisionData))))
     = ["Circular No. 1"]
  /\ "Circular No. 1" <> "Circular No. 01".
Proof. repeat split; try (vm_compute; reflexivity). discriminate. Qed.


(** The same with a no-break space: "Circular No. 5" and the id with U+00A0
    in the place of the space have one key, and the reference to the first
    resolves to the second, which is registered last. *)
Lemma collision_no_break_space :
  registered (extractAll host0 spacedData)
  = ["Circular No. 5"; "Circular No. 5"; "Circular No. 9"]
  /\ normalizeTitle host0 "Circular No. 5" = "circular no 5"
  /\ normalizeTitle host0 "Circular No. 5" = "circular no 5"
  /\ forall nodeMap,
       deduplicateNodes (nodes (extractAll host0 spacedData)) = Some nodeMap ->
       (v_target <$> validEdges
          (validateEdges (edges (extractAll host0 spacedData)) nodeMap
             (nodeIdToNormalizedId (extractAll host0 spacedData))))
       = ["Circular No. 5"].
Proof.
  split; [vm_compute; reflexivity|]. split; [vm_compute; reflexivity|].
  split; [vm_compute; reflexivity|]. intros nodeMap. vm_compute.
  by intros [= <-].
Qed.

(** ** Merging two records *)

Lemma backfill_if {A} (nonEmpty : A -> bool) (kept other : A) :
  (if nonEmpty other && negb (nonEmpty kept) then other else kept)
  = backfill nonEmpty kept other.
Proof. unfold backfill. by destruct (nonEmpty other), (nonEmpty kept). Qed.

Lemma withTitle_if (c : bool) t e :
  (if c then withTitle t e else e) = withTitle (if c then t else n_title e) e.
Proof. by destruct c, e. Qed.

Lemma withDate_if (c : bool) d e :
  (if c then withDate d e else e) = withDate (if c then d else n_date e) e.
Proof. by destruct c, e. Qed.

Lemma withYear_if (c : bool) y e :
  (if c then withYear y e else e) = withYear (if c then y else n_year e) e.
Proof. by destruct c, e. Qed.

Lemma withUrl_if (c : bool) u e :
  (if c then withUrl u e else e) = withUrl (if c then u else n_url e) e.
Proof. by destruct c, e. Qed.

(** The content step does not throw unless the kept record has no content
    field and the other record has a content that is not empty. *)
Lemma mergeContent_backfill e b :
  (n_content e = None -> nonEmptyContent (n_content b) = false) ->
  mergeContent e b
  = Some (withContent (backfill nonEmptyContent (n_content e) (n_content b)) e).
Proof.
  intros Hc. unfold mergeContent, backfill.
  destruct e as [? ? ? ? ? ? ? c ? ? ?]. simpl in *.
  destruct c as [ce|].
  - by destruct (n_content b) as [[|? ?]|], ce as [|? ?].
  - specialize (Hc eq_refl). by destruct (n_content b) as [[|? ?]|].
Qed.

(** The kept record after the merge, when the guard lets the second
    record in. *)
Lemma mergeInto_steps (a b : Node) :
  (n_content a = None -> nonEmptyContent (n_content b) = false) ->
  negb (n_fromCache b) || n_fromCache a = true ->
  mergeInto a b
  = Some (withFromCache
            (if negb (n_fromCache a) then n_fromCache b else n_fromCache a)
            (backfilled a b)).
Proof.
  intros Hc Hg. unfold mergeInto. rewrite Hg.
  rewrite withTitle_if, withDate_if, withYear_if, withUrl_if. cbn zeta.
  rewrite mergeContent_backfill by (by destruct a).
  f_equal.
  destruct a as [i l t d y dp u c ty rc fa]. cbn.
  rewrite !backfill_if. by destruct fa.
Qed.

Lemma mergeInto_backfilled (a b : Node) :
  (n_fromCache a = true -> n_fromCache b = true) ->
  (n_fromCache a = n_fromCache b ->
   n_content a = None -> nonEmptyContent (n_content b) = false) ->
  mergeInto a b
  = Some (if negb (n_fromCache a) && n_fromCache b then a else backfilled a b).
Proof.
  intros Hprov Hc.
  destruct (n_fromCache a) eqn:Ea, (n_fromCache b) eqn:Eb;
    try (specialize (Hprov eq_refl); discriminate).
  - rewrite mergeInto_steps by (by rewrite ?Ea, ?Eb; auto). rewrite Ea. simpl.
    f_equal. destruct a; simpl in *. by subst.
  - unfold mergeInto. by rewrite Ea, Eb.
  - rewrite mergeInto_steps by (by rewrite ?Ea, ?Eb; auto). rewrite Ea, Eb. simpl.
    f_equal. destruct a; simpl in *. by subst.
Qed.

(** C3 (amended). Two records with the same id are deduplicated, and the
    first is not a cache record followed by an authoritative one. Then the
    record met first is kept, none of its non-empty fields is replaced, and
    the merged node has the provenance of the record met first. A cache
    record that follows an authoritative one is ignored; when both records
    are authoritative or both from the cache, the empty title, date, year,
    url and content of the kept record are backfilled from the second
    record. Of two records of one provenance, the first without a content
    field and the second with a content that is not empty, nothing is
    said. *)
Theorem dedup_first_record_kept (a b : Node) :
  n_id a = n_id b ->
  (n_fromCache a = true -> n_fromCache b = true) ->
  (n_fromCache a = n_fromCache b ->
   n_content a = None -> nonEmptyContent (n_content b) = false) ->
  exists m,
    deduplicateNodes [a; b] = Some [(n_id a, m)]
    /\ m = (if negb (n_fromCache a) && n_fromCache b then a else backfilled a b)
    /\ n_fromCache m = n_fromCache a.
Proof.
  intros Hid Hprov Hc. eexists. split; [|split; [reflexivity|]].
  - unfold deduplicateNodes. simpl. rewrite <- Hid, eqb_refl.
    by rewrite mergeInto_backfilled.
  - by destruct (negb (n_fromCache a) && n_fromCache b).
Qed.

(** Two authoritative records: the empty title, date, year and url of the
    first are backfilled from the second. *)
Lemma dedup_first_record_kept_witness :
  n_id sparse = n_id fromMain
  /\ (n_fromCache sparse = true -> n_fromCache fromMain = true)
  /\ (n_fromCache sparse = n_fromCache fromMain ->
      n_content sparse = None -> nonEmptyContent (n_content fromMain) = false)
  /\ exists m,
       deduplicateNodes [sparse; fromMain] = Some [(n_id sparse, m)]
       /\ m = backfilled sparse fromMain
       /\ n_fromCache m = n_fromCache sparse
       /\ n_title m = n_title fromMain
       /\ n_date m = n_date fromMain
       /\ n_year m = n_year fromMain
       /\ n_url m = n_url fromMain.
Proof.
  split; [reflexivity|]. split; [discriminate|]. split; [discriminate|].
  destruct (dedup_first_record_kept sparse fromMain eq_refl)
    as (m & Hm & -> & Hf); [discriminate|discriminate|].
  eexists. split; [exact Hm|]. repeat split.
Defined.

(** The cache record is met first: the authoritative title does not win and
    the merged node stays a cache node. The authoritative record is met
    first: its empty content is not backfilled from the cache record. *)
Lemma dedup_order_counterexample :
  n_id fromCacheFile = n_id fromMain
  /\ n_fromCache fromMain = false
  /\ truthy (n_title fromMain) = true
  /\ (exists m, deduplicateNodes [fromCacheFile; fromMain] = Some [(n_id fromMain, m)]
                /\ n_title m = n_title fromCacheFile
                /\ n_title m <> n_title fromMain
                /\ n_fromCache m = true)
  /\ (exists m, deduplicateNodes [fromMain; fromCacheFile] = Some [(n_id fromMain, m)]
                /\ n_content m = Some []
                /\ nonEmptyContent (n_content fromCacheFile) = true).
Proof.
  split; [reflexivity|]. split; [reflexivity|]. split; [reflexivity|]. split.
  - eexists. split; [vm_compute; reflexivity|]. simpl.
    split; [reflexivity|]. split; [discriminate|reflexivity].
  - eexists. split; [vm_compute; reflexivity|]. split; reflexivity.
Qed.

(** ** Cycle detection *)

(** C1 (does not hold). In the graph built from three circulars where A and
    B refer to each other, A refers to C and C refers to B, the references
    A -> C -> B -> A form a closed path of circular-type edges. The search
    reaches C after B has been left, finds B visited and not on the
    recursion stack, and does not descend: the only cycle returned is
    A -> B -> A, and C is not marked as a node of a cycle. *)
Theorem detectCycles_misses_cycle :
  exists g info,
    buildGraph host0 triangleData = Some g
    /\ map id (g_nodes g) = ["A"; "B"; "C"]
    /\ map (fun e => (source e, target e, edge_id e)) (g_edges g)
       = [("A", "B", "edge_A_B_0"); ("A", "C", "edge_A_C_1");
          ("B", "A", "edge_B_A_2"); ("C", "B", "edge_C_B_3")]
    /\ detectCycles (g_nodes g) (g_edges g) = Some info
    /\ info_cycles info
       = [{| cycle_nodes := ["A"; "B"];
             cycle_edges := ["edge_A_B_0"; "edge_B_A_2"];
             cycle_length := 2 |}]
    /\ closedPath (g_edges g) ["A"; "C"; "B"]
         ["edge_A_C_1"; "edge_C_B_3"; "edge_B_A_2"]
    /\ "C" ∉ info_nodesInCycles info.
Proof.
  eexists _, _. split; [vm_compute; reflexivity|].
  split; [reflexivity|]. split; [reflexivity|].
  split; [vm_compute; reflexivity|]. split; [reflexivity|]. split.
  - simpl. split; [|split; [|split; [|exact I]]]; eexists.
    + split; [do 1 right; left|by repeat split].
    + split; [do 3 right; left|by repeat split].
    + split; [do 2 right; left|by repeat split].
  - apply (bool_decide_unpack _). vm_compute. exact I.
Qed.

(** ** Every reported cycle is a closed path *)

Lemma addEdge_adjacent E adjList e :
  e ∈ E -> adjacent E adjList -> adjacent E (addEdge adjList e).
Proof.
  intros He Ha. unfold addEdge.
  destruct (Kind_eqb (refType e) circular) eqn:Ek; [|done].
  destruct (adjList !! source e) as [l0|] eqn:El; [|done].
  intros s l nb Hl Hnb. destruct (decide (source e = s)) as [<-|Hne].
  - rewrite lookup_insert_eq in Hl. injection Hl as <-.
    apply elem_of_app in Hnb as [Hnb|Hnb%list_elem_of_singleton].
    + by apply (Ha _ l0).
    + subst nb. exists e. simpl. destruct (refType e); done.
  - rewrite lookup_insert_ne in Hl by done. by apply (Ha s l).
Qed.

Lemma addNode_fold_empty nodes : forall m : gmap string (list Neighbor),
  (forall s l, m !! s = Some l -> l = []) ->
  forall s l, fold_left addNode nodes m !! s = Some l -> l = [].
Proof.
  induction nodes as [|n ns IH]; intros m Hm; [done|]. simpl. apply IH.
  intros s l. unfold addNode. destruct (decide (id n = s)) as [<-|Hne].
  - rewrite lookup_insert_eq. by intros [= <-].
  - rewrite lookup_insert_ne by done. apply Hm.
Qed.

Lemma addEdge_fold_adjacent E es :
  (forall e, e ∈ es -> e ∈ E) ->
  forall m, adjacent E m -> adjacent E (fold_left addEdge es m).
Proof.
  induction es as [|e es IH]; intros Hsub m Hm; [done|].
  simpl. apply IH.
  - intros e' He'. apply Hsub. by right.
  - apply addEdge_adjacent; [apply Hsub; left|done].
Qed.

Lemma buildAdjacencyList_adjacent nodes edges :
  adjacent edges (buildAdjacencyList nodes edges).
Proof.
  apply addEdge_fold_adjacent; [done|].
  intros s l nb Hl Hnb.
  apply addNode_fold_empty in Hl.
  - subst l. by apply elem_of_nil in Hnb.
  - intros s' l'. by rewrite lookup_empty.
Qed.

(** *** Walks *)

Lemma last_cons_default (v v' : string) vs :
  List.last (v' :: vs) v = List.last vs v'.
Proof.
  revert v v'. induction vs as [|a vs IH]; intros v v'; [done|].
  change (List.last (v' :: a :: vs) v) with (List.last (a :: vs) v).
  by rewrite (IH v a), (IH v' a).
Qed.

Lemma last_snoc_default (v x : string) vs : List.last (vs ++ [x]) v = x.
Proof. induction vs as [|a [|b vs] IH]; try done. Qed.

Lemma walk_snoc E v vs es t e :
  walk E v vs es -> circularEdge E (List.last vs v) t e ->
  walk E v (vs ++ [t]) (es ++ [e]).
Proof.
  revert v es. induction vs as [|v' vs IH]; intros v es Hw He.
  - destruct es; [|by simpl in Hw]. simpl in *. done.
  - destruct es as [|e' es]; [by simpl in Hw|]. destruct Hw as [H1 Hw].
    simpl. split; [done|]. apply IH; [done|]. by rewrite <- (last_cons_default v).
Qed.

Lemma walk_drop E i : forall v vs es x rest,
  walk E v vs es -> drop i (v :: vs) = x :: rest ->
  walk E x rest (drop i es) /\ List.last rest x = List.last vs v.
Proof.
  induction i as [|i IH]; intros v vs es x rest Hw Hd.
  - simpl in Hd. by injection Hd as -> ->.
  - simpl in Hd. destruct vs as [|v' vs]; [by rewrite drop_nil in Hd|].
    destruct es as [|e es]; [by simpl in Hw|]. destruct Hw as [_ Hw].
    destruct (IH _ _ _ _ _ Hw Hd) as [H1 H2]. split; [done|].
    by rewrite H2, last_cons_default.
Qed.

Lemma indexOf_drop path x i :
  indexOf path x = Some i -> exists rest, drop i path = x :: rest.
Proof.
  revert i. induction path as [|y r IH]; intros i; simpl; [done|].
  destruct (eqb y x) eqn:E.
  - apply eqb_eq in E as ->. intros [= <-]. by exists r.
  - destruct (indexOf r x) as [j|]; [|done]. simpl. intros [= <-]. by apply IH.
Qed.

(** *** The search *)

Lemma closeCycle_sound E v vs edgePath nb st :
  walk E v vs edgePath ->
  circularEdge E (List.last vs v) (nb_target nb) (nb_edgeId nb) ->
  sound E st -> sound E (closeCycle (v :: vs) edgePath nb st).
Proof.
  intros Hw He Hs. unfold closeCycle.
  destruct (indexOf (v :: vs) (nb_target nb)) as [i|] eqn:Ei; [|done].
  destruct (indexOf_drop _ _ _ Ei) as [rest Hd].
  destruct (walk_drop _ _ _ _ _ _ _ Hw Hd) as [Hw' Hl].
  unfold sound. simpl. apply Forall_app. split; [done|]. constructor; [|done].
  split; [|done]. simpl. rewrite Hd. simpl. apply walk_snoc; [done|].
  by rewrite Hl.
Qed.

Lemma visitNeighbors_sound E descend v vs edgePath neighbors :
  (forall t ep st st',
      walk E v (vs ++ [t]) ep -> sound E st ->
      descend t (v :: vs) ep st = Some st' -> sound E st') ->
  walk E v vs edgePath ->
  (forall nb, nb ∈ neighbors ->
     circularEdge E (List.last vs v) (nb_target nb) (nb_edgeId nb)) ->
  forall st st', sound E st ->
    visitNeighbors descend (v :: vs) edgePath neighbors st = Some st' ->
    sound E st'.
Proof.
  intros Hdesc Hw. induction neighbors as [|nb rest IH]; intros Hnb st st' Hs; simpl.
  - by intros [= <-].
  - assert (Hrest : forall nb', nb' ∈ rest ->
      circularEdge E (List.last vs v) (nb_target nb') (nb_edgeId nb')).
    { intros nb' ?. apply Hnb. by right. }
    assert (Hhead := Hnb nb (list_elem_of_here _ _)).
    destruct (bool_decide (nb_target nb ∈ recursionStack st)).
    { apply (IH Hrest). by apply closeCycle_sound. }
    destruct (bool_decide (nb_target nb ∉ visited st)); [|by apply (IH Hrest)].
    destruct (descend _ _ _ st) as [st1|] eqn:Ed; [|done].
    apply (IH Hrest). eapply Hdesc; [|exact Hs|exact Ed]. by apply walk_snoc.
Qed.

Lemma dfs_sound E adjList fuel : adjacent E adjList ->
  forall nodeId path edgePath st st',
    match path ++ [nodeId] with
    | v :: vs => walk E v vs edgePath
    | [] => False
    end ->
    sound E st ->
    dfs fuel adjList nodeId path edgePath st = Some st' -> sound E st'.
Proof.
  intros Ha. induction fuel as [|fuel IH]; intros nodeId path edgePath st st' Hw Hs;
    [done|].
  simpl. destruct (visitNeighbors _ _ _ _ _) as [st1|] eqn:Ev; [|done].
  intros [= <-]. revert Ev.
  destruct (path ++ [nodeId]) as [|v vs] eqn:Ep; [done|].
  assert (Hlast : List.last vs v = nodeId).
  { rewrite <- (last_cons_default v), <- Ep. apply last_snoc_default. }
  intros Ev. assert (Hs1 : sound E st1); [|exact Hs1].
  eapply (visitNeighbors_sound E _ v vs); [| exact Hw | | | exact Ev].
  - intros t ep s s' Hwt Hss Hd. eapply (IH t (v :: vs)); [|exact Hss|exact Hd].
    exact Hwt.
  - intros nb Hnb. rewrite Hlast. destruct (adjList !! nodeId) as [l|] eqn:El.
    + by apply (Ha _ l).
    + by apply elem_of_nil in Hnb.
  - exact Hs.
Qed.

(** Every cycle that [detectCycles] reports is a closed path of
    circular-type edges of the graph. *)
Lemma detectCycles_sound nodes edges info :
  detectCycles nodes edges = Some info ->
  Forall (genuine edges) (info_cycles info).
Proof.
  unfold detectCycles.
  set (adjList := buildAdjacencyList nodes edges).
  set (fuel := depthBound nodes edges).
  set (st0 := {| visited := ∅; recursionStack := ∅; cycles := [];
                 nodesInCycles := ∅; edgesInCycles := ∅ |}).
  assert (Hfold : forall ns st st', sound edges st ->
            fold_left (startFrom fuel adjList) ns (Some st) = Some st' ->
            sound edges st').
  { induction ns as [|n ns IH]; intros st st' Hs; cbn [fold_left startFrom];
      [by intros [= <-]|].
    destruct (bool_decide (id n ∉ visited st)); [|by apply IH].
    destruct (dfs fuel adjList (id n) [] [] st) as [st1|] eqn:Ed.
    - apply IH. eapply dfs_sound; [apply buildAdjacencyList_adjacent| |exact Hs|exact Ed].
      done.
    - clear. induction ns; cbn [fold_left startFrom]; [done|]. exact IHns. }
  destruct (fold_left _ nodes (Some st0)) as [st|] eqn:Ef; [|done].
  intros [= <-]. simpl. apply (Hfold nodes st0 st); [constructor|exact Ef].
Qed.

(** ** The search terminates within the bound *)

Lemma size_list_to_set_le (l : list string) :
  size (list_to_set l : gset string) <= length l.
Proof.
  induction l as [|x l IH]; [by rewrite list_to_set_nil, size_empty|].
  rewrite list_to_set_cons, size_union_alt, size_singleton. cbn [length].
  pose proof (subseteq_size (list_to_set l ∖ {[x]}) (list_to_set l : gset string)
                ltac:(set_solver)).
  lia.
Qed.

Lemma universe_size nodes edges :
  size (universe nodes edges) < depthBound nodes edges.
Proof.
  unfold universe, depthBound. rewrite size_union_alt.
  pose proof (size_list_to_set_le (map id nodes)) as H1.
  pose proof (size_list_to_set_le (map target edges)) as H2.
  pose proof (subseteq_size
                (list_to_set (map target edges) ∖ list_to_set (map id nodes))
                (list_to_set (map target edges) : gset string)
                ltac:(set_solver)) as H3.
  rewrite !length_map in *. lia.
Qed.

Lemma closeCycle_visited path edgePath nb st :
  visited (closeCycle path edgePath nb st) = visited st.
Proof. unfold closeCycle. by destruct (indexOf _ _). Qed.

Section Termination.
Variable U : gset string.

Lemma visitNeighbors_returns n descend path edgePath neighbors :
  returns U n descend ->
  (forall nb, nb ∈ neighbors -> nb_target nb ∈ U) ->
  forall st, visited st ⊆ U -> size (U ∖ visited st) <= n ->
    exists st', visitNeighbors descend path edgePath neighbors st = Some st'
                /\ visited st ⊆ visited st' /\ visited st' ⊆ U.
Proof.
  intros Hd. induction neighbors as [|nb rest IH]; intros Hnb st Hsub Hsize; simpl.
  - by exists st.
  - assert (Hrest : forall nb', nb' ∈ rest -> nb_target nb' ∈ U).
    { intros nb' ?. apply Hnb. by right. }
    destruct (bool_decide (nb_target nb ∈ recursionStack st)).
    { destruct (IH Hrest (closeCycle path edgePath nb st)) as (st' & H1 & H2 & H3);
        rewrite ?closeCycle_visited; try done.
      exists st'. by rewrite closeCycle_visited in H2. }
    destruct (bool_decide (nb_target nb ∉ visited st)) eqn:Ev; [|by apply IH].
    apply bool_decide_eq_true in Ev.
    destruct (Hd (nb_target nb) path (edgePath ++ [nb_edgeId nb]) st)
      as (st1 & -> & Hs1 & Hu1); try done.
    { apply Hnb. left. }
    destruct (IH Hrest st1 Hu1) as (st' & H1 & H2 & H3).
    { etrans; [|exact Hsize]. apply subseteq_size. set_solver. }
    exists st'. split; [done|]. split; [set_solver|done].
Qed.

Lemma dfs_returns adjList fuel :
  (forall s l nb, adjList !! s = Some l -> nb ∈ l -> nb_target nb ∈ U) ->
  returns U fuel (dfs fuel adjList).
Proof.
  intros Ha. induction fuel as [|fuel IH]; intros t path ep st Ht Hv Hsub Hsize.
  - exfalso. assert (size (U ∖ visited st) ≠ 0); [|lia].
    apply size_non_empty_iff. set_solver.
  - simpl.
    destruct (visitNeighbors_returns fuel (dfs fuel adjList) (path ++ [t]) ep
                (default [] (adjList !! t)) IH) with (st := enter t st)
      as (st' & -> & H2 & H3).
    + intros nb Hnb. destruct (adjList !! t) as [l|] eqn:El.
      * by apply (Ha t l).
      * by apply elem_of_nil in Hnb.
    + simpl. set_solver.
    + simpl.
      assert (Hsplit : U ∖ visited st = {[t]} ∪ U ∖ ({[t]} ∪ visited st)).
      { apply set_eq. intros x. destruct (decide (x = t)); set_solver. }
      rewrite Hsplit, size_union, size_singleton in Hsize by set_solver. lia.
    + exists (leave t st'). simpl in *. split; [done|]. split; [set_solver|done].
Qed.
End Termination.

Lemma adjacent_universe nodes edges s l nb :
  buildAdjacencyList nodes edges !! s = Some l -> nb ∈ l ->
  nb_target nb ∈ universe nodes edges.
Proof.
  intros Hl Hnb.
  destruct (buildAdjacencyList_adjacent nodes edges s l nb Hl Hnb)
    as (e & He & _ & _ & Ht & _).
  unfold universe. apply elem_of_union_r, elem_of_list_to_set, list_elem_of_fmap.
  by exists e.
Qed.

(** [detectCycles] never reaches the bound on the recursion. *)
Lemma detectCycles_returns nodes edges :
  exists info, detectCycles nodes edges = Some info.
Proof.
  unfold detectCycles.
  set (adjList := buildAdjacencyList nodes edges).
  set (U := universe nodes edges).
  set (st0 := {| visited := ∅; recursionStack := ∅; cycles := [];
                 nodesInCycles := ∅; edgesInCycles := ∅ |}).
  assert (Hfold : forall ns st,
            (forall n, n ∈ ns -> id n ∈ U) -> visited st ⊆ U ->
            exists st', fold_left (startFrom (depthBound nodes edges) adjList) ns
                          (Some st) = Some st').
  { induction ns as [|n ns IH]; intros st Hns Hsub; cbn [fold_left startFrom];
      [by exists st|].
    assert (Hrest : forall n', n' ∈ ns -> id n' ∈ U).
    { intros n' ?. apply Hns. by right. }
    destruct (bool_decide (id n ∉ visited st)) eqn:Ev; [|by apply IH].
    apply bool_decide_eq_true in Ev.
    destruct (dfs_returns U adjList (depthBound nodes edges)
                (adjacent_universe nodes edges) (id n) [] [] st)
      as (st1 & -> & _ & Hu1); try done.
    - apply Hns. left.
    - etrans; [apply subseteq_size|apply Nat.lt_le_incl, universe_size].
      set_solver.
    - by apply IH. }
  destruct (Hfold nodes st0) as [st ->]; [| |by eexists].
  - intros n Hn. unfold U, universe.
    apply elem_of_union_l, elem_of_list_to_set, list_elem_of_fmap. by exists n.
  - simpl. set_solver.
Qed.


(** ** Filters *)

Ltac settle :=
  simpl; split; intros;
  repeat match goal with
         | H : _ \/ _ |- _ => destruct H
         | H : _ /\ _ |- _ => destruct H
         end;
  first [done | by left | right; by split | right; done].

Lemma setHas_elem s x : setHas s x = true <-> x ∈ s.
Proof.
  unfold setHas. rewrite existsb_exists. split.
  - intros (y & Hin & ->%eqb_eq). by apply list_elem_of_In.
  - intros Hin. exists x. split; [by apply list_elem_of_In|apply eqb_refl].
Qed.

Lemma degree_reset edges i :
  degree (map (fun ec : CyEdge * Classes => (ec.1, noClass)) edges) i = degree edges i.
Proof.
  unfold degree. f_equal.
  - induction edges as [|e es IH]; [done|]. simpl. rewrite !filter_cons. simpl.
    destruct (decide (source e.1 = i)); simpl; by rewrite IH.
  - induction edges as [|e es IH]; [done|]. simpl. rewrite !filter_cons. simpl.
    destruct (decide (target e.1 = i)); simpl; by rewrite IH.
Qed.

Lemma applyFilters_nodes host f cy :
  cy_nodes (applyFiltersTo host f cy)
  = map (fun nc => (nc.1, classesOf host f (cy_edges cy) nc.1)) (cy_nodes cy).
Proof.
  unfold applyFiltersTo, forEachNode. simpl. rewrite !map_map.
  apply map_ext. intros [n c]. simpl. unfold classesOf. f_equal.
  unfold byIsolated. by rewrite degree_reset.
Qed.

Lemma hidden_byDepartment f n :
  hidden (byDepartment f n noClass) = true <-> departmentExcluded f n.
Proof.
  unfold byDepartment, departmentExcluded. rewrite <- setHas_elem.
  destruct (setHas (departments f) (dept n)); simpl; split; try done.
Qed.

Lemma hidden_byYear f n c :
  hidden (byYear f n c) = true <-> hidden c = true \/ nonZeroYearOutOfRange f n.
Proof.
  unfold byYear, nonZeroYearOutOfRange. destruct (year n) as [y|].
  - destruct (Z.eqb_spec y 0) as [->|Hy]; simpl.
    + split; [by left|]. intros [?|(y & [= <-] & ? & _)]; done.
    + destruct (Z.ltb_spec y (yearMin f)); simpl.
      { split; [|done]. intros _. right. exists y. auto. }
      destruct (Z.ltb_spec (yearMax f) y); simpl.
      { split; [|done]. intros _. right. exists y. auto. }
      split; [by left|]. intros [?|(y' & [= <-] & _ & [?|?])]; [done|lia|lia].
  - split; [by left|]. by intros [?|(y & [=] & _)].
Qed.

Lemma hidden_bySearch host f n c : hidden (bySearch host f n c) = hidden c.
Proof. unfold bySearch. by repeat case_match. Qed.

Lemma hidden_byCycles f n c :
  hidden (byCycles f n c) = true <-> hidden c = true \/ cyclesOnlyExcluded f n.
Proof.
  unfold byCycles, cyclesOnlyExcluded.
  destruct c as [[] d], (showCyclesOnly f), (inCycle n); settle.
Qed.

Lemma hidden_byIsolated f edges n c :
  hidden (byIsolated f edges n c) = true
  <-> hidden c = true \/ isolatedExcluded f edges n.
Proof.
  unfold byIsolated, isolatedExcluded.
  destruct c as [[] d], (showIsolated f),
    (Nat.eqb_spec (degree edges (id n)) 0); settle.
Qed.

Lemma hidden_classesOf host f edges n :
  hidden (classesOf host f edges n) = true
  <-> departmentExcluded f n \/ nonZeroYearOutOfRange f n
      \/ cyclesOnlyExcluded f n \/ isolatedExcluded f edges n.
Proof.
  unfold classesOf.
  rewrite hidden_byIsolated, hidden_byCycles, hidden_bySearch, hidden_byYear,
    hidden_byDepartment.
  tauto.
Qed.

(** C2 (amended). After the filters have been applied a node is hidden if
    and only if one of four conditions holds: its department is not in the
    allowed set; its year is present, is not 0 and lies outside
    [yearMin, yearMax] (nodes without a year, and nodes with the year 0, are
    exempt); only cycles are shown and the node is in no cycle; isolated
    nodes are not shown and the degree of the node is 0. *)
Theorem node_hidden_iff (host : Host) (f : FilterState) (cy : Cy) (n : CyNode)
    (c : Classes) :
  (n, c) ∈ cy_nodes (applyFiltersTo host f cy) ->
  hidden c = true
  <-> departmentExcluded f n \/ nonZeroYearOutOfRange f n
      \/ cyclesOnlyExcluded f n \/ isolatedExcluded f (cy_edges cy) n.
Proof.
  rewrite applyFilters_nodes.
  intros ([n0 c0] & [= -> ->] & _)%list_elem_of_fmap. apply hidden_classesOf.
Qed.

Lemma node_hidden_iff_witness :
  let f := allowing [] "" in
  let c := {| hidden := true; dimmed := false |} in
  (dated, c) ∈ cy_nodes (applyFiltersTo host0 f viewer)
  /\ (hidden c = true
      <-> departmentExcluded f dated \/ nonZeroYearOutOfRange f dated
          \/ cyclesOnlyExcluded f dated
          \/ isolatedExcluded f (cy_edges viewer) dated).
Proof.
  assert (H : (dated, {| hidden := true; dimmed := false |})
              ∈ cy_nodes (applyFiltersTo host0 (allowing [] "") viewer)).
  { vm_compute. right. left. }
  split; [exact H|]. exact (node_hidden_iff host0 _ _ _ _ H).
Defined.

(** The graph built from a circular dated [0000-00-00] that refers to a
    dated one is the graph of [viewer]. *)
Lemma viewer_built :
  (fun g => (g_nodes g, g_edges g)) <$> buildGraph host0 zeroDateData
  = Some ([undated; dated], [link]).
Proof. vm_compute. reflexivity. Qed.

(** The circular dated [0000-00-00] has the year 0, which lies outside
    [2000, 2025]; its department is allowed, all nodes are shown and it has
    an edge; it is not hidden. *)
Lemma year_zero_counterexample :
  let f := allowing ["BPRD"] "" in
  (undated, {| hidden := false; dimmed := false |})
    ∈ cy_nodes (applyFiltersTo host0 f viewer)
  /\ year undated = extractYearFromDate "0000-00-00"
  /\ yearOutOfRange f undated.
Proof.
  split; [vm_compute; left|]. split; [reflexivity|].
  exists 0%Z. split; [reflexivity|]. left. reflexivity.
Qed.

(** *** Dimming *)

Lemma dimmed_classesOf host f edges n :
  dimmed (classesOf host f edges n) = true
  <-> searchQuery f <> ""
      /\ matches host f n = false
      /\ ~ departmentExcluded f n
      /\ ~ nonZeroYearOutOfRange f n.
Proof.
  assert (Hh : hidden (byYear f n (byDepartment f n noClass)) = false
               <-> ~ departmentExcluded f n /\ ~ nonZeroYearOutOfRange f n).
  { rewrite <- not_true_iff_false, hidden_byYear, hidden_byDepartment. tauto. }
  assert (Hd : dimmed (byYear f n (byDepartment f n noClass)) = false).
  { unfold byYear, byDepartment. by repeat case_match. }
  unfold classesOf.
  assert (Hkeep : forall c, dimmed (byIsolated f edges n (byCycles f n c)) = dimmed c).
  { intros c. unfold byIsolated, byCycles. by repeat case_match. }
  rewrite Hkeep. unfold bySearch.
  destruct (searchQuery f) as [|a q] eqn:Eq; simpl.
  { rewrite Hd. split; [done|]. by intros [? _]. }
  destruct (matches host f n); simpl.
  { rewrite Hd. split; [done|]. by intros (_ & ? & _). }
  destruct (hidden (byYear f n (byDepartment f n noClass))) eqn:E; simpl.
  - rewrite Hd. split; [done|]. intros (_ & _ & H). apply Hh in H. congruence.
  - split; [|done]. intros _. split; [done|]. split; [done|]. by apply Hh.
Qed.

Lemma matches_containsCI host f n :
  toLowerCase host (searchQuery f) = searchQuery f ->
  matches host f n = containsCI host (id n) (searchQuery f)
                || containsCI host (title n) (searchQuery f).
Proof. intros H. unfold matches, containsCI. by rewrite H. Qed.

(** C6 (amended). For a filter state whose search string is in lower case,
    as the search handler stores it, a node is dimmed after the filters have
    been applied if and only if the search string is not empty, neither the
    id nor the title of the node contains it, letter case apart, and the
    node is not hidden by its department or by its year. Whether only cycles
    are shown and whether isolated nodes are shown has no part in it. *)
Theorem node_dimmed_iff (host : Host) (f : FilterState) (cy : Cy) (n : CyNode)
    (c : Classes) :
  toLowerCase host (searchQuery f) = searchQuery f ->
  (n, c) ∈ cy_nodes (applyFiltersTo host f cy) ->
  dimmed c = true
  <-> searchQuery f <> ""
      /\ containsCI host (id n) (searchQuery f) = false
      /\ containsCI host (title n) (searchQuery f) = false
      /\ ~ departmentExcluded f n
      /\ ~ nonZeroYearOutOfRange f n.
Proof.
  intros Hq. rewrite applyFilters_nodes.
  intros ([n0 c0] & [= -> ->] & _)%list_elem_of_fmap. simpl.
  rewrite dimmed_classesOf, (matches_containsCI _ _ _ Hq), orb_false_iff. tauto.
Qed.

Lemma node_dimmed_iff_witness :
  let f := allowing ["BPRD"] "prudential" in
  let c := {| hidden := false; dimmed := true |} in
  toLowerCase host0 (searchQuery f) = searchQuery f
  /\ (dated, c) ∈ cy_nodes (applyFiltersTo host0 f viewer)
  /\ (dimmed c = true
      <-> searchQuery f <> ""
          /\ containsCI host0 (id dated) (searchQuery f) = false
          /\ containsCI host0 (title dated) (searchQuery f) = false
          /\ ~ departmentExcluded f dated
          /\ ~ nonZeroYearOutOfRange f dated).
Proof.
  assert (H : (dated, {| hidden := false; dimmed := true |})
              ∈ cy_nodes (applyFiltersTo host0 (allowing ["BPRD"] "prudential") viewer)).
  { vm_compute. right. left. }
  split; [reflexivity|]. split; [exact H|].
  exact (node_dimmed_iff host0 (allowing ["BPRD"] "prudential") _ _ _ eq_refl H).
Defined.

(** The department of the node is not allowed and the search string occurs
    neither in its id nor in its title: the node is hidden and not dimmed. *)
Lemma dimmed_counterexample :
  let f := allowing [] "prudential" in
  (dated, {| hidden := true; dimmed := false |})
    ∈ cy_nodes (applyFiltersTo host0 f viewer)
  /\ searchQuery f <> ""
  /\ containsCI host0 (id dated) (searchQuery f) = false
  /\ containsCI host0 (title dated) (searchQuery f) = false.
Proof.
  split; [vm_compute; right; left|]. split; [discriminate|].
  split; vm_compute; reflexivity.
Qed.

(** Letter case apart: the capital letters with an accent match as
    well. *)
Lemma containsCI_accent :
  containsCI host0 "RÉSUMÉ of rules" "résumé" = true
  /\ matches host0 (allowing ["BPRD"] "résumé")
       {| id := "C1"; label := "C1"; title := "RÉSUMÉ of rules";
          date := Some ""; year := None; dept := "BPRD";
          departmentColor := Hex "#6699ff"; url := ""; content := Some [];
          type := circular; refCount := 0; fromCache := false;
          inCycle := false; cycleIds := [] |} = true.
Proof. split; vm_compute; reflexivity. Qed.

(** The search handler stores the string in lower case. *)
Lemma trim_lowercase host s :
  caseByCodePoint (toLowerCase host) ->
  toLowerCase host (trim (toLowerCase host s)) = trim (toLowerCase host s).
Proof.
  intros (stable & Hfix & Hidem & Hascii). apply Hfix. unfold trim.
  apply (edit_stable stable Hascii false _ _ (trimEnd_edit _ false)).
  apply (edit_stable stable Hascii false _ _ (trimStart_edit _)).
  apply Hfix, Hidem.
Qed.

Lemma empty_lowercase host :
  caseByCodePoint (toLowerCase host) -> toLowerCase host "" = "".
Proof. intros (stable & Hfix & _). apply Hfix. constructor. Qed.

(** Every handler leaves the search string in lower case. *)
Lemma handle_lowercaseQuery host c p :
  caseByCodePoint (toLowerCase host) ->
  lowercaseQuery host p -> lowercaseQuery host (handle host c p).
Proof.
  unfold lowercaseQuery. intros Hcase Hp. destruct c; simpl; try done.
  - by destruct (_ <? _)%Z, moved.
  - by apply trim_lowercase.
  - by apply empty_lowercase.
  - unfold resetFilters. destruct (cytoscape p); [|done]. simpl.
    by apply empty_lowercase.
Qed.

(** *** Edges *)

Lemma nodeHidden_exists nodes i :
  nodeHidden nodes i = true ->
  exists n c, (n, c) ∈ nodes /\ id n = i /\ hidden c = true.
Proof.
  induction nodes as [|[n c] r IH]; simpl; [done|].
  destruct (eqb (id n) i) eqn:E.
  - apply eqb_eq in E. intros H. exists n, c. split; [left|done].
  - intros H. destruct (IH H) as (n' & c' & Hin & Hid & Hh).
    exists n', c'. split; [by right|done].
Qed.

Lemma nodeHidden_unique nodes n c :
  NoDup (map (fun nc => id nc.1) nodes) ->
  (n, c) ∈ nodes -> nodeHidden nodes (id n) = hidden c.
Proof.
  induction nodes as [|[n0 c0] r IH]; simpl; [by intros _ ?%elem_of_nil|].
  intros [Hn Hr]%NoDup_cons [[= -> ->]|Hin]%elem_of_cons.
  - by rewrite eqb_refl.
  - destruct (eqb (id n0) (id n)) eqn:E; [|by apply IH].
    apply eqb_eq in E. exfalso. apply Hn. rewrite E.
    apply list_elem_of_fmap. by exists (n, c).
Qed.

Lemma applyFilters_ids host f cy :
  map (fun nc => id nc.1) (cy_nodes (applyFiltersTo host f cy))
  = map (fun nc => id nc.1) (cy_nodes cy).
Proof. rewrite applyFilters_nodes, map_map. by apply map_ext. Qed.

Lemma applyFilters_edge host f cy e c :
  (e, c) ∈ cy_edges (applyFiltersTo host f cy) ->
  hidden c = nodeHidden (cy_nodes (applyFiltersTo host f cy)) (source e)
             || nodeHidden (cy_nodes (applyFiltersTo host f cy)) (target e).
Proof.
  unfold applyFiltersTo at 1. cbn [cy_edges]. rewrite map_map.
  intros ([e0 c0] & Heq & _)%list_elem_of_fmap. revert Heq.
  unfold hideEdge. cbn [fst snd].
  change (cy_nodes (applyFiltersTo host f cy)) with
    (forEachNode (byIsolated f (map (fun ec : CyEdge * Classes => (ec.1, noClass)) (cy_edges cy)))
       (forEachNode (byCycles f)
          (forEachNode (bySearch host f)
             (forEachNode (byYear f)
                (forEachNode (byDepartment f)
                   (map (fun nc : CyNode * Classes => (nc.1, noClass)) (cy_nodes cy))))))).
  destruct (nodeHidden _ (source e0) || nodeHidden _ (target e0)) eqn:E;
    intros [= -> ->]; by rewrite E.
Qed.

(** C5. After the filters have been applied, whatever the filter state, an
    edge is hidden if and only if one of its two end nodes is hidden; nothing
    else decides whether an edge is hidden. The ids of the nodes of the
    viewer's graph are distinct. *)
Theorem edge_hidden_iff (host : Host) (f : FilterState) (cy : Cy) (e : CyEdge)
    (c : Classes) :
  NoDup (map (fun nc => id nc.1) (cy_nodes cy)) ->
  (e, c) ∈ cy_edges (applyFiltersTo host f cy) ->
  hidden c = true
  <-> exists n cn,
        (n, cn) ∈ cy_nodes (applyFiltersTo host f cy)
        /\ (id n = source e \/ id n = target e)
        /\ hidden cn = true.
Proof.
  intros Hnd He. rewrite <- (applyFilters_ids host f cy) in Hnd.
  rewrite (applyFilters_edge _ _ _ _ _ He), orb_true_iff. split.
  - intros [H|H]; apply nodeHidden_exists in H as (n & cn & Hin & Hid & Hh);
      exists n, cn; auto.
  - intros (n & cn & Hin & [Hid|Hid] & Hh); [left|right]; rewrite <- Hid;
      by rewrite (nodeHidden_unique _ _ _ Hnd Hin).
Qed.

Lemma edge_hidden_iff_witness :
  let f := allowing [] "" in
  let c := {| hidden := true; dimmed := false |} in
  NoDup (map (fun nc => id nc.1) (cy_nodes viewer))
  /\ (link, c) ∈ cy_edges (applyFiltersTo host0 f viewer)
  /\ (hidden c = true
      <-> exists n cn,
            (n, cn) ∈ cy_nodes (applyFiltersTo host0 f viewer)
            /\ (id n = source link \/ id n = target link)
            /\ hidden cn = true).
Proof.
  assert (Hn : NoDup (map (fun nc : CyNode * Classes => id nc.1) (cy_nodes viewer))).
  { apply (bool_decide_unpack _). vm_compute. exact I. }
  assert (He : (link, {| hidden := true; dimmed := false |})
               ∈ cy_edges (applyFiltersTo host0 (allowing [] "") viewer)).
  { vm_compute. left. }
  split; [exact Hn|]. split; [exact He|].
  exact (edge_hidden_iff host0 _ _ _ _ Hn He).
Defined.

(** *** The persisted record *)

(** C9 (amended). A change of a department check box, of a year slider or of
    a display option writes the filter state to the persisted record, which
    has the six fields departments, yearMin, yearMax, showCyclesOnly,
    showLabels and showIsolated; the search string is not among them. A
    change of the search string writes nothing, and a reset removes the
    record once the graph exists; before that [resetFilters] returns at
    once and the store is left as it is. *)
Theorem persisted_on_change (host : Host) (c : Change) (p : Page) :
  match c with
  | DepartmentChange _ _ | YearChange _ _ _ | DisplayChange _ _ =>
      localStorage (handle host c p) !! "filterState"
      = Some (savedRecord (activeFilters (handle host c p)))
      /\ fieldNames (savedRecord (activeFilters (handle host c p))) = sixFields
  | SearchInput _ | ClearSearch =>
      localStorage (handle host c p) = localStorage p
  | ResetFilters =>
      localStorage (handle host c p) !! "filterState"
      = match cytoscape p with
        | Some _ => None
        | None => localStorage p !! "filterState"
        end
  end.
Proof.
  destruct c; simpl; try done.
  - split; [apply lookup_insert_eq|done].
  - split; [apply lookup_insert_eq|done].
  - split; [apply lookup_insert_eq|done].
  - unfold resetFilters. destruct (cytoscape p); [|done]. simpl.
    apply lookup_delete_eq.
Qed.

(** Typing a search string changes the filter state and leaves the store
    empty; the record written after a department change has no field
    searchQuery. *)
Lemma persisted_counterexample :
  let p := handle host0 (SearchInput "Prudential") page0 in
  searchQuery (activeFilters page0) = ""
  /\ searchQuery (activeFilters p) = "prudential"
  /\ localStorage p !! "filterState" = None
  /\ (exists r, localStorage (handle host0 (DepartmentChange "ACD" true) page0)
                !! "filterState" = Some r
                /\ "searchQuery" ∉ fieldNames r).
Proof.
  split; [reflexivity|]. split; [vm_compute; reflexivity|].
  split; [vm_compute; reflexivity|].
  eexists. split; [apply lookup_insert_eq|].
  simpl. intros H. repeat (apply elem_of_cons in H as [[=]|H]).
  by apply elem_of_nil in H.
Qed.


(** * Further properties *)

(** ** The data loader *)

(** A normalized title is in lower case, has no zero before a digit at a
    word boundary, no [no.], white space only as single spaces, and none at
    its ends. The case conversion is that of the host, of which the proof
    uses that it goes code point by code point. *)
Theorem normalizeTitle_normal (host : Host) (t : string) :
  caseByCodePoint (toLowerCase host) -> normal host (normalizeTitle host t).
Proof.
  intros Hcase. rewrite normalizeTitle_unfold.
  destruct (truthy t); [by apply normalize_normal|].
  destruct Hcase as (stable & Hfix & _ & _).
  split; try reflexivity. apply Hfix. constructor.
Qed.

Lemma normalizeTitle_normal_witness :
  caseByCodePoint (toLowerCase host0)
  /\ normalizeTitle host0 "BPRD Circular No. 05  of 2014" = "bprd circular no 5 of 2014"
  /\ normal host0 (normalizeTitle host0 "BPRD Circular No. 05  of 2014").
Proof.
  split; [exact host0_case|]. split; [reflexivity|].
  apply (normalizeTitle_normal host0 "BPRD Circular No. 05  of 2014" host0_case).
Defined.





Lemma deptPrefix_shape l p :
  deptPrefix l = Some p ->
  p <> [] /\ Forall (fun c => isDeptChar c = true) p
  /\ exists w rest, l = p ++ w :: rest /\ isSpace w = true.
Proof.
  revert p. induction l as [|c r IH]; intros p; [done|]. cbn [deptPrefix].
  destruct (isDeptChar c) eqn:Ec; [|done].
  destruct (deptPrefix r) as [q|] eqn:Er.
  - intros [= <-]. destruct (IH q eq_refl) as (_ & Hq & w & rest & -> & Hw).
    split; [done|]. split; [by constructor|]. by exists w, rest.
  - destruct r as [|w rest]; [done|]. destruct (isSpace w) eqn:Ew; [|done].
    intros [= <-]. split; [done|]. split; [by repeat constructor|].
    by exists w, rest.
Qed.

(** The department read from an id is never empty and never [ACMFD]: it is
    [Other], or [AC&MFD], or the run of capital letters and [&] that the id
    starts with and that white space follows. *)
Theorem extractDepartmentFromId_shape (circularId : string) :
  let d := extractDepartmentFromId circularId in
  d <> [] /\ d <> "ACMFD"
  /\ (d = "Other" \/ d = "AC&MFD"
      \/ (Forall (fun c => isDeptChar c = true) d
          /\ exists w rest, circularId = d ++ w :: rest /\ isSpace w = true)).
Proof.
  unfold extractDepartmentFromId.
  destruct (deptPrefix circularId) as [p|] eqn:Ep; cbn zeta.
  2:{ split; [done|]. split; [done|]. by left. }
  destruct (deptPrefix_shape _ _ Ep) as (Hne & Hp & w & rest & Hl & Hw).
  destruct (includes p "AC" && includes p "MFD").
  { split; [done|]. split; [done|]. right. by left. }
  destruct (eqb p "ACMFD") eqn:Ee.
  { split; [done|]. split; [done|]. right. by left. }
  apply eqb_neq in Ee. split; [done|]. split; [done|].
  right. right. split; [done|]. by exists w, rest.
Qed.

(** The id of a node is never empty. A circular that has an id keeps it,
    and a random number is drawn only for a circular without id, url and
    title. *)
Theorem generateNodeId_nonempty (host : Host) (draws : nat) (id url title : string) :
  let r := generateNodeId host draws id url title in
  r.1 <> []
  /\ (id <> [] -> r = (id, draws))
  /\ (r.2 = draws \/ (r.2 = S draws /\ id = [] /\ url = [] /\ title = [])).
Proof.
  unfold generateNodeId.
  destruct id as [|c s]; simpl truthy; cbv iota.
  2:{ split; [done|]. split; [done|]. by left. }
  destruct url as [|c s]; simpl truthy; cbv iota.
  2:{ split; [done|]. split; [done|]. by left. }
  destruct title as [|c s]; simpl truthy; cbv iota.
  2:{ split; [done|]. split; [done|]. by left. }
  split; [done|]. split; [done|]. by right.
Qed.


(** ** The graph builder *)

Lemma extractReferences_ext host refs refs' src dept depth a :
  Forall2 (fun r r' => forall a, extractReference host depth src dept r a
                                 = extractReference host depth src dept r' a)
    refs refs' ->
  extractReferences host (Some refs) src dept depth a
  = extractReferences host (Some refs') src dept depth a.
Proof.
  intros H. unfold extractReferences. destruct (Nat.ltb 10 depth); [done|].
  revert a. induction H as [|r r' l l' Hr _ IH]; intros a; [done|].
  simpl. rewrite Hr. apply IH.
Qed.

Lemma extractReference_prune host r : forall depth src dept a,
  depth <= 10 ->
  extractReference host depth src dept r a
  = extractReference host depth src dept (pruneRef (10 - depth) r) a.
Proof.
  induction r as [r IH] using Ref_nested_ind. intros depth src dept a Hd.
  assert (Hnested : forall s a,
    extractReferences host (ref_nested r) s dept (S depth) a
    = extractReferences host (ref_nested (pruneRef (10 - depth) r)) s dept
        (S depth) a).
  { intros s a'. destruct (decide (depth = 10)) as [->|Hne].
    - simpl. unfold extractReferences. by destruct (ref_nested r).
    - destruct (10 - depth) as [|k] eqn:Ek; [lia|]. simpl.
      destruct (ref_nested r) as [refs|] eqn:Er; [|done]. simpl.
      apply extractReferences_ext.
      specialize (IH refs eq_refl). clear Er.
      induction IH as [|x l Hx _ IHl]; [constructor|].
      constructor; [|exact IHl].
      intros a''. replace k with (10 - S depth) by lia. apply Hx. lia. }
  rewrite !extractReference_unfold.
  assert (Hty : ref_type (pruneRef (10 - depth) r) = ref_type r)
    by (by destruct (10 - depth)).
  assert (Hti : ref_title (pruneRef (10 - depth) r) = ref_title r)
    by (by destruct (10 - depth)).
  assert (Hu : ref_url (pruneRef (10 - depth) r) = ref_url r)
    by (by destruct (10 - depth)).
  assert (Hid : forall pre a, attachmentId host pre (pruneRef (10 - depth) r) a
                              = attachmentId host pre r a).
  { intros pre a'. unfold attachmentId. by rewrite Hu, Hti. }
  assert (Hn : forall k d i, attachmentNode k d i dept (pruneRef (10 - depth) r)
                             = attachmentNode k d i dept r).
  { intros k d i. unfold attachmentNode. by rewrite Hti, Hu. }
  rewrite Hty, Hti, Hu, !Hid.
  destruct (eqb (ref_type r) "circular"); [cbn zeta; by rewrite Hnested|].
  destruct (eqb (ref_type r) "pdf").
  - destruct (attachmentId host "pdf_" r a). by rewrite Hnested, Hn.
  - destruct (eqb (ref_type r) "web"); [|done].
    destruct (attachmentId host "web_" r a). by rewrite Hn.
Qed.

(** References nested more than ten levels below those of a circular are
    not extracted: cutting them off changes nothing. *)
Theorem extractReferences_depth_cap (host : Host) (refs : list Ref)
    (sourceId dept : string) (a : Acc) :
  extractReferences host (Some refs) sourceId dept 0 a
  = extractReferences host (Some (map (pruneRef 10) refs)) sourceId dept 0 a.
Proof.
  apply extractReferences_ext. induction refs as [|r l IH]; [constructor|].
  constructor; [|exact IH].
  intros a'. apply (extractReference_prune host r 0). lia.
Qed.

(** *** The keys of the node map *)

Lemma noteFirst_fold_elem l : forall seen x,
  x ∈ fold_left noteFirst l seen <-> x ∈ seen \/ x ∈ l.
Proof.
  induction l as [|y l IH]; intros seen x; cbn [fold_left].
  - rewrite elem_of_nil. tauto.
  - rewrite IH, elem_of_cons. unfold noteFirst.
    destruct (bool_decide (y ∈ seen)) eqn:E.
    + apply bool_decide_eq_true in E. split; [tauto|].
      intros [?|[->|?]]; tauto.
    + rewrite elem_of_app, list_elem_of_singleton. tauto.
Qed.

Lemma noteFirst_fold_NoDup l : forall seen,
  NoDup seen -> NoDup (fold_left noteFirst l seen).
Proof.
  induction l as [|y l IH]; intros seen Hs; cbn [fold_left]; [done|].
  apply IH. unfold noteFirst. destruct (bool_decide (y ∈ seen)) eqn:E; [done|].
  apply bool_decide_eq_false in E. apply NoDup_app. split; [done|].
  split; [|apply NoDup_singleton]. by intros x Hx ->%list_elem_of_singleton.
Qed.

Lemma dedupStep_keys m node m' :
  dedupStep (Some m) node = Some m' ->
  OMap.keys m' = noteFirst (OMap.keys m) (n_id node).
Proof.
  unfold dedupStep, noteFirst. destruct (OMap.get m (n_id node)) as [ex|] eqn:Eg.
  - assert (Hin : n_id node ∈ OMap.keys m) by (apply omap_get_keys; eauto).
    rewrite bool_decide_eq_true_2 by done.
    destruct (mergeInto ex node); [|done]. intros [= <-].
    by apply omap_keys_set_old.
  - assert (Hout : n_id node ∉ OMap.keys m).
    { intros [v Hv]%omap_get_keys. congruence. }
    rewrite bool_decide_eq_false_2 by done. intros [= <-].
    by apply omap_keys_set_new.
Qed.

Lemma dedup_fold_keys nodes : forall m m',
  fold_left dedupStep nodes (Some m) = Some m' ->
  OMap.keys m' = fold_left noteFirst (map n_id nodes) (OMap.keys m).
Proof.
  induction nodes as [|n ns IH]; intros m m'; cbn [fold_left map].
  - by intros [= <-].
  - destruct (dedupStep (Some m) n) as [m1|] eqn:E1.
    + intros H. rewrite (IH _ _ H). f_equal. by apply dedupStep_keys.
    + by rewrite dedup_fold_none.
Qed.

Lemma deduplicateNodes_firstOccurrences nodes m :
  deduplicateNodes nodes = Some m ->
  OMap.keys m = firstOccurrences (map n_id nodes).
Proof. apply (dedup_fold_keys nodes []). Qed.

Lemma deduplicateNodes_ids nodes m i :
  deduplicateNodes nodes = Some m -> i ∈ OMap.keys m <-> i ∈ map n_id nodes.
Proof.
  intros ->%deduplicateNodes_firstOccurrences. unfold firstOccurrences.
  rewrite noteFirst_fold_elem, elem_of_nil. tauto.
Qed.

Lemma dedupStep_named m node m' :
  Forall (fun kv => n_id kv.2 = kv.1) m ->
  dedupStep (Some m) node = Some m' ->
  Forall (fun kv => n_id kv.2 = kv.1) m'.
Proof.
  intros Hn. unfold dedupStep.
  destruct (OMap.get m (n_id node)) as [existing|] eqn:Eg.
  - destruct (mergeInto existing node) as [merged|] eqn:Em; [|done].
    intros [= <-]. apply mergeInto_same in Em as [Hi _].
    assert (Hin : (n_id node, existing) ∈ m) by by apply omap_elem_get.
    pose proof (proj1 (Forall_forall _ _) Hn _ Hin) as Hex. simpl in Hex.
    apply Forall_forall. intros [k v] [Hold|[-> ->]]%omap_set_elem.
    + by apply (proj1 (Forall_forall _ _) Hn _ Hold).
    + simpl. congruence.
  - intros [= <-]. rewrite omap_set_fresh by done.
    apply Forall_app. split; [done|]. by constructor.
Qed.

Lemma dedup_fold_named nodes : forall m m',
  Forall (fun kv => n_id kv.2 = kv.1) m ->
  fold_left dedupStep nodes (Some m) = Some m' ->
  Forall (fun kv => n_id kv.2 = kv.1) m'.
Proof.
  induction nodes as [|n ns IH]; intros m m' Hm; cbn [fold_left].
  - by intros [= <-].
  - destruct (dedupStep (Some m) n) as [m1|] eqn:E1.
    + apply IH. by eapply dedupStep_named.
    + by rewrite dedup_fold_none.
Qed.

(** The map that [deduplicateNodes] returns has one entry for every id
    among the nodes, in the order in which the ids first occur, and every
    entry is a node with the id it is stored under. *)
Theorem deduplicateNodes_keys (nodes : list Node) (m : list (string * Node)) :
  deduplicateNodes nodes = Some m ->
  OMap.keys m = firstOccurrences (map n_id nodes)
  /\ NoDup (OMap.keys m)
  /\ (forall i, i ∈ OMap.keys m <-> i ∈ map n_id nodes)
  /\ Forall (fun kv => n_id kv.2 = kv.1) m.
Proof.
  intros H. split; [by apply deduplicateNodes_firstOccurrences|]. split.
  - rewrite (deduplicateNodes_firstOccurrences _ _ H).
    apply noteFirst_fold_NoDup. constructor.
  - split; [intros i; by apply deduplicateNodes_ids|].
    by apply (dedup_fold_named nodes []).
Qed.

Lemma deduplicateNodes_keys_witness :
  deduplicateNodes [fromMain; fromCacheFile] = Some [(n_id fromMain, fromMain)]
  /\ OMap.keys [(n_id fromMain, fromMain)]
     = firstOccurrences (map n_id [fromMain; fromCacheFile]).
Proof.
  split; [reflexivity|].
  apply (deduplicateNodes_keys [fromMain; fromCacheFile]). reflexivity.
Defined.

(** *** When deduplication returns *)

Lemma mergeContent_none e n :
  mergeContent e n = None ->
  n_content e = None /\ nonEmptyContent (n_content n) = true.
Proof.
  unfold mergeContent. destruct (n_content n) as [[|b l]|]; try done.
  by destruct (n_content e) as [[|]|].
Qed.

Lemma mergeContent_content e n e' :
  mergeContent e n = Some e' -> n_content e' = None -> n_content e = None.
Proof.
  unfold mergeContent. destruct (n_content n) as [[|b l]|] eqn:En;
    try (by intros [= <-]).
  destruct (n_content e) as [[|]|] eqn:Ee; try done; intros [= <-]; simpl; congruence.
Qed.

Lemma mergeInto_prefix (existing node : Node) :
  exists e4, n_content e4 = n_content existing
    /\ mergeInto existing node
       = if negb (n_fromCache node) || n_fromCache existing then
           match mergeContent e4 node with
           | Some e5 =>
               Some (if negb (n_fromCache e5)
                     then withFromCache (n_fromCache node) e5 else e5)
           | None => None
           end
         else Some existing.
Proof.
  unfold mergeInto. eexists. split; [|reflexivity].
  by repeat case_match.
Qed.

Lemma mergeInto_none existing node :
  mergeInto existing node = None ->
  n_content existing = None /\ nonEmptyContent (n_content node) = true.
Proof.
  destruct (mergeInto_prefix existing node) as (e4 & Hc & ->).
  destruct (negb (n_fromCache node) || n_fromCache existing); [|done].
  destruct (mergeContent e4 node) eqn:E; [done|]. intros _.
  apply mergeContent_none in E. by rewrite <- Hc.
Qed.

Lemma mergeInto_content existing node merged :
  mergeInto existing node = Some merged ->
  n_content merged = None -> n_content existing = None.
Proof.
  destruct (mergeInto_prefix existing node) as (e4 & Hc & ->).
  destruct (negb (n_fromCache node) || n_fromCache existing);
    [|by intros [= <-]].
  destruct (mergeContent e4 node) as [e5|] eqn:E; [|done]. intros [= <-] Hn.
  rewrite <- Hc. apply (mergeContent_content _ _ _ E).
  by destruct (negb (n_fromCache e5)).
Qed.

Lemma dedup_fold_returns rest : forall processed m,
  Forall (fun kv => n_content kv.2 = None ->
            exists n', n' ∈ processed /\ n_id n' = kv.1 /\ n_content n' = None) m ->
  contentCompatible (processed ++ rest) ->
  is_Some (fold_left dedupStep rest (Some m)).
Proof.
  induction rest as [|n rest IH]; intros processed m Hm Hc; cbn [fold_left];
    [by eexists|].
  assert (Hc' : contentCompatible ((processed ++ [n]) ++ rest))
    by (by rewrite <- app_assoc).
  unfold dedupStep at 2.
  destruct (OMap.get m (n_id n)) as [existing|] eqn:Eg.
  - pose proof (omap_elem_get _ _ _ Eg) as Hin.
    pose proof (proj1 (Forall_forall _ _) Hm _ Hin) as Hex. simpl in Hex.
    destruct (mergeInto existing n) as [merged|] eqn:Em.
    + apply (IH (processed ++ [n])); [|exact Hc'].
      apply Forall_forall. intros [k v] [Hold|[-> ->]]%omap_set_elem; simpl.
      * intros Hv.
        destruct (proj1 (Forall_forall _ _) Hm _ Hold Hv) as (n' & ? & ? & ?).
        exists n'. split; [apply elem_of_app; by left|done].
      * intros Hv. destruct (Hex (mergeInto_content _ _ _ Em Hv)) as (n' & ? & ? & ?).
        exists n'. split; [apply elem_of_app; by left|done].
    + exfalso. apply mergeInto_none in Em as [He Hne].
      destruct (Hex He) as (n' & Hn' & Hid & Hnone).
      apply (Hc n n'); try done.
      * apply elem_of_app. right. left.
      * apply elem_of_app. by left.
  - apply (IH (processed ++ [n])); [|exact Hc'].
    rewrite omap_set_fresh by done. apply Forall_app. split.
    + apply Forall_forall. intros [k v] Hold Hv.
      destruct (proj1 (Forall_forall _ _) Hm _ Hold Hv) as (n' & ? & ? & ?).
      exists n'. split; [apply elem_of_app; by left|done].
    + constructor; [|done]. simpl. intros Hv. exists n.
      split; [apply elem_of_app; right; left|done].
Qed.

(** [deduplicateNodes] returns a map, and throws no [TypeError], when no
    id is shared by a node without a content field and a node with a
    content that is not empty. *)
Theorem deduplicateNodes_returns (nodes : list Node) :
  contentCompatible nodes -> is_Some (deduplicateNodes nodes).
Proof.
  intros Hc. apply (dedup_fold_returns nodes [] []); [constructor|exact Hc].
Qed.

Lemma deduplicateNodes_returns_witness :
  contentCompatible [fromMain; fromCacheFile]
  /\ is_Some (deduplicateNodes [fromMain; fromCacheFile]).
Proof.
  assert (H : contentCompatible [fromMain; fromCacheFile]).
  { intros n n' _ Hn' _ _.
    apply elem_of_cons in Hn' as [->|Hn']; [done|].
    apply elem_of_cons in Hn' as [->|Hn']; [done|].
    by apply elem_of_nil in Hn'. }
  split; [exact H|]. apply (deduplicateNodes_returns _ H).
Defined.


(** *** The extracted edges *)

Section EdgeFacts.
Variable host : Host.

Lemma edgeWellFormed_mono ids ids' e :
  (forall i, i ∈ ids -> i ∈ ids') ->
  edgeWellFormed host ids e -> edgeWellFormed host ids' e.
Proof.
  intros Hsub (Hs & Ht & Hk). split; [by apply Hsub|]. split; [done|].
  destruct (e_refType e); [done|by apply Hsub..].
Qed.

Lemma wellFormed_pushEdge e a :
  wellFormed host a -> edgeWellFormed host (map n_id (nodes a)) e ->
  wellFormed host (pushEdge e a).
Proof. intros Ha He. apply Forall_app. split; [done|by constructor]. Qed.

Lemma wellFormed_pushNode n a : wellFormed host a -> wellFormed host (pushNode n a).
Proof.
  intros Ha. unfold wellFormed. simpl. eapply Forall_impl; [exact Ha|].
  intros e. apply edgeWellFormed_mono. intros i Hi. rewrite map_app.
  apply elem_of_app. by left.
Qed.

Lemma ids_attachOnly a a' i :
  attachOnly a a' -> i ∈ map n_id (nodes a) -> i ∈ map n_id (nodes a').
Proof.
  intros [_ (ns & -> & _)] Hi. rewrite map_app. apply elem_of_app. by left.
Qed.

Lemma truthy_nonempty s : truthy s = true -> s <> [].
Proof. by destruct s. Qed.

Lemma attachmentId_spec pre r a :
  pre <> [] ->
  (attachmentId host pre r a).1 <> ""
  /\ nodes (attachmentId host pre r a).2 = nodes a
  /\ edges (attachmentId host pre r a).2 = edges a.
Proof.
  intros Hpre. unfold attachmentId.
  destruct (truthy (ref_url r)) eqn:Eu; simpl.
  - split; [by apply truthy_nonempty|done].
  - destruct (truthy (ref_title r)); simpl; (split; [by destruct pre|done]).
Qed.

Lemma extractReferences_wellFormed refs src dept depth a :
  Forall (fun r => forall depth src a, src ∈ map n_id (nodes a) -> wellFormed host a ->
                   wellFormed host (extractReference host depth src dept r a)) refs ->
  src ∈ map n_id (nodes a) -> wellFormed host a ->
  wellFormed host (extractReferences host (Some refs) src dept depth a).
Proof.
  intros Hall. unfold extractReferences. destruct (Nat.ltb 10 depth); [done|].
  revert a. induction Hall as [|r rs Hr _ IH]; intros a Hs Ha; simpl; [done|].
  apply IH; [|by apply Hr].
  eapply ids_attachOnly; [apply extractReference_attachOnly|exact Hs].
Qed.

Lemma attachment_wellFormed k (Hk : k <> circular) dflt pre r src dept a :
  pre <> [] -> src ∈ map n_id (nodes a) -> wellFormed host a ->
  let '(i, a0) := attachmentId host pre r a in
  let a2 := pushEdge {| e_source := src; e_target := i; e_refType := k;
                        e_refTitle := or (ref_title r) dflt;
                        e_refUrl := ref_url r |}
              (pushNode (attachmentNode k dflt i dept r) a0) in
  wellFormed host a2 /\ i ∈ map n_id (nodes a2).
Proof.
  intros Hpre Hs Ha. destruct (attachmentId_spec pre r a Hpre) as (Hi & Hn & He).
  destruct (attachmentId host pre r a) as [i a0]. simpl in Hi, Hn, He.
  assert (Ha0 : wellFormed host a0) by (unfold wellFormed; by rewrite Hn, He).
  assert (Hin : i ∈ map n_id (nodes a0 ++ [attachmentNode k dflt i dept r])).
  { rewrite map_app. apply elem_of_app. right. simpl. left. }
  split; [|exact Hin]. apply wellFormed_pushEdge; [by apply wellFormed_pushNode|].
  split; simpl.
  - rewrite Hn, map_app. apply elem_of_app. by left.
  - split; [done|]. by destruct k.
Qed.

Lemma extractReference_wellFormed r : forall depth src dept a,
  src ∈ map n_id (nodes a) -> wellFormed host a ->
  wellFormed host (extractReference host depth src dept r a).
Proof.
  induction r as [r IH] using Ref_nested_ind. intros depth src dept a Hs Ha.
  assert (Hnested : forall s d a, s ∈ map n_id (nodes a) -> wellFormed host a ->
            wellFormed host (extractReferences host (ref_nested r) s dept d a)).
  { intros s d a' Hs' Ha'. destruct (ref_nested r) as [refs|] eqn:E; [|done].
    apply extractReferences_wellFormed; [|done|done].
    eapply Forall_impl; [by apply IH|]. simpl. intros x Hx d' s' a''. apply Hx. }
  rewrite extractReference_unfold.
  destruct (eqb (ref_type r) "circular").
  { cbn zeta. destruct (truthy (normalizeTitle host (ref_title r))) eqn:Et.
    - apply Hnested; [done|]. apply wellFormed_pushEdge; [done|].
      split; [done|]. split; simpl; [by apply truthy_nonempty|done].
    - by apply Hnested. }
  destruct (eqb (ref_type r) "pdf").
  { pose proof (attachment_wellFormed pdf ltac:(done) "PDF Document" "pdf_" r src dept a)
      as H.
    destruct (attachmentId host "pdf_" r a) as [pdfId a0].
    destruct H as [H1 H2]; try done. by apply Hnested. }
  destruct (eqb (ref_type r) "web"); [|done].
  pose proof (attachment_wellFormed web ltac:(done) "Web Link" "web_" r src dept a) as H.
  destruct (attachmentId host "web_" r a) as [webId a0].
  by destruct H as [H1 H2].
Qed.

Lemma registered_wellFormed refs n dept a :
  wellFormed host a ->
  wellFormed host (extractReferences host refs (n_id n) dept 0
                (register (normalizeTitle host (n_id n)) (n_id n) (pushNode n a))).
Proof.
  intros Ha.
  assert (Ha2 : wellFormed host (register (normalizeTitle host (n_id n)) (n_id n)
                                   (pushNode n a)))
    by (by apply wellFormed_pushNode).
  destruct refs as [refs|]; [|done].
  apply extractReferences_wellFormed; [| |done].
  - apply Forall_forall. intros r _ d s a'. apply extractReference_wellFormed.
  - simpl. rewrite map_app. apply elem_of_app. right. left.
Qed.

Lemma processCircular_wellFormed c dept a :
  wellFormed host a -> wellFormed host (processCircular host c dept a).
Proof.
  intros Ha. destruct c as [c|]; [|exact Ha]. unfold processCircular.
  destruct (generateNodeId host (draws a) (c_ID c) (c_url c) (c_title c))
    as [nodeId d].
  match goal with
  | |- wellFormed host (extractReferences _ _ _ _ _ (register _ _ (pushNode ?n ?b))) =>
      apply (registered_wellFormed (c_references c) n dept b)
  end.
  exact Ha.
Qed.

Lemma fold_invariant {A} (P : Acc -> Prop) (f : Acc -> A -> Acc) l :
  (forall a x, P a -> P (f a x)) ->
  forall a, P a -> P (fold_left f l a).
Proof. intros Hf. induction l as [|x l IH]; intros a Ha; simpl; auto. Qed.

Lemma extractAll_wellFormed loadedData : wellFormed host (extractAll host loadedData).
Proof.
  unfold extractAll.
  set (a1 := fold_left _ (mainFiles loadedData) _).
  assert (H1 : wellFormed host a1).
  { apply (fold_invariant (wellFormed host)).
    - intros a f Ha. unfold extractCircularsFromMainFile.
      destruct (years f) as [ys|]; [|done].
      apply (fold_invariant (wellFormed host)); [|done]. intros a' y Ha'.
      unfold processYear.
      apply (fold_invariant (wellFormed host));
        [intros; by apply processCircular_wellFormed|].
      apply (fold_invariant (wellFormed host));
        [intros; by apply processCircular_wellFormed|done].
    - constructor. }
  destruct (cache loadedData) as [c|]; [|done].
  unfold extractCircularsFromCache.
  apply (fold_invariant (wellFormed host)); [|done].
  intros a [circularId circularData] Ha.
  unfold processCacheEntry.
  destruct circularData as [cc|].
  - match goal with
    | |- wellFormed host (extractReferences _ _ _ _ _ (register _ _ (pushNode ?n ?b))) =>
        apply (registered_wellFormed (cc_references cc) n _ b)
    end.
    exact Ha.
  - by apply wellFormed_pushNode.
Qed.
End EdgeFacts.

Lemma candidates_nil host key ids :
  candidates host key ids = []
  <-> forall i, i ∈ ids -> normalizeTitle host i <> key.
Proof.
  unfold candidates. split.
  - intros H i Hi Hk.
    assert (Hin : i ∈ filter (fun i => normalizeTitle host i = key) ids)
      by (by apply list_elem_of_filter).
    rewrite H in Hin. by apply elem_of_nil in Hin.
  - intros H. destruct (filter _ ids) as [|x l] eqn:E; [done|].
    assert (Hin : x ∈ filter (fun i => normalizeTitle host i = key) ids)
      by (rewrite E; left).
    apply list_elem_of_filter in Hin as [Hk Hi]. by destruct (H x Hi).
Qed.

Lemma last_None {A} (l : list A) : last l = None <-> l = [].
Proof.
  split; [|by intros ->]. destruct l as [|x l] using rev_ind; [done|].
  by rewrite last_snoc.
Qed.

Lemma last_elem {A} (l : list A) x : last l = Some x -> x ∈ l.
Proof.
  destruct l as [|y l] using rev_ind; [done|]. rewrite last_snoc.
  intros [= ->]. apply elem_of_app. right. left.
Qed.

Lemma registered_elem a i :
  i ∈ registered a <-> exists n, n ∈ nodes a /\ n_type n = circular /\ n_id n = i.
Proof.
  unfold registered. rewrite list_elem_of_fmap. split.
  - intros (n & -> & [Hk Hn]%list_elem_of_filter). exists n.
    split; [done|]. split; [|done]. by destruct (n_type n).
  - intros (n & Hn & Hk & <-). exists n. split; [done|].
    apply list_elem_of_filter. by rewrite Hk.
Qed.

(** An extracted reference is dropped as an orphan exactly when no
    extracted node has its target as id and the id of no extracted circular
    normalizes to its target; its source is always a node. *)
Theorem orphan_iff_unresolvable (host : Host) (loadedData : LoadedData)
    (nodeMap : list (string * Node)) (e : Edge) :
  let a := extractAll host loadedData in
  deduplicateNodes (nodes a) = Some nodeMap ->
  e ∈ edges a ->
  OMap.has nodeMap (e_source e) = true
  /\ (orphan nodeMap (nodeIdToNormalizedId a) e = true
      <-> unresolvable host (nodes a) (e_target e)).
Proof.
  intros a Hd He.
  pose proof (proj1 (Forall_forall _ _) (extractAll_wellFormed host loadedData) _ He)
    as (Hs & _).
  fold a in Hs.
  assert (Hhas : forall i, OMap.has nodeMap i = true <-> i ∈ map n_id (nodes a)).
  { intros i. rewrite omap_has_keys. by apply deduplicateNodes_ids. }
  assert (Hsrc : OMap.has nodeMap (e_source e) = true) by (by apply Hhas).
  split; [exact Hsrc|]. unfold orphan. rewrite Hsrc. cbn [negb orb].
  rewrite (extracted_table _ _ (extractAll_extracted host loadedData)). fold a.
  unfold unresolvable. split.
  - intros [Ht Hl]%andb_true_iff. apply negb_true_iff in Ht. split.
    + intros n Hn Hid. assert (OMap.has nodeMap (e_target e) = true); [|congruence].
      apply Hhas, list_elem_of_fmap. by exists n.
    + destruct (last (candidates host (e_target e) (registered a))) as [i|] eqn:El.
      * apply negb_true_iff in Hl. apply last_elem in El.
        apply list_elem_of_filter in El as [_ Hi].
        apply registered_elem in Hi as (n & Hn & _ & <-).
        assert (OMap.has nodeMap (n_id n) = true); [|congruence].
        apply Hhas, list_elem_of_fmap. by exists n.
      * apply last_None in El. pose proof (proj1 (candidates_nil _ _ _) El) as Hc.
        intros n Hn Hk. apply (Hc (n_id n)). apply registered_elem. by exists n.
  - intros [Hid Hnorm]. apply andb_true_iff. split.
    + apply negb_true_iff. destruct (OMap.has nodeMap (e_target e)) eqn:E; [|done].
      apply Hhas, list_elem_of_fmap in E as (n & Hn & Hin). by destruct (Hid n Hin).
    + assert (El : candidates host (e_target e) (registered a) = []).
      { apply candidates_nil. intros i (n & Hn & Hk & <-)%registered_elem.
        by apply Hnorm. }
      by rewrite El.
Qed.

Lemma orphan_iff_unresolvable_witness :
  exists nodeMap,
    deduplicateNodes (nodes (extractAll host0 annexData)) = Some nodeMap
    /\ lostEdge ∈ edges (extractAll host0 annexData)
    /\ orphan nodeMap (nodeIdToNormalizedId (extractAll host0 annexData)) lostEdge
       = true
    /\ OMap.has nodeMap (e_source lostEdge) = true
    /\ (orphan nodeMap (nodeIdToNormalizedId (extractAll host0 annexData)) lostEdge
        = true
        <-> unresolvable host0 (nodes (extractAll host0 annexData))
              (e_target lostEdge)).
Proof.
  eexists. split; [vm_compute; reflexivity|].
  split; [vm_compute; right; left|]. split; [vm_compute; reflexivity|].
  apply (orphan_iff_unresolvable host0 annexData);
    [vm_compute; reflexivity|vm_compute; right; left].
Defined.

(** Every extracted edge starts at an extracted node and has a target that
    is not empty; the target of a reference to a circular is the normalized
    title of the reference, the target of a pdf or web reference is an
    extracted node. *)
Theorem extracted_edges_wellFormed (host : Host) (loadedData : LoadedData) :
  let a := extractAll host loadedData in
  Forall (edgeWellFormed host (map n_id (nodes a))) (edges a).
Proof. apply extractAll_wellFormed. Qed.

(** A reference to a pdf or to a web page is never dropped as an orphan. *)
Theorem attachment_never_orphan (host : Host) (loadedData : LoadedData)
    (nodeMap : list (string * Node)) (e : Edge) :
  let a := extractAll host loadedData in
  deduplicateNodes (nodes a) = Some nodeMap ->
  e ∈ edges a ->
  e_refType e <> circular ->
  orphan nodeMap (nodeIdToNormalizedId a) e = false.
Proof.
  intros a Hd He Hk.
  pose proof (proj1 (Forall_forall _ _) (extractAll_wellFormed host loadedData) _ He)
    as (Hs & _ & Ht).
  fold a in Hs, Ht.
  assert (Ht' : e_target e ∈ map n_id (nodes a))
    by (by destruct (e_refType e)).
  unfold orphan.
  assert (Hhas : forall i, i ∈ map n_id (nodes a) -> OMap.has nodeMap i = true).
  { intros i Hi. apply omap_has_keys. by apply (deduplicateNodes_ids _ _ _ Hd). }
  by rewrite (Hhas _ Hs), (Hhas _ Ht').
Qed.

Lemma attachment_never_orphan_witness :
  exists nodeMap,
    deduplicateNodes (nodes (extractAll host0 annexData)) = Some nodeMap
    /\ annexEdge ∈ edges (extractAll host0 annexData)
    /\ e_refType annexEdge <> circular
    /\ orphan nodeMap (nodeIdToNormalizedId (extractAll host0 annexData)) annexEdge
       = false.
Proof.
  eexists. split; [vm_compute; reflexivity|].
  split; [vm_compute; left|]. split; [discriminate|].
  apply (attachment_never_orphan host0 annexData);
    [vm_compute; reflexivity|vm_compute; left|discriminate].
Defined.


(** *** The validated edges *)

Lemma validate_fold_map {B} (f : ValidEdge -> B) (g : Edge -> B) nodeMap table :
  (forall e i, f {| v_source := e_source e;
                    v_target := resolveTarget nodeMap table (e_target e);
                    v_refType := e_refType e; v_refTitle := e_refTitle e;
                    v_refUrl := e_refUrl e;
                    v_id := edgeId (e_source e)
                              (resolveTarget nodeMap table (e_target e)) i |}
               = g e) ->
  forall edges valid orphaned,
    map f (fold_left (validateStep nodeMap table) edges (valid, orphaned)).1
    = map f valid
      ++ map g (filter (fun e => orphan nodeMap table e = false) edges).
Proof.
  intros Hfg es. induction es as [|e es IH]; intros valid orphaned.
  - simpl. by rewrite app_nil_r.
  - cbn [fold_left]. rewrite filter_cons, orphan_step. unfold validateStep at 2.
    destruct (OMap.has nodeMap (e_source e)
              && OMap.has nodeMap (resolveTarget nodeMap table (e_target e))).
    + rewrite IH, map_app. cbn [negb map]. rewrite decide_True by done.
      rewrite Hfg. cbn [map]. by rewrite <- app_assoc.
    + rewrite IH. cbn [negb]. by rewrite decide_False by done.
Qed.

(** [validateEdges] keeps the edges that are no orphans in their order,
    with their source, type, title and url, and gives each the target it
    resolves to. *)
Theorem validateEdges_keeps (edges : list Edge) (nodeMap : list (string * Node))
    (table : gmap string string) :
  let valid := validEdges (validateEdges edges nodeMap table) in
  let kept := filter (fun e => orphan nodeMap table e = false) edges in
  map validEdgeData valid = map edgeData kept
  /\ map v_target valid
     = map (fun e => resolveTarget nodeMap table (e_target e)) kept.
Proof.
  intros valid kept. subst valid kept. unfold validateEdges.
  pose proof (validate_fold_map validEdgeData edgeData nodeMap table
                (fun _ _ => eq_refl) edges [] 0) as H1.
  pose proof (validate_fold_map v_target
                (fun e => resolveTarget nodeMap table (e_target e)) nodeMap table
                (fun _ _ => eq_refl) edges [] 0) as H2.
  destruct (fold_left _ edges _) as [valid orphaned]. simpl in *. by split.
Qed.

(** *** Edge ids *)

Lemma digits_isDigit d : Forall (fun c => isDigit c = true) (digits d).
Proof. induction d; simpl; constructor; done. Qed.

Lemma digits_inj d : forall d', digits d = digits d' -> d = d'.
Proof.
  induction d; intros []; simpl; try done; intros [= H]; f_equal; by apply IHd.
Qed.

Lemma ofNat_inj n m : ofNat n = ofNat m -> n = m.
Proof. intros H%digits_inj. by apply DecimalNat.Unsigned.to_uint_inj. Qed.

Lemma digits_before_underscore d : forall d' x y,
  Forall (fun c => isDigit c = true) d ->
  Forall (fun c => isDigit c = true) d' ->
  d ++ 95%N :: x = d' ++ 95%N :: y -> d = d'.
Proof.
  induction d as [|c d IH]; intros [|c' d'] x y Hd Hd'; simpl; try done.
  - intros [= <- _]. by apply Forall_cons in Hd' as [? _].
  - intros [= -> _]. by apply Forall_cons in Hd as [? _].
  - intros [= -> H]. f_equal. apply Forall_cons in Hd as [_ Hd].
    apply Forall_cons in Hd' as [_ Hd']. by eapply IH.
Qed.

Lemma edgeId_split s t i :
  edgeId s t i = ("edge_" ++ s ++ "_" ++ t) ++ 95%N :: ofNat i.
Proof. unfold edgeId. by rewrite <- !app_assoc. Qed.

Lemma edgeId_index s t i s' t' j : edgeId s t i = edgeId s' t' j -> i = j.
Proof.
  rewrite !edgeId_split. intros H. apply (f_equal (@rev N)) in H.
  rewrite !rev_app_distr in H. cbn [rev] in H. rewrite <- !app_assoc in H.
  cbn [app] in H. apply ofNat_inj, rev_inj.
  eapply digits_before_underscore; [| |exact H];
    apply Forall_rev, digits_isDigit.
Qed.

Lemma validate_fold_ids nodeMap table edges : forall valid orphaned,
  (forall i e, valid !! i = Some e -> v_id e = edgeId (v_source e) (v_target e) i) ->
  forall i e,
    (fold_left (validateStep nodeMap table) edges (valid, orphaned)).1 !! i = Some e ->
    v_id e = edgeId (v_source e) (v_target e) i.
Proof.
  induction edges as [|x es IH]; intros valid orphaned Hv; [exact Hv|].
  cbn [fold_left]. unfold validateStep at 2.
  destruct (OMap.has nodeMap (e_source x) && _); [|by apply IH].
  apply IH. intros i e [Hi|[Hi He]]%lookup_app_Some; [by apply Hv|].
  apply list_lookup_singleton_Some in He as [Hz <-]. simpl. f_equal. lia.
Qed.

(** The id of the valid edge at position [i] is built from its source, its
    target and [i], and no two valid edges have the same id. *)
Theorem validateEdges_ids (edges : list Edge) (nodeMap : list (string * Node))
    (table : gmap string string) :
  let valid := validEdges (validateEdges edges nodeMap table) in
  (forall i e, valid !! i = Some e ->
     v_id e = edgeId (v_source e) (v_target e) i)
  /\ NoDup (map v_id valid).
Proof.
  intros valid.
  assert (H : forall i e, valid !! i = Some e ->
            v_id e = edgeId (v_source e) (v_target e) i).
  { subst valid. unfold validateEdges.
    pose proof (validate_fold_ids nodeMap table edges [] 0) as H.
    destruct (fold_left _ edges _) as [v o]. simpl in *. apply H.
    intros i e. by rewrite lookup_nil. }
  split; [exact H|]. apply NoDup_alt. intros i j x Hi Hj.
  change (map v_id valid) with (v_id <$> valid) in Hi, Hj.
  apply list_lookup_fmap_Some in Hi as (e & -> & He).
  apply list_lookup_fmap_Some in Hj as (e' & Heq & He').
  rewrite (H _ _ He), (H _ _ He') in Heq. by apply edgeId_index in Heq.
Qed.

(** *** The built graph *)

Lemma indicator_sum (ks : list string) t :
  NoDup ks ->
  sum_list (map (fun k => if decide (t = k) then 1 else 0) ks)
  = if decide (t ∈ ks) then 1 else 0.
Proof.
  induction 1 as [|k ks Hk Hks IH]; [done|]. simpl. rewrite IH.
  destruct (decide (t = k)) as [->|Hne].
  - rewrite (decide_False (P := k ∈ ks)) by done.
    by rewrite decide_True by left.
  - destruct (decide (t ∈ ks)).
    + by rewrite decide_True by (by right).
    + rewrite decide_False; [done|]. by intros [?|?]%elem_of_cons.
Qed.

Lemma inDegree_cons (ks : list string) e es :
  sum_list (map (fun k => inDegree k (e :: es)) ks)
  = sum_list (map (fun k => if decide (v_target e = k) then 1 else 0) ks)
    + sum_list (map (fun k => inDegree k es) ks).
Proof.
  induction ks as [|k ks IH]; [done|]. simpl. rewrite IH.
  unfold inDegree. rewrite filter_cons.
  destruct (decide (v_target e = k)); simpl; lia.
Qed.

Lemma inDegree_sum (ks : list string) valid :
  NoDup ks -> Forall (fun e => v_target e ∈ ks) valid ->
  sum_list (map (fun k => inDegree k valid) ks) = length valid.
Proof.
  intros Hks. induction 1 as [|e es He Hes IH].
  - unfold inDegree. simpl. clear. by induction ks.
  - rewrite inDegree_cons, IH, indicator_sum by done.
    by rewrite decide_True by done.
Qed.

Lemma calculateReferenceCounts_counts m edges :
  deduped m ->
  map n_refCount (OMap.values (calculateReferenceCounts m edges))
  = map (fun k => inDegree k edges) (OMap.keys m).
Proof.
  intros [Hk Hn]. rewrite <- (calculateReferenceCounts_keys edges m).
  unfold OMap.values, OMap.keys. rewrite !map_map. apply map_ext_in.
  intros [k v] Hin%list_elem_of_In. simpl.
  apply omap_get_elem in Hin; [|by rewrite calculateReferenceCounts_keys].
  rewrite calculateReferenceCounts_get in Hin.
  destruct (OMap.get m k) as [node0|] eqn:E0; [|done].
  injection Hin as <-. apply omap_elem_get in E0.
  destruct (proj1 (Forall_forall _ _) Hn _ E0) as [_ Hz]. simpl in *.
  by rewrite Hz.
Qed.

(** The reference counts of the nodes of the built graph add up to the
    number of its edges. *)
Theorem buildGraph_refCount_total (host : Host) (loadedData : LoadedData)
    (g : Graph) :
  buildGraph host loadedData = Some g ->
  sum_list (map refCount (g_nodes g)) = length (g_edges g).
Proof.
  unfold buildGraph. set (a := extractAll host loadedData).
  destruct (deduplicateNodes (nodes a)) as [nodeMap|] eqn:Ed; [|done].
  intros [= <-]. simpl.
  set (valid := validEdges (validateEdges _ _ _)).
  pose proof (extracted_counts _ _ (extractAll_extracted host loadedData)) as Hz.
  pose proof (deduplicateNodes_deduped _ _ Hz Ed) as Hd.
  rewrite map_map. change (map (fun x => refCount (cyNode x))) with (map n_refCount).
  rewrite calculateReferenceCounts_counts by done.
  rewrite length_map. apply inDegree_sum; [apply Hd|].
  eapply Forall_impl; [apply validateEdges_endpoints|]. by intros e [_ ?].
Qed.

Lemma buildGraph_refCount_total_witness :
  exists g,
    buildGraph host0 triangleData = Some g
    /\ sum_list (map refCount (g_nodes g)) = length (g_edges g).
Proof.
  eexists. split; [vm_compute; reflexivity|].
  apply (buildGraph_refCount_total host0 triangleData). vm_compute; reflexivity.
Defined.

(** The nodes of the built graph are the distinct ids of the extracted
    nodes, one node for each, in the order in which the ids first occur. *)
Theorem buildGraph_nodes (host : Host) (loadedData : LoadedData) (g : Graph) :
  buildGraph host loadedData = Some g ->
  map id (g_nodes g)
  = firstOccurrences (map n_id (nodes (extractAll host loadedData)))
  /\ NoDup (map id (g_nodes g)).
Proof.
  unfold buildGraph. set (a := extractAll host loadedData).
  destruct (deduplicateNodes (nodes a)) as [nodeMap|] eqn:Ed; [|done].
  intros [= <-]. simpl.
  pose proof (extracted_counts _ _ (extractAll_extracted host loadedData)) as Hz.
  pose proof (deduplicateNodes_deduped _ _ Hz Ed) as Hd.
  rewrite map_map. change (map (fun x => id (cyNode x))) with (map n_id).
  rewrite calculateReferenceCounts_ids by done.
  split; [by apply deduplicateNodes_firstOccurrences|apply Hd].
Qed.

Lemma buildGraph_nodes_witness :
  exists g,
    buildGraph host0 collisionData = Some g
    /\ map id (g_nodes g)
       = firstOccurrences (map n_id (nodes (extractAll host0 collisionData)))
    /\ NoDup (map id (g_nodes g)).
Proof.
  eexists. split; [vm_compute; reflexivity|].
  apply (buildGraph_nodes host0 collisionData). vm_compute; reflexivity.
Defined.

Lemma countKind_partition l :
  countKind circular l + countKind pdf l + countKind web l = length l.
Proof.
  unfold countKind. induction l as [|n l IH]; [done|].
  rewrite !filter_cons. destruct (type n); simpl in *; lia.
Qed.

(** The statistics of the built graph: every node is counted as a
    circular, a pdf or a web page, and as one of them only. *)
Theorem buildGraph_stats (host : Host) (loadedData : LoadedData) (g : Graph) :
  buildGraph host loadedData = Some g ->
  circularNodes (g_stats g) + pdfNodes (g_stats g) + webNodes (g_stats g)
  = totalNodes (g_stats g)
  /\ totalNodes (g_stats g) = length (g_nodes g)
  /\ totalEdges (g_stats g) = length (g_edges g).
Proof.
  unfold buildGraph.
  destruct (deduplicateNodes _) as [nodeMap|]; [|done].
  intros [= <-]. cbn [g_stats g_nodes g_edges circularNodes pdfNodes webNodes
                      totalNodes totalEdges].
  split; [apply countKind_partition|done].
Qed.

Lemma buildGraph_stats_witness :
  exists g,
    buildGraph host0 triangleData = Some g
    /\ circularNodes (g_stats g) + pdfNodes (g_stats g) + webNodes (g_stats g)
       = totalNodes (g_stats g)
    /\ totalNodes (g_stats g) = length (g_nodes g)
    /\ totalEdges (g_stats g) = length (g_edges g).
Proof.
  eexists. split; [vm_compute; reflexivity|].
  apply (buildGraph_stats host0 triangleData). vm_compute; reflexivity.
Defined.


(** ** The cycle detector *)

(** *** The adjacency list *)

Lemma addNode_fold_lookup nodes s : forall m : gmap string (list Neighbor),
  fold_left addNode nodes m !! s
  = if bool_decide (s ∈ map id nodes) then Some [] else m !! s.
Proof.
  induction nodes as [|n ns IH]; intros m; cbn [fold_left map].
  - by rewrite bool_decide_eq_false_2 by apply not_elem_of_nil.
  - rewrite IH. unfold addNode. destruct (decide (s ∈ map id ns)) as [Hin|Hout].
    + rewrite (bool_decide_eq_true_2 _ Hin).
      by rewrite bool_decide_eq_true_2 by (by right).
    + rewrite (bool_decide_eq_false_2 _ Hout).
      destruct (decide (id n = s)) as [<-|Hne].
      * rewrite lookup_insert_eq. by rewrite bool_decide_eq_true_2 by left.
      * rewrite lookup_insert_ne by done. rewrite bool_decide_eq_false_2; [done|].
        by intros [?|?]%elem_of_cons.
Qed.

Lemma outgoing_cons e es s :
  outgoing (e :: es) s
  = (if Kind_eqb (refType e) circular && bool_decide (source e = s)
     then [{| nb_target := target e; nb_edgeId := edge_id e |}] else [])
    ++ outgoing es s.
Proof.
  unfold outgoing. rewrite filter_cons.
  destruct (decide (Kind_eqb (refType e) circular = true /\ source e = s))
    as [[Hk Hs]|Hn].
  - by rewrite Hk, bool_decide_eq_true_2 by done.
  - destruct (Kind_eqb (refType e) circular); [|done].
    rewrite bool_decide_eq_false_2; [done|]. intros Hs. by apply Hn.
Qed.

Lemma addEdge_fold_lookup es s : forall m : gmap string (list Neighbor),
  fold_left addEdge es m !! s = (fun l => l ++ outgoing es s) <$> m !! s.
Proof.
  induction es as [|e es IH]; intros m.
  - simpl. destruct (m !! s); simpl; [|done]. by rewrite app_nil_r.
  - cbn [fold_left]. rewrite IH, outgoing_cons. unfold addEdge.
    destruct (Kind_eqb (refType e) circular); simpl; [|done].
    destruct (m !! source e) as [l0|] eqn:El.
    + destruct (decide (source e = s)) as [<-|Hne].
      * rewrite lookup_insert_eq, El, bool_decide_eq_true_2 by done. simpl.
        by rewrite <- app_assoc.
      * rewrite lookup_insert_ne, bool_decide_eq_false_2 by done. done.
    + destruct (decide (source e = s)) as [<-|Hne].
      * by rewrite El.
      * by rewrite bool_decide_eq_false_2 by done.
Qed.

Lemma buildAdjacencyList_entries nodes edges s :
  buildAdjacencyList nodes edges !! s
  = if bool_decide (s ∈ map id nodes) then Some (outgoing edges s) else None.
Proof.
  unfold buildAdjacencyList. rewrite addEdge_fold_lookup, addNode_fold_lookup.
  rewrite lookup_empty. by destruct (bool_decide (s ∈ map id nodes)).
Qed.

(** The adjacency list has an entry for every node of the graph and for
    nothing else; the entry of a node lists the circular-type edges that
    leave it, in their order, and edges of the other types are left out. *)
Theorem buildAdjacencyList_lookup (nodes : list CyNode) (edges : list CyEdge) :
  dom (buildAdjacencyList nodes edges) = list_to_set (map id nodes)
  /\ forall s, s ∈ map id nodes ->
       buildAdjacencyList nodes edges !! s = Some (outgoing edges s).
Proof.
  split.
  - apply set_eq. intros s.
    rewrite elem_of_dom, elem_of_list_to_set, buildAdjacencyList_entries.
    destruct (bool_decide (s ∈ map id nodes)) eqn:E.
    + apply bool_decide_eq_true in E. split; [done|]. by eexists.
    + apply bool_decide_eq_false in E. split; [by intros [? ?]|done].
  - intros s Hs. by rewrite buildAdjacencyList_entries, bool_decide_eq_true_2.
Qed.

(** *** What the search keeps *)

Section Kept.
Variable P : Search -> Prop.
Hypothesis P_enter : forall n st, P st -> P (enter n st).
Hypothesis P_leave : forall n st, P st -> P (leave n st).
Hypothesis P_close : forall path ep nb st, P st -> P (closeCycle path ep nb st).

Lemma visitNeighbors_kept descend path edgePath neighbors :
  (forall t p e st st', P st -> descend t p e st = Some st' -> P st') ->
  forall st st', P st ->
    visitNeighbors descend path edgePath neighbors st = Some st' -> P st'.
Proof.
  intros Hd. induction neighbors as [|nb rest IH]; intros st st' Hs; simpl.
  - by intros [= <-].
  - destruct (bool_decide (nb_target nb ∈ recursionStack st)).
    { apply IH. by apply P_close. }
    destruct (bool_decide (nb_target nb ∉ visited st)); [|by apply IH].
    destruct (descend _ _ _ st) as [st1|] eqn:Ed; [|done].
    apply IH. by eapply Hd.
Qed.

Lemma dfs_kept adjList fuel : forall nodeId path edgePath st st',
  P st -> dfs fuel adjList nodeId path edgePath st = Some st' -> P st'.
Proof.
  induction fuel as [|fuel IH]; intros nodeId path edgePath st st' Hs; [done|].
  simpl. destruct (visitNeighbors _ _ _ _ _) as [st1|] eqn:Ev; [|done].
  intros [= <-]. apply P_leave.
  eapply visitNeighbors_kept; [|apply P_enter, Hs|exact Ev].
  intros t p e s s' Hp Hd. by eapply IH.
Qed.

Lemma startFrom_fold_kept adjList fuel ns : forall st st',
  P st -> fold_left (startFrom fuel adjList) ns (Some st) = Some st' -> P st'.
Proof.
  induction ns as [|n ns IH]; intros st st' Hs; cbn [fold_left startFrom];
    [by intros [= <-]|].
  destruct (bool_decide (id n ∉ visited st)); [|by apply IH].
  destruct (dfs fuel adjList (id n) [] [] st) as [st1|] eqn:Ed.
  - apply IH. by eapply dfs_kept.
  - clear. induction ns; cbn [fold_left startFrom]; [done|]. exact IHns.
Qed.
End Kept.

Lemma closeCycle_tallied path ep nb st :
  tallied st -> tallied (closeCycle path ep nb st).
Proof.
  intros [Hn He]. unfold closeCycle.
  destruct (indexOf path (nb_target nb)) as [i|]; [|done].
  split; intros x; simpl; rewrite elem_of_union, elem_of_list_to_set.
  - rewrite Hn. split.
    + intros [Hx|(c & Hc & Hx)].
      * eexists. split; [apply elem_of_app; right; left|exact Hx].
      * exists c. split; [apply elem_of_app; by left|done].
    + intros (c & [Hc|Hc%list_elem_of_singleton]%elem_of_app & Hx).
      * right. by exists c.
      * left. by subst c.
  - rewrite He. split.
    + intros [Hx|(c & Hc & Hx)].
      * eexists. split; [apply elem_of_app; right; left|exact Hx].
      * exists c. split; [apply elem_of_app; by left|done].
    + intros (c & [Hc|Hc%list_elem_of_singleton]%elem_of_app & Hx).
      * right. by exists c.
      * left. by subst c.
Qed.

Lemma detectCycles_state nodes edges info :
  detectCycles nodes edges = Some info ->
  exists st,
    fold_left (startFrom (depthBound nodes edges) (buildAdjacencyList nodes edges))
      nodes (Some {| visited := ∅; recursionStack := ∅; cycles := [];
                     nodesInCycles := ∅; edgesInCycles := ∅ |}) = Some st
    /\ info_cycles info = cycles st
    /\ info_nodesInCycles info = nodesInCycles st
    /\ info_edgesInCycles info = edgesInCycles st
    /\ cycleCount info = length (cycles st)
    /\ stats info = {| totalCycles := length (cycles st);
                       totalNodesInCycles := size (nodesInCycles st);
                       totalEdgesInCycles := size (edgesInCycles st) |}.
Proof.
  unfold detectCycles. destruct (fold_left _ nodes _) as [st|]; [|done].
  intros [= <-]. by exists st.
Qed.

Lemma detectCycles_tallied nodes edges info :
  detectCycles nodes edges = Some info ->
  (forall x, x ∈ info_nodesInCycles info
             <-> exists c, c ∈ info_cycles info /\ x ∈ cycle_nodes c)
  /\ (forall x, x ∈ info_edgesInCycles info
                <-> exists c, c ∈ info_cycles info /\ x ∈ cycle_edges c).
Proof.
  intros (st & Hf & -> & -> & -> & _)%detectCycles_state.
  apply (startFrom_fold_kept tallied) in Hf; try done.
  - intros. by apply closeCycle_tallied.
  - split; intros x; simpl; rewrite elem_of_empty; (split; [done|]);
      by intros (c & ?%elem_of_nil & _).
Qed.

(** The marked nodes are the nodes of the reported cycles, the marked edges
    are their edges, and the statistics count the cycles and the marks. *)
Theorem detectCycles_tally (nodes : list CyNode) (edges : list CyEdge)
    (info : CycleInfo) :
  detectCycles nodes edges = Some info ->
  (forall x, x ∈ info_nodesInCycles info
             <-> exists c, c ∈ info_cycles info /\ x ∈ cycle_nodes c)
  /\ (forall x, x ∈ info_edgesInCycles info
                <-> exists c, c ∈ info_cycles info /\ x ∈ cycle_edges c)
  /\ cycleCount info = length (info_cycles info)
  /\ totalCycles (stats info) = length (info_cycles info)
  /\ totalNodesInCycles (stats info) = size (info_nodesInCycles info)
  /\ totalEdgesInCycles (stats info) = size (info_edgesInCycles info).
Proof.
  intros H. destruct (detectCycles_tallied _ _ _ H) as [Hn He].
  split; [exact Hn|]. split; [exact He|].
  destruct (detectCycles_state _ _ _ H) as (st & _ & -> & -> & -> & -> & ->).
  done.
Qed.

Lemma detectCycles_tally_witness :
  exists info,
    detectCycles ringNodes ringEdges = Some info
    /\ (forall x, x ∈ info_nodesInCycles info
                  <-> exists c, c ∈ info_cycles info /\ x ∈ cycle_nodes c)
    /\ (forall x, x ∈ info_edgesInCycles info
                  <-> exists c, c ∈ info_cycles info /\ x ∈ cycle_edges c)
    /\ cycleCount info = length (info_cycles info)
    /\ totalCycles (stats info) = length (info_cycles info)
    /\ totalNodesInCycles (stats info) = size (info_nodesInCycles info)
    /\ totalEdgesInCycles (stats info) = size (info_edgesInCycles info).
Proof.
  eexists. split; [vm_compute; reflexivity|].
  apply (detectCycles_tally ringNodes ringEdges). vm_compute; reflexivity.
Defined.

(** *** The marks on the graph *)

Lemma memberOf_spec select x cs : forall i k,
  k ∈ memberOf select x cs i
  <-> exists c, i <= k /\ cs !! (k - i) = Some c /\ x ∈ select c.
Proof.
  induction cs as [|c cs IH]; intros i k; simpl.
  - rewrite elem_of_nil. split; [done|]. by intros (c & _ & ? & _).
  - assert (Hrest : (exists c', S i <= k /\ cs !! (k - S i) = Some c' /\ x ∈ select c')
                    <-> exists c', i <= k /\ k <> i
                                   /\ (c :: cs) !! (k - i) = Some c' /\ x ∈ select c').
    { split.
      - intros (c' & Hk & Hl & Hx). exists c'. split; [lia|]. split; [lia|].
        split; [|done]. replace (k - i) with (S (k - S i)) by lia. done.
      - intros (c' & Hk & Hne & Hl & Hx). exists c'. split; [lia|].
        split; [|done]. replace (k - i) with (S (k - S i)) in Hl by lia. done. }
    destruct (bool_decide (x ∈ select c)) eqn:Ex.
    + apply bool_decide_eq_true in Ex. rewrite elem_of_cons, IH, Hrest. split.
      * intros [->|(c' & ? & ? & ? & ?)].
        -- exists c. split; [lia|]. by rewrite Nat.sub_diag.
        -- by exists c'.
      * intros (c' & Hk & Hl & Hx). destruct (decide (k = i)) as [->|Hne];
          [by left|]. right. by exists c'.
    + apply bool_decide_eq_false in Ex. rewrite IH, Hrest. split.
      * intros (c' & ? & ? & ? & ?). by exists c'.
      * intros (c' & Hk & Hl & Hx). exists c'. split; [done|]. split; [|done].
        intros ->. rewrite Nat.sub_diag in Hl. simpl in Hl. congruence.
Qed.

Lemma cyclesFrom_ids x cs : forall i,
  map nc_id (cyclesFrom x cs i) = memberOf cycle_nodes x cs i.
Proof.
  induction cs as [|c cs IH]; intros i; simpl; [done|].
  destruct (bool_decide (x ∈ cycle_nodes c)); simpl; by rewrite IH.
Qed.

Lemma cyclesFrom_nil x cs : forall i,
  (forall c, c ∈ cs -> x ∉ cycle_nodes c) -> cyclesFrom x cs i = [].
Proof.
  induction cs as [|c cs IH]; intros i Hx; simpl; [done|].
  rewrite bool_decide_eq_false_2 by (apply Hx; left).
  apply IH. intros c' Hc'. apply Hx. by right.
Qed.

(** After [applyCycleInfo] a node of a graph without marks is marked as in
    a cycle exactly when it is a node of a reported cycle, and the cycle
    ids it carries are the positions of the reported cycles it is a node of:
    the ones that [getCyclesForNode] returns for it. *)
Theorem markNode_cycles (nodes : list CyNode) (edges : list CyEdge)
    (info : CycleInfo) (n : CyNode) :
  detectCycles nodes edges = Some info ->
  inCycle n = false -> cycleIds n = [] ->
  let n' := markNode info n in
  (inCycle n' = true <-> exists c, c ∈ info_cycles info /\ id n ∈ cycle_nodes c)
  /\ (forall k, k ∈ cycleIds n'
                <-> exists c, info_cycles info !! k = Some c /\ id n ∈ cycle_nodes c)
  /\ cycleIds n' = map nc_id (getCyclesForNode (id n) info)
  /\ id n' = id n.
Proof.
  intros Hd Hin Hids n'. subst n'. unfold markNode, getCyclesForNode.
  destruct (detectCycles_tallied _ _ _ Hd) as [Hn _].
  rewrite cyclesFrom_ids.
  destruct (bool_decide (id n ∈ info_nodesInCycles info)) eqn:E; simpl.
  - apply bool_decide_eq_true in E. split; [by rewrite <- Hn|].
    split; [|done]. intros k. rewrite memberOf_spec. split.
    + intros (c & _ & Hl & Hx). exists c. by rewrite Nat.sub_0_r in Hl.
    + intros (c & Hl & Hx). exists c. rewrite Nat.sub_0_r. split; [lia|done].
  - apply bool_decide_eq_false in E. rewrite Hin, Hids.
    assert (Hno : forall c, c ∈ info_cycles info -> id n ∉ cycle_nodes c).
    { intros c Hc Hx. apply E, Hn. by exists c. }
    split; [|split; [|split; [|done]]].
    + split; [done|]. intros (c & Hc & Hx). by destruct (Hno c Hc).
    + intros k. rewrite elem_of_nil. split; [done|].
      intros (c & Hl%list_elem_of_lookup_2 & Hx). by destruct (Hno c Hl).
    + assert (Hm : map nc_id (cyclesFrom (id n) (info_cycles info) 0) = [])
        by (by rewrite cyclesFrom_nil).
      by rewrite cyclesFrom_ids in Hm.
Qed.

Lemma markNode_cycles_witness :
  exists info,
    detectCycles ringNodes ringEdges = Some info
    /\ inCycle (plainNode "B") = false /\ cycleIds (plainNode "B") = []
    /\ (inCycle (markNode info (plainNode "B")) = true
        <-> exists c, c ∈ info_cycles info /\ id (plainNode "B") ∈ cycle_nodes c)
    /\ (forall k, k ∈ cycleIds (markNode info (plainNode "B"))
                  <-> exists c, info_cycles info !! k = Some c
                                /\ id (plainNode "B") ∈ cycle_nodes c)
    /\ cycleIds (markNode info (plainNode "B"))
       = map nc_id (getCyclesForNode (id (plainNode "B")) info)
    /\ id (markNode info (plainNode "B")) = id (plainNode "B").
Proof.
  eexists. split; [vm_compute; reflexivity|].
  split; [reflexivity|]. split; [reflexivity|].
  apply (markNode_cycles ringNodes ringEdges); [vm_compute|..]; reflexivity.
Defined.

(** After [applyCycleInfo] an edge of a graph without marks is marked as a
    cycle edge exactly when it is an edge of a reported cycle, and the
    cycle ids it carries are the positions of those cycles. *)
Theorem markEdge_cycles (nodes : list CyNode) (edges : list CyEdge)
    (info : CycleInfo) (e : CyEdge) :
  detectCycles nodes edges = Some info ->
  isCycleEdge e = false -> edge_cycleIds e = [] ->
  let e' := markEdge info e in
  (isCycleEdge e' = true
   <-> exists c, c ∈ info_cycles info /\ edge_id e ∈ cycle_edges c)
  /\ (forall k, k ∈ edge_cycleIds e'
                <-> exists c, info_cycles info !! k = Some c
                              /\ edge_id e ∈ cycle_edges c)
  /\ (edge_id e', source e', target e', refType e')
     = (edge_id e, source e, target e, refType e).
Proof.
  intros Hd Hin Hids e'. subst e'. unfold markEdge.
  destruct (detectCycles_tallied _ _ _ Hd) as [_ He].
  destruct (bool_decide (edge_id e ∈ info_edgesInCycles info)) eqn:E; simpl.
  - apply bool_decide_eq_true in E. split; [by rewrite <- He|].
    split; [|done]. intros k. rewrite memberOf_spec. split.
    + intros (c & _ & Hl & Hx). exists c. by rewrite Nat.sub_0_r in Hl.
    + intros (c & Hl & Hx). exists c. rewrite Nat.sub_0_r. split; [lia|done].
  - apply bool_decide_eq_false in E. rewrite Hin, Hids.
    assert (Hno : forall c, c ∈ info_cycles info -> edge_id e ∉ cycle_edges c).
    { intros c Hc Hx. apply E, He. by exists c. }
    split; [|split; [|done]].
    + split; [done|]. intros (c & Hc & Hx). by destruct (Hno c Hc).
    + intros k. rewrite elem_of_nil. split; [done|].
      intros (c & Hl%list_elem_of_lookup_2 & Hx). by destruct (Hno c Hl).
Qed.

Lemma markEdge_cycles_witness :
  exists info,
    detectCycles ringNodes ringEdges = Some info
    /\ isCycleEdge (plainEdge "B" "C" 2) = false
    /\ edge_cycleIds (plainEdge "B" "C" 2) = []
    /\ (isCycleEdge (markEdge info (plainEdge "B" "C" 2)) = true
        <-> exists c, c ∈ info_cycles info
                      /\ edge_id (plainEdge "B" "C" 2) ∈ cycle_edges c)
    /\ (forall k, k ∈ edge_cycleIds (markEdge info (plainEdge "B" "C" 2))
                  <-> exists c, info_cycles info !! k = Some c
                                /\ edge_id (plainEdge "B" "C" 2) ∈ cycle_edges c)
    /\ (edge_id (markEdge info (plainEdge "B" "C" 2)),
        source (markEdge info (plainEdge "B" "C" 2)),
        target (markEdge info (plainEdge "B" "C" 2)),
        refType (markEdge info (plainEdge "B" "C" 2)))
       = (edge_id (plainEdge "B" "C" 2), source (plainEdge "B" "C" 2),
          target (plainEdge "B" "C" 2), refType (plainEdge "B" "C" 2)).
Proof.
  eexists. split; [vm_compute; reflexivity|].
  split; [reflexivity|]. split; [reflexivity|].
  apply (markEdge_cycles ringNodes ringEdges); [vm_compute|..]; reflexivity.
Defined.


(** *** The entries of the adjacency list are the edges among the nodes *)

Lemma outgoing_elem edges s nb :
  nb ∈ outgoing edges s
  <-> exists e, e ∈ edges /\ Kind_eqb (refType e) circular = true
                /\ source e = s /\ target e = nb_target nb
                /\ edge_id e = nb_edgeId nb.
Proof.
  unfold outgoing. rewrite list_elem_of_fmap. split.
  - intros (e & -> & [[Hk Hs] He]%list_elem_of_filter). by exists e.
  - intros (e & He & Hk & Hs & Ht & Hi). exists e. split.
    + destruct nb. simpl in *. by subst.
    + by apply list_elem_of_filter.
Qed.

Lemma Kind_eqb_eq a b : Kind_eqb a b = true <-> a = b.
Proof. destruct a, b; simpl; split; congruence. Qed.

Lemma successor_iff nodes edges v t :
  successor (buildAdjacencyList nodes edges) v t
  <-> exists e, circularEdge (among nodes edges) v t e.
Proof.
  unfold successor. rewrite buildAdjacencyList_entries. split.
  - intros (nb & Hnb & <-).
    destruct (bool_decide (v ∈ map id nodes)) eqn:Ev;
      [|by apply elem_of_nil in Hnb].
    apply bool_decide_eq_true in Ev. simpl in Hnb.
    apply outgoing_elem in Hnb as (e & He & Hk & Hs & Ht & Hi).
    exists (nb_edgeId nb), e. split.
    + apply list_elem_of_filter. by rewrite Hs.
    + by apply Kind_eqb_eq in Hk.
  - intros (i & e & [Hin He]%list_elem_of_filter & Hk & Hs & Ht & Hi).
    rewrite Hs in Hin. rewrite bool_decide_eq_true_2 by done. simpl.
    exists {| nb_target := t; nb_edgeId := i |}. split; [|done].
    apply outgoing_elem. exists e. simpl. by rewrite Hk.
Qed.

Lemma among_adjacent nodes edges :
  adjacent (among nodes edges) (buildAdjacencyList nodes edges).
Proof.
  intros s l nb Hl Hnb.
  assert (Hs : successor (buildAdjacencyList nodes edges) s (nb_target nb)).
  { exists nb. by rewrite Hl. }
  rewrite buildAdjacencyList_entries in Hl.
  destruct (bool_decide (s ∈ map id nodes)) eqn:Ev; [|done].
  apply bool_decide_eq_true in Ev. injection Hl as <-.
  apply outgoing_elem in Hnb as (e & He & Hk & Hsrc & Ht & Hi).
  exists e. split; [apply list_elem_of_filter; by rewrite Hsrc|].
  by apply Kind_eqb_eq in Hk.
Qed.

(** *** The recursion stack *)

Lemma indexOf_elem path x : x ∈ path -> is_Some (indexOf path x).
Proof.
  induction path as [|y r IH]; [by intros ?%elem_of_nil|]. simpl.
  destruct (eqb y x) eqn:E; [by eexists|].
  intros [->|Hin]%elem_of_cons; [by rewrite eqb_refl in E|].
  destruct (IH Hin) as [i ->]. by eexists.
Qed.

Lemma explored_refl adjList st :
  finished adjList st -> simple st -> explored adjList st st.
Proof. by intros. Qed.

Lemma explored_trans adjList a b c :
  explored adjList a b -> explored adjList b c -> explored adjList a c.
Proof.
  intros (Hs1 & Hv1 & _ & _ & Hc1) (Hs2 & Hv2 & Hf2 & Hp2 & Hc2).
  split; [congruence|]. split; [set_solver|]. split; [done|]. split; [done|].
  auto.
Qed.

Lemma onStack_explored adjList path st st' :
  onStack path st -> explored adjList st st' -> onStack path st'.
Proof.
  intros (Hn & Hp & Hv) (Hs & Hsub & _). split; [done|]. rewrite Hs.
  split; [done|]. intros x Hx. apply Hsub. by apply Hv.
Qed.

Lemma closeCycle_explored adjList path edgePath nb st :
  onStack path st -> simple st -> nb_target nb ∈ recursionStack st ->
  explored adjList st (closeCycle path edgePath nb st)
  /\ cycles (closeCycle path edgePath nb st) <> [].
Proof.
  intros (Hn & Hp & Hv) Hs Hin. unfold closeCycle.
  destruct (indexOf_elem path (nb_target nb)) as [i ->]; [by apply Hp|].
  assert (Hne : forall c, cycles st ++ [c] <> []) by (intros c; by destruct (cycles st)).
  split; [|apply Hne]. split; [done|]. split; [done|]. split.
  - intros Hc. by destruct (Hne _ Hc).
  - split; [|intros Hc; by destruct (Hne _ Hc)].
    apply Forall_app. split; [done|]. constructor; [|done]. simpl.
    eapply sublist_NoDup; [exact Hn|apply sublist_drop].
Qed.

Lemma visitNeighbors_explored adjList descend path edgePath neighbors :
  (forall t ep st st',
      onStack path st -> finished adjList st -> simple st -> t ∉ visited st ->
      descend t path ep st = Some st' ->
      explored adjList st st' /\ t ∈ visited st') ->
  forall st st',
    onStack path st -> finished adjList st -> simple st ->
    visitNeighbors descend path edgePath neighbors st = Some st' ->
    explored adjList st st'
    /\ (cycles st' = [] ->
        forall nb, nb ∈ neighbors -> settled adjList (nb_target nb)).
Proof.
  intros Hdesc. induction neighbors as [|nb rest IH]; intros st st' Ho Hf Hs; simpl.
  - intros [= <-]. split; [by apply explored_refl|].
    by intros _ nb ?%elem_of_nil.
  - destruct (bool_decide (nb_target nb ∈ recursionStack st)) eqn:Er.
    { apply bool_decide_eq_true in Er.
      destruct (closeCycle_explored adjList path edgePath nb st Ho Hs Er)
        as [He Hne].
      intros Hv. destruct (IH _ _ (onStack_explored _ _ _ _ Ho He)
                             (proj1 (proj2 (proj2 He)))
                             (proj1 (proj2 (proj2 (proj2 He)))) Hv) as [He' Hall].
      split; [by eapply explored_trans|]. intros Hc.
      destruct He' as (_ & _ & _ & _ & Hback). by destruct (Hne (Hback Hc)). }
    apply bool_decide_eq_false in Er.
    destruct (bool_decide (nb_target nb ∉ visited st)) eqn:Ev.
    + apply bool_decide_eq_true in Ev.
      destruct (descend _ _ _ st) as [st1|] eqn:Ed; [|done].
      destruct (Hdesc _ _ _ _ Ho Hf Hs Ev Ed) as [He Hin].
      intros Hv. destruct (IH _ _ (onStack_explored _ _ _ _ Ho He)
                             (proj1 (proj2 (proj2 He)))
                             (proj1 (proj2 (proj2 (proj2 He)))) Hv) as [He' Hall].
      split; [by eapply explored_trans|]. intros Hc nb' [->|Hin']%elem_of_cons;
        [|by apply Hall].
      destruct He as (Hst & _ & Hf1 & _ & _).
      destruct He' as (Hst' & Hsub' & Hf' & _ & Hback).
      apply Hf'; [done|by apply Hsub'|]. rewrite Hst', Hst. exact Er.
    + apply bool_decide_eq_false in Ev. intros Hv.
      destruct (IH _ _ Ho Hf Hs Hv) as [He' Hall].
      split; [done|]. intros Hc nb' [->|Hin']%elem_of_cons; [|by apply Hall].
      destruct He' as (Hst' & Hsub' & Hf' & _ & Hback).
      apply Hf'; [done| |by rewrite Hst'].
      apply Hsub'. destruct (decide (nb_target nb ∈ visited st)); [done|].
      by destruct Ev.
Qed.

Lemma dfs_explored adjList fuel : forall nodeId path edgePath st st',
  onStack path st -> finished adjList st -> simple st -> nodeId ∉ visited st ->
  dfs fuel adjList nodeId path edgePath st = Some st' ->
  explored adjList st st' /\ nodeId ∈ visited st'.
Proof.
  induction fuel as [|fuel IH];
    intros nodeId path edgePath st st' Ho Hf Hs Hnew; [done|].
  simpl. destruct (visitNeighbors _ _ _ _ _) as [st2|] eqn:Ev; [|done].
  intros [= <-]. destruct Ho as (Hn & Hp & Hv).
  assert (Hfresh : nodeId ∉ recursionStack st) by (intros ?; by apply Hnew, Hv).
  assert (Ho1 : onStack (path ++ [nodeId]) (enter nodeId st)).
  { split; [|split].
    - apply NoDup_app. split; [done|]. split; [|apply NoDup_singleton].
      intros x Hx ->%list_elem_of_singleton. by apply Hfresh, Hp.
    - intros x. simpl. rewrite elem_of_union, elem_of_singleton, elem_of_app,
        list_elem_of_singleton, Hp. tauto.
    - intros x. simpl. rewrite !elem_of_union. intros [?|?]; [by left|].
      right. by apply Hv. }
  assert (Hf1 : finished adjList (enter nodeId st)).
  { intros Hc u Hu Hnu. simpl in *. apply Hf; [done|set_solver|set_solver]. }
  destruct (visitNeighbors_explored adjList (dfs fuel adjList) (path ++ [nodeId])
              edgePath (default [] (adjList !! nodeId))
              (fun t ep s s' H1 H2 H3 H4 H5 => IH t _ ep s s' H1 H2 H3 H4 H5)
              _ _ Ho1 Hf1 Hs Ev)
    as [(Hst & Hsub & Hf2 & Hs2 & Hback) Hall].
  simpl in Hst, Hsub, Hback.
  split; [|simpl; apply Hsub; set_solver].
  split; [simpl; rewrite Hst; set_solver|].
  split; [simpl; set_solver|]. split; [|split; [done|done]].
  intros Hc u Hu Hnu. simpl in Hc, Hu, Hnu.
  destruct (decide (u = nodeId)) as [->|Hne].
  - constructor. intros t (nb & Hnb & <-). by apply Hall.
  - apply Hf2; [done|done|]. rewrite Hst. set_solver.
Qed.

Lemma startFrom_fold_explored adjList fuel ns : forall st st',
  recursionStack st = ∅ -> finished adjList st -> simple st ->
  fold_left (startFrom fuel adjList) ns (Some st) = Some st' ->
  explored adjList st st' /\ forall n, n ∈ ns -> id n ∈ visited st'.
Proof.
  induction ns as [|n ns IH]; intros st st' He Hf Hs; cbn [fold_left startFrom].
  - intros [= <-]. split; [by apply explored_refl|]. by intros n ?%elem_of_nil.
  - assert (Ho : onStack [] st).
    { split; [constructor|]. rewrite He. split; intros x; set_solver. }
    destruct (bool_decide (id n ∉ visited st)) eqn:Ev.
    + apply bool_decide_eq_true in Ev.
      destruct (dfs fuel adjList (id n) [] [] st) as [st1|] eqn:Ed.
      * destruct (dfs_explored _ _ _ _ _ _ _ Ho Hf Hs Ev Ed) as [Hx Hin].
        intros Hfold.
        destruct (IH st1 st') as [Hx' Hall].
        -- destruct Hx as (-> & _). exact He.
        -- apply Hx.
        -- apply Hx.
        -- exact Hfold.
        -- split; [by eapply explored_trans|].
           intros n' [->|Hn']%elem_of_cons; [|by apply Hall].
           destruct Hx' as (_ & Hsub & _). by apply Hsub.
      * assert (Hnone : fold_left (startFrom fuel adjList) ns None = None).
        { clear. induction ns; cbn [fold_left startFrom]; [done|]. exact IHns. }
        by rewrite Hnone.
    + apply bool_decide_eq_false in Ev. intros Hfold.
      destruct (IH st st' He Hf Hs Hfold) as [Hx' Hall].
      split; [done|]. intros n' [->|Hn']%elem_of_cons; [|by apply Hall].
      destruct Hx' as (_ & Hsub & _). apply Hsub.
      destruct (decide (id n ∈ visited st)); [done|]. by destruct Ev.
Qed.

Lemma detectCycles_explored nodes edges info :
  detectCycles nodes edges = Some info ->
  Forall (fun c => NoDup (cycle_nodes c)) (info_cycles info)
  /\ (info_cycles info = [] ->
      forall n, n ∈ nodes -> settled (buildAdjacencyList nodes edges) (id n)).
Proof.
  intros (st & Hf & -> & _)%detectCycles_state.
  apply startFrom_fold_explored in Hf as [(Hst & _ & Hfin & Hs & _) Hall];
    [|done|by intros _ u ?%elem_of_empty|constructor].
  split; [exact Hs|]. intros Hc n Hn. apply Hfin; [done|by apply Hall|].
  rewrite Hst. simpl. apply not_elem_of_empty.
Qed.

(** *** Closed paths *)

Lemma settled_no_closed_walk E adjList :
  (forall v t e, circularEdge E v t e -> successor adjList v t) ->
  forall u, settled adjList u ->
  forall vs es, walk E u vs es -> vs <> [] -> List.last vs u = u -> False.
Proof.
  intros Hsucc u Hacc. induction Hacc as [u _ IH]. intros vs es Hw Hne Hlast.
  destruct vs as [|t vs]; [done|]. destruct es as [|e es]; [done|].
  destruct Hw as [He Hw]. rewrite last_cons_default in Hlast.
  apply (IH t (Hsucc _ _ _ He) (vs ++ [t]) (es ++ [e])).
  - apply walk_snoc; [done|]. by rewrite Hlast.
  - by destruct vs.
  - apply last_snoc_default.
Qed.

Lemma walk_length E : forall vs v es, walk E v vs es -> length es = length vs.
Proof.
  induction vs as [|v' vs IH]; intros v [|e es]; simpl; try done.
  intros [_ Hw]. f_equal. by eapply IH.
Qed.

Lemma detectCycles_genuine E nodes edges info :
  adjacent E (buildAdjacencyList nodes edges) ->
  detectCycles nodes edges = Some info ->
  Forall (genuine E) (info_cycles info).
Proof.
  intros Ha (st & Hf & -> & _)%detectCycles_state. revert Hf.
  generalize (depthBound nodes edges). intros fuel.
  set (adjList := buildAdjacencyList nodes edges) in *.
  assert (Hfold : forall ns st0 st', sound E st0 ->
            fold_left (startFrom fuel adjList) ns (Some st0) = Some st' ->
            sound E st').
  { induction ns as [|n ns IH]; intros st0 st' Hs; cbn [fold_left startFrom];
      [by intros [= <-]|].
    destruct (bool_decide (id n ∉ visited st0)); [|by apply IH].
    destruct (dfs fuel adjList (id n) [] [] st0) as [st1|] eqn:Ed.
    - apply IH. eapply dfs_sound; [exact Ha| |exact Hs|exact Ed]. done.
    - clear. induction ns; cbn [fold_left startFrom]; [done|]. exact IHns. }
  intros Hf. refine (Hfold _ _ _ _ Hf). constructor.
Qed.

(** [detectCycles] reports a cycle exactly when the graph has one: a closed
    path of circular-type edges that leave nodes of the graph. *)
Theorem detectCycles_reports_iff (nodes : list CyNode) (edges : list CyEdge)
    (info : CycleInfo) :
  detectCycles nodes edges = Some info ->
  info_cycles info <> []
  <-> exists ns es, closedPath (among nodes edges) ns es.
Proof.
  intros Hd. split.
  - intros Hne.
    pose proof (detectCycles_genuine _ _ _ _ (among_adjacent nodes edges) Hd) as Hg.
    destruct (info_cycles info) as [|c cs]; [done|].
    apply Forall_cons in Hg as [[Hc _] _]. by exists (cycle_nodes c), (cycle_edges c).
  - intros (ns & es & Hp) Hnil. destruct ns as [|v rest]; [done|]. simpl in Hp.
    destruct (detectCycles_explored _ _ _ Hd) as [_ Hall].
    assert (Hv : v ∈ map id nodes).
    { destruct (rest ++ [v]) as [|t vs] eqn:E; [by destruct rest|].
      destruct es as [|e es]; [done|].
      destruct Hp as [(x & [Hin _]%list_elem_of_filter & _ & <- & _) _]. done. }
    apply list_elem_of_fmap in Hv as (n & -> & Hn).
    eapply (settled_no_closed_walk (among nodes edges));
      [|apply (Hall Hnil n Hn)|exact Hp| |apply last_snoc_default].
    + intros v t e He. apply successor_iff. by exists e.
    + by destruct rest.
Qed.

Lemma detectCycles_reports_iff_witness :
  exists info,
    detectCycles ringNodes ringEdges = Some info
    /\ (info_cycles info <> []
        <-> exists ns es, closedPath (among ringNodes ringEdges) ns es).
Proof.
  eexists. split; [vm_compute; reflexivity|].
  apply (detectCycles_reports_iff ringNodes ringEdges). vm_compute; reflexivity.
Defined.

(** No reported cycle passes through a node twice, and every reported cycle
    has as many edges as nodes, at least one. *)
Theorem detectCycles_simple (nodes : list CyNode) (edges : list CyEdge)
    (info : CycleInfo) :
  detectCycles nodes edges = Some info ->
  Forall (fun c => NoDup (cycle_nodes c)
                   /\ length (cycle_edges c) = length (cycle_nodes c)
                   /\ cycle_length c = length (cycle_nodes c)
                   /\ 0 < cycle_length c) (info_cycles info).
Proof.
  intros Hd. destruct (detectCycles_explored _ _ _ Hd) as [Hs _].
  pose proof (detectCycles_genuine _ _ _ _ (among_adjacent nodes edges) Hd) as Hg.
  apply Forall_forall. intros c Hc.
  pose proof (proj1 (Forall_forall _ _) Hs _ Hc) as Hn.
  destruct (proj1 (Forall_forall _ _) Hg _ Hc) as [Hp Hl].
  split; [done|]. destruct (cycle_nodes c) as [|v rest]; [done|]. simpl in Hp.
  apply walk_length in Hp. rewrite length_app in Hp. simpl in *.
  split; [lia|]. split; [done|lia].
Qed.

Lemma detectCycles_simple_witness :
  exists info,
    detectCycles ringNodes ringEdges = Some info
    /\ Forall (fun c => NoDup (cycle_nodes c)
                        /\ length (cycle_edges c) = length (cycle_nodes c)
                        /\ cycle_length c = length (cycle_nodes c)
                        /\ 0 < cycle_length c) (info_cycles info).
Proof.
  eexists. split; [vm_compute; reflexivity|].
  apply (detectCycles_simple ringNodes ringEdges). vm_compute; reflexivity.
Defined.

(** ** The filters *)

(** *** The classes are set anew *)

Lemma forEachNode_fst g nodes : map fst (forEachNode g nodes) = map fst nodes.
Proof. unfold forEachNode. rewrite map_map. by apply map_ext. Qed.

Lemma hideEdge_fst nodes ec : fst (hideEdge nodes ec) = fst ec.
Proof. unfold hideEdge. by destruct (_ || _). Qed.

Lemma unclassed_fst {A} (l l' : list (A * Classes)) :
  map fst l = map fst l' ->
  map (fun x => (fst x, noClass)) l = map (fun x => (fst x, noClass)) l'.
Proof.
  intros H. rewrite <- !(map_map (@fst A Classes) (fun a => (a, noClass))).
  by rewrite H.
Qed.

Lemma applyFiltersTo_elements host f cy :
  map fst (cy_nodes (applyFiltersTo host f cy)) = map fst (cy_nodes cy)
  /\ map fst (cy_edges (applyFiltersTo host f cy)) = map fst (cy_edges cy).
Proof.
  unfold applyFiltersTo. cbn [cy_nodes cy_edges]. split.
  - rewrite !forEachNode_fst. rewrite map_map. by apply map_ext.
  - rewrite !map_map. apply map_ext. intros ec. by rewrite hideEdge_fst.
Qed.

Lemma applyFiltersTo_ext host f cy cy' :
  map fst (cy_nodes cy) = map fst (cy_nodes cy') ->
  map fst (cy_edges cy) = map fst (cy_edges cy') ->
  applyFiltersTo host f cy = applyFiltersTo host f cy'.
Proof.
  intros Hn He. unfold applyFiltersTo.
  by rewrite (unclassed_fst _ _ Hn), (unclassed_fst _ _ He).
Qed.

(** [applyFilters] keeps the nodes and the edges of the graph and sets
    their classes anew: the result does not depend on the classes that the
    elements had, and applying the filters a second time changes nothing. *)
Theorem applyFilters_resets (host : Host) (f : FilterState) (cy cy' : Cy) :
  map fst (cy_nodes cy) = map fst (cy_nodes cy') ->
  map fst (cy_edges cy) = map fst (cy_edges cy') ->
  applyFiltersTo host f cy = applyFiltersTo host f cy'
  /\ map fst (cy_nodes (applyFiltersTo host f cy)) = map fst (cy_nodes cy)
  /\ map fst (cy_edges (applyFiltersTo host f cy)) = map fst (cy_edges cy)
  /\ applyFiltersTo host f (applyFiltersTo host f cy) = applyFiltersTo host f cy.
Proof.
  intros Hn He. split; [by apply applyFiltersTo_ext|].
  destruct (applyFiltersTo_elements host f cy) as [Hn' He'].
  split; [exact Hn'|]. split; [exact He'|]. by apply applyFiltersTo_ext.
Qed.

Lemma applyFilters_resets_witness :
  map fst (cy_nodes (applyFiltersTo host0 (allowing [] "") viewer))
  = map fst (cy_nodes viewer)
  /\ map fst (cy_edges (applyFiltersTo host0 (allowing [] "") viewer))
     = map fst (cy_edges viewer)
  /\ applyFiltersTo host0 (allowing ["BPRD"] "dated")
       (applyFiltersTo host0 (allowing [] "") viewer)
     = applyFiltersTo host0 (allowing ["BPRD"] "dated") viewer.
Proof.
  split; [reflexivity|]. split; [reflexivity|].
  apply (applyFilters_resets host0 (allowing ["BPRD"] "dated")
           (applyFiltersTo host0 (allowing [] "") viewer) viewer); reflexivity.
Defined.

(** *** The year sliders *)

Lemma yearBounds_fold (nodes : list (CyNode * Classes)) : forall b : Z * Z,
  let r := fold_left
             (fun (b : Z * Z) (nc : CyNode * Classes) =>
                match year nc.1 with
                | Some y =>
                    if negb (y =? 0)%Z then (Z.min b.1 y, Z.max b.2 y) else b
                | None => b
                end) nodes b in
  (r.1 <= b.1)%Z /\ (b.2 <= r.2)%Z
  /\ (r = b \/ r.1 <= r.2)%Z
  /\ forall n c y, (n, c) ∈ nodes -> year n = Some y -> y <> 0%Z ->
       (r.1 <= y <= r.2)%Z.
Proof.
  induction nodes as [|[n c] nodes IH]; intros b; cbn [fold_left].
  - cbn zeta. split; [lia|]. split; [lia|]. split; [by left|].
    by intros n c y ?%elem_of_nil.
  - cbn zeta. cbn [fst]. destruct (year n) as [y|] eqn:Ey.
    + destruct (y =? 0)%Z eqn:Ez; cbn [negb].
      * destruct (IH b) as (H1 & H2 & H3 & H4). cbn zeta in *.
        split; [exact H1|]. split; [exact H2|]. split; [exact H3|].
        intros n' c' y' [[= -> ->]|Hin]%elem_of_cons Hy' Hnz; [|by eapply H4].
        apply Z.eqb_eq in Ez. congruence.
      * destruct (IH (Z.min b.1 y, Z.max b.2 y)) as (H1 & H2 & H3 & H4).
        cbn zeta in *. cbn [fst snd] in *.
        split; [lia|]. split; [lia|]. split.
        { right. destruct H3 as [->|H3]; [cbn [fst snd]|]; lia. }
        intros n' c' y' [[= -> ->]|Hin]%elem_of_cons Hy' Hnz; [|by eapply H4].
        assert (y' = y) by congruence. lia.
    + destruct (IH b) as (H1 & H2 & H3 & H4). cbn zeta in *.
      split; [exact H1|]. split; [exact H2|]. split; [exact H3|].
      intros n' c' y' [[= -> ->]|Hin]%elem_of_cons Hy' Hnz; [|by eapply H4].
      congruence.
Qed.

(** [initializeYearFilters] sets the year range and the sliders to bounds
    that are in order and that no year of a node lies outside of: the year
    filter hides nothing at first. *)
Theorem initializeYearFilters_range (p : Page) (cy : Cy) :
  cytoscape p = Some cy ->
  let p' := initializeYearFilters p in
  let f := activeFilters p' in
  (yearMin f <= yearMax f)%Z
  /\ sliderMin p' = yearMin f /\ sliderMax p' = yearMax f
  /\ (forall n c, (n, c) ∈ cy_nodes cy -> ~ nonZeroYearOutOfRange f n)
  /\ (forall n c, (n, c) ∈ cy_nodes cy -> byYear f n c = c).
Proof.
  intros Hcy. unfold initializeYearFilters. rewrite Hcy. cbn zeta.
  cbn [activeFilters sliderMin sliderMax setYears yearMin yearMax].
  pose proof (yearBounds_fold (cy_nodes cy) (3000, 1000)%Z) as H.
  cbn zeta in H. fold (yearBounds (cy_nodes cy)) in H.
  destruct (yearBounds (cy_nodes cy)) as [lo hi]. cbn [fst snd] in *.
  destruct H as (H1 & H2 & H3 & H4).
  assert (Hin : forall n c y, (n, c) ∈ cy_nodes cy -> year n = Some y -> y <> 0%Z ->
            ((if (lo =? 3000)%Z then 2000 else lo) <= y
             <= (if (hi =? 1000)%Z then 2025 else hi))%Z).
  { intros n c y Hn Hy Hnz. specialize (H4 n c y Hn Hy Hnz).
    destruct (lo =? 3000)%Z eqn:E1, (hi =? 1000)%Z eqn:E2; lia. }
  split.
  { destruct H3 as [[= -> ->]|H3]; [done|].
    destruct (lo =? 3000)%Z eqn:E1, (hi =? 1000)%Z eqn:E2; lia. }
  split; [done|]. split; [done|]. split.
  - intros n c Hn (y & Hy & Hnz & Hout).
    cbn [activeFilters setYears yearMin yearMax] in Hout.
    specialize (Hin n c y Hn Hy Hnz). lia.
  - intros n c Hn. unfold byYear. cbn [activeFilters setYears yearMin yearMax].
    destruct (year n) as [y|] eqn:Hy; [|done].
    destruct (y =? 0)%Z eqn:Ez; [done|]. apply Z.eqb_neq in Ez.
    specialize (Hin n c y Hn Hy Ez). cbn [negb andb].
    destruct (y <? _)%Z eqn:E1; [lia|]. destruct (_ <? y)%Z eqn:E2; [lia|done].
Qed.

Lemma initializeYearFilters_range_witness :
  cytoscape page0 = Some viewer
  /\ yearMin (activeFilters (initializeYearFilters page0)) = 2010%Z
  /\ yearMax (activeFilters (initializeYearFilters page0)) = 2010%Z
  /\ (yearMin (activeFilters (initializeYearFilters page0))
      <= yearMax (activeFilters (initializeYearFilters page0)))%Z.
Proof.
  split; [reflexivity|]. split; [reflexivity|]. split; [reflexivity|].
  apply (initializeYearFilters_range page0 viewer). reflexivity.
Defined.

(** When the slider that was not moved shows the bound that the filter
    state has, [onYearFilterChange] leaves the bounds of the year range in
    order: a slider moved past the other one is put on it. *)
Theorem onYearFilterChange_ordered (host : Host) (moved : Slider) (lo hi : Z)
    (p : Page) :
  match moved with
  | sliderYearMin => yearMax (activeFilters p) = hi
  | sliderYearMax => yearMin (activeFilters p) = lo
  end ->
  let f := activeFilters (onYearFilterChange host moved lo hi p) in
  (yearMin f <= yearMax f)%Z
  /\ ((lo <= hi)%Z -> yearMin f = lo /\ yearMax f = hi)
  /\ ((hi < lo)%Z -> yearMin f = yearMax f).
Proof.
  intros H. unfold onYearFilterChange. cbn zeta.
  cbn [saveFilterState withStorage applyFilters withFilters activeFilters].
  destruct (hi <? lo)%Z eqn:E.
  - apply Z.ltb_lt in E. destruct moved; cbn [setYears yearMin yearMax];
      (split; [lia|]); (split; [lia|]); intros _; lia.
  - apply Z.ltb_ge in E. cbn [setYears yearMin yearMax].
    split; [lia|]. split; [done|lia].
Qed.

Lemma onYearFilterChange_ordered_witness :
  yearMax (activeFilters page0) = 2025%Z
  /\ yearMin (activeFilters
                (onYearFilterChange host0 sliderYearMin 2030 2025 page0)) = 2025%Z
  /\ (yearMin (activeFilters
                 (onYearFilterChange host0 sliderYearMin 2030 2025 page0))
      <= yearMax (activeFilters
                    (onYearFilterChange host0 sliderYearMin 2030 2025 page0)))%Z.
Proof.
  split; [reflexivity|]. split; [reflexivity|].
  apply (onYearFilterChange_ordered host0 sliderYearMin 2030 2025 page0).
  reflexivity.
Defined.

(** ** Examples of the properties of the built graph, of the search for
    cycles and of the search handler *)

Lemma buildGraph_no_dangling_witness :
  exists g,
    buildGraph host0 zeroDateData = Some g
    /\ link ∈ g_edges g
    /\ source link ∈ map id (g_nodes g) /\ target link ∈ map id (g_nodes g).
Proof.
  eexists. split; [vm_compute; reflexivity|]. split; [left|].
  apply (buildGraph_no_dangling host0 zeroDateData); [vm_compute; reflexivity|left].
Defined.

Lemma detectCycles_sound_witness :
  exists info,
    detectCycles ringNodes ringEdges = Some info
    /\ length (info_cycles info) = 1
    /\ Forall (genuine ringEdges) (info_cycles info).
Proof.
  eexists. split; [vm_compute; reflexivity|]. split; [reflexivity|].
  apply (detectCycles_sound ringNodes ringEdges). vm_compute; reflexivity.
Defined.

Lemma handle_lowercaseQuery_witness :
  caseByCodePoint (toLowerCase host0)
  /\ lowercaseQuery host0 page0
  /\ searchQuery (activeFilters (handle host0 (SearchInput "  BPRD Circular ") page0))
     = "bprd circular"
  /\ lowercaseQuery host0 (handle host0 (SearchInput "  BPRD Circular ") page0).
Proof.
  split; [exact host0_case|]. split; [reflexivity|]. split; [reflexivity|].
  apply (handle_lowercaseQuery host0 (SearchInput "  BPRD Circular ") page0 host0_case).
  reflexivity.
Defined.
